(** * PBR-Demo: the OBJ/MTL loader, the material resolver, the camera,
      the PBR fragment shader and the render loop, embedded in Rocq.

    Sources embedded here:
    - [js/shaders.js]: the GLSL fragment shader and the OBJ/MTL loader
      ([parseMTL], [parseOBJ], [createGeometryWithMaterials]);
    - [public_html/js/helpers.js]: the [Camera] class;
    - the main application ([render], [drawPlant], [setupPlantMaterial]).

    Number model.  A JavaScript Number is an IEEE 754 binary64 value and is
    embedded as Rocq's primitive [float].  Numbers that the program only uses
    as integers (results of [parseInt], array lengths, vertex indices) are
    embedded as [Z] or [nat], with NaN as [None] where it can arise; this is
    exact below 2^53.  A GLSL float of the fragment shader is embedded as an
    IEEE 754 binary32 value.  Strings are sequences of code units below
    256. *)

From Stdlib Require Import ZArith List String Ascii Bool Lia.
From Stdlib Require Import PrimFloat FloatOps SpecFloat FloatAxioms.
From stdpp Require Import base gmap strings list pretty.

Set Warnings "-inexact-float".
Local Open Scope string_scope.
Local Open Scope Z_scope.

(* ===================================================================== *)
(** ** JavaScript built-ins used by the loader *)
(* ===================================================================== *)

Module JS.

(** [\s] of a regular expression and the set [String.prototype.trim]
    strips, restricted to code units below 256: TAB, LF, VT, FF, CR,
    SPACE and NO-BREAK SPACE. *)
Definition is_space (c : ascii) : bool :=
  let n := nat_of_ascii c in
  (Nat.eqb n 9 || Nat.eqb n 10 || Nat.eqb n 11 || Nat.eqb n 12
   || Nat.eqb n 13 || Nat.eqb n 32 || Nat.eqb n 160)%bool.

(** [s.split(sep)] for a one-character separator. *)
Fixpoint split_on (sep : ascii) (s : string) : list string :=
  match s with
  | EmptyString => [EmptyString]
  | String c s' =>
      if Ascii.eqb c sep then EmptyString :: split_on sep s'
      else match split_on sep s' with
           | t :: ts => String c t :: ts
           | [] => [String c EmptyString]
           end
  end.

Fixpoint trimStart (s : string) : string :=
  match s with
  | String c s' => if is_space c then trimStart s' else s
  | EmptyString => EmptyString
  end.

Fixpoint trimEnd (s : string) : string :=
  match s with
  | EmptyString => EmptyString
  | String c s' =>
      match trimEnd s' with
      | EmptyString => if is_space c then EmptyString else String c EmptyString
      | t => String c t
      end
  end.

(** [s.trim()] *)
Definition trim (s : string) : string := trimEnd (trimStart s).

(** [s.split(/\s+/)]: the pieces between maximal runs of white space;
    [gap] tells that the previous code unit was white space. *)
Fixpoint split_ws_from (gap : bool) (s : string) : list string :=
  match s with
  | EmptyString => [EmptyString]
  | String c s' =>
      if is_space c then
        if gap then split_ws_from true s'
        else EmptyString :: split_ws_from true s'
      else match split_ws_from false s' with
           | t :: ts => String c t :: ts
           | [] => [String c EmptyString]
           end
  end.

Definition split_ws (s : string) : list string := split_ws_from false s.

(** [s.startsWith(p)] *)
Fixpoint startsWith (p s : string) : bool :=
  match p, s with
  | EmptyString, _ => true
  | String a p', String b s' => Ascii.eqb a b && startsWith p' s'
  | String _ _, EmptyString => false
  end.

(** [parts.join(' ')] *)
Fixpoint join (sep : string) (l : list string) : string :=
  match l with
  | [] => EmptyString
  | [x] => x
  | x :: xs => x +:+ sep +:+ join sep xs
  end.

(** [s.replace(/\\/g, '/')] *)
Fixpoint replace_backslashes (s : string) : string :=
  match s with
  | EmptyString => EmptyString
  | String c s' =>
      String (if Ascii.eqb c "\"%char then "/"%char else c) (replace_backslashes s')
  end.

(** *** parseInt *)

(** The value of a digit of the given radix, if [c] is one. *)
Definition digit_val (radix : Z) (c : ascii) : option Z :=
  let n := Z.of_nat (nat_of_ascii c) in
  let d := if (48 <=? n) && (n <=? 57) then Some (n - 48)
           else if (97 <=? n) && (n <=? 122) then Some (n - 87)
           else if (65 <=? n) && (n <=? 90) then Some (n - 55)
           else None in
  match d with
  | Some v => if v <? radix then Some v else None
  | None => None
  end.

(** The longest prefix of digits of [s], read in [radix]; [acc] is the
    value read so far, [None] while no digit was read. *)
Fixpoint digits_prefix (radix : Z) (acc : option Z) (s : string) : option Z :=
  match s with
  | String c s' =>
      match digit_val radix c with
      | Some d =>
          digits_prefix radix
            (Some (match acc with Some a => a * radix + d | None => d end)) s'
      | None => acc
      end
  | EmptyString => acc
  end.

Definition strip_sign (s : string) : bool * string :=
  match s with
  | String "-" s' => (true, s')
  | String "+" s' => (false, s')
  | _ => (false, s)
  end.

(** [parseInt(s)] without a radix; [None] is NaN.  The value is the
    integer that the digits denote; the Number of the source is that
    integer rounded to binary64, the same below 2^53. *)
Definition parseInt (s : string) : option Z :=
  let '(neg, s1) := strip_sign (trimStart s) in
  let '(radix, s2) :=
    match s1 with
    | String "0" (String "x" r) | String "0" (String "X" r) => (16, r)
    | _ => (10, s1)
    end in
  match digits_prefix radix None s2 with
  | Some n => Some (if neg then - n else n)
  | None => None
  end.

(** [x || 0] for the result of [parseInt]: NaN and 0 are falsy. *)
Definition or_zero (x : option Z) : Z :=
  match x with Some z => z | None => 0 end.

(** *** parseFloat *)

(** The longest prefix of decimal digits: the value of the digits read
    after [acc], how many were read, and the rest of the string. *)
Fixpoint decimal_digits (acc : Z) (n : Z) (s : string) : Z * Z * string :=
  match s with
  | String c s' =>
      match digit_val 10 c with
      | Some d => decimal_digits (acc * 10 + d) (n + 1) s'
      | None => (acc, n, s)
      end
  | EmptyString => (acc, n, s)
  end.

(** The exponent part [e[+-]digits] of a decimal literal, 0 if [s] does
    not start with a complete one. *)
Definition exponent_part (s : string) : Z :=
  match s with
  | String c s' =>
      if Ascii.eqb c "e" || Ascii.eqb c "E" then
        let '(neg, s1) := strip_sign s' in
        let '(e, n, _) := decimal_digits 0 0 s1 in
        if 0 <? n then (if neg then - e else e) else 0
      else 0
  | EmptyString => 0
  end.

(** The binary64 value nearest to [m * 10^e] (ties to even), signed. *)
Definition decimal_to_float (neg : bool) (m e : Z) : float :=
  if m =? 0 then (if neg then neg_zero else zero)
  else if 0 <=? e then
    SF2Prim (binary_normalize prec emax (if neg then - (m * 10 ^ e) else m * 10 ^ e) 0 false)
  else
    let '(q, e', l) := SFdiv_core_binary prec emax m 0 (10 ^ (- e)) 0 in
    SF2Prim (binary_round_aux prec emax neg q e' l).

(** [parseFloat(s)]: the longest prefix of [s] (after leading white
    space) that is a decimal literal, NaN if there is none. *)
Definition parseFloat (s : string) : float :=
  let '(neg, s1) := strip_sign (trimStart s) in
  if startsWith "Infinity" s1 then (if neg then neg_infinity else infinity)
  else
    let '(ip, ni, s2) := decimal_digits 0 0 s1 in
    let '(m, nf, s3) :=
      match s2 with
      | String "." r =>
          let '(m, nf, s3) := decimal_digits ip 0 r in
          if (ni =? 0) && (nf =? 0) then (ip, 0, s2) else (m, nf, s3)
      | _ => (ip, 0, s2)
      end in
    if (ni =? 0) && (nf =? 0) then nan
    else decimal_to_float neg m (exponent_part s3 - nf).

(** [parseFloat(parts[i])] where [parts[i]] may be [undefined]. *)
Definition parseFloat_opt (o : option string) : float :=
  match o with Some s => parseFloat s | None => nan end.

(** Truthiness of a Number: every number but 0, -0 and NaN. *)
Definition truthy (x : float) : bool := negb (is_zero x || is_nan x).

(** [x || d] where [x] is a Number or [undefined]. *)
Definition num_or (x : option float) (d : float) : float :=
  match x with
  | Some v => if truthy v then v else d
  | None => d
  end.

(** [x || d] where [x] is an object (an array, a texture) or [undefined]:
    every object is truthy. *)
Definition obj_or {A} (x : option A) (d : A) : A :=
  match x with Some v => v | None => d end.

(** [Math.min] and [Math.max]: NaN if an argument is NaN, and -0 is
    smaller than +0. *)
Definition Math_min (a b : float) : float :=
  match (a ?= b)%float with
  | FLt => a
  | FGt => b
  | FEq => if get_sign a then a else b
  | FNotComparable => nan
  end.

Definition Math_max (a b : float) : float :=
  match (a ?= b)%float with
  | FLt => b
  | FGt => a
  | FEq => if get_sign a then b else a
  | FNotComparable => nan
  end.

End JS.


(* ===================================================================== *)
(** ** The material library parser ([parseMTL]) *)
(* ===================================================================== *)

Module MTL.
Import JS.

(** A texture object returned by [loadImageTexture(gl, fullPath)], known
    by the path it loads. *)
Definition texture := string.

(** A material object: every property is absent until a directive sets
    it.  [illum] comes from [parseInt], so its value is an integer or NaN
    ([Some None]). *)
Record Material := {
  shininess : option float;
  ambient : option (list float);
  diffuse : option (list float);
  specular : option (list float);
  emissive : option (list float);
  opticalDensity : option float;
  opacity : option float;
  illum : option (option Z);
  map_Kd : option texture;
  map_Bump : option texture;
  map_Ks : option texture
}.

(** [{}] *)
Definition empty_material : Material :=
  {| shininess := None; ambient := None; diffuse := None; specular := None;
     emissive := None; opticalDensity := None; opacity := None; illum := None;
     map_Kd := None; map_Bump := None; map_Ks := None |}.

Definition set_shininess (v : float) (m : Material) : Material :=
  {| shininess := Some v; ambient := ambient m; diffuse := diffuse m;
     specular := specular m; emissive := emissive m;
     opticalDensity := opticalDensity m; opacity := opacity m; illum := illum m;
     map_Kd := map_Kd m; map_Bump := map_Bump m; map_Ks := map_Ks m |}.
Definition set_ambient (v : list float) (m : Material) : Material :=
  {| shininess := shininess m; ambient := Some v; diffuse := diffuse m;
     specular := specular m; emissive := emissive m;
     opticalDensity := opticalDensity m; opacity := opacity m; illum := illum m;
     map_Kd := map_Kd m; map_Bump := map_Bump m; map_Ks := map_Ks m |}.
Definition set_diffuse (v : list float) (m : Material) : Material :=
  {| shininess := shininess m; ambient := ambient m; diffuse := Some v;
     specular := specular m; emissive := emissive m;
     opticalDensity := opticalDensity m; opacity := opacity m; illum := illum m;
     map_Kd := map_Kd m; map_Bump := map_Bump m; map_Ks := map_Ks m |}.
Definition set_specular (v : list float) (m : Material) : Material :=
  {| shininess := shininess m; ambient := ambient m; diffuse := diffuse m;
     specular := Some v; emissive := emissive m;
     opticalDensity := opticalDensity m; opacity := opacity m; illum := illum m;
     map_Kd := map_Kd m; map_Bump := map_Bump m; map_Ks := map_Ks m |}.
Definition set_emissive (v : list float) (m : Material) : Material :=
  {| shininess := shininess m; ambient := ambient m; diffuse := diffuse m;
     specular := specular m; emissive := Some v;
     opticalDensity := opticalDensity m; opacity := opacity m; illum := illum m;
     map_Kd := map_Kd m; map_Bump := map_Bump m; map_Ks := map_Ks m |}.
Definition set_opticalDensity (v : float) (m : Material) : Material :=
  {| shininess := shininess m; ambient := ambient m; diffuse := diffuse m;
     specular := specular m; emissive := emissive m;
     opticalDensity := Some v; opacity := opacity m; illum := illum m;
     map_Kd := map_Kd m; map_Bump := map_Bump m; map_Ks := map_Ks m |}.
Definition set_opacity (v : float) (m : Material) : Material :=
  {| shininess := shininess m; ambient := ambient m; diffuse := diffuse m;
     specular := specular m; emissive := emissive m;
     opticalDensity := opticalDensity m; opacity := Some v; illum := illum m;
     map_Kd := map_Kd m; map_Bump := map_Bump m; map_Ks := map_Ks m |}.
Definition set_illum (v : option Z) (m : Material) : Material :=
  {| shininess := shininess m; ambient := ambient m; diffuse := diffuse m;
     specular := specular m; emissive := emissive m;
     opticalDensity := opticalDensity m; opacity := opacity m; illum := Some v;
     map_Kd := map_Kd m; map_Bump := map_Bump m; map_Ks := map_Ks m |}.
Definition set_map_Kd (v : texture) (m : Material) : Material :=
  {| shininess := shininess m; ambient := ambient m; diffuse := diffuse m;
     specular := specular m; emissive := emissive m;
     opticalDensity := opticalDensity m; opacity := opacity m; illum := illum m;
     map_Kd := Some v; map_Bump := map_Bump m; map_Ks := map_Ks m |}.
Definition set_map_Bump (v : texture) (m : Material) : Material :=
  {| shininess := shininess m; ambient := ambient m; diffuse := diffuse m;
     specular := specular m; emissive := emissive m;
     opticalDensity := opticalDensity m; opacity := opacity m; illum := illum m;
     map_Kd := map_Kd m; map_Bump := Some v; map_Ks := map_Ks m |}.
Definition set_map_Ks (v : texture) (m : Material) : Material :=
  {| shininess := shininess m; ambient := ambient m; diffuse := diffuse m;
     specular := specular m; emissive := emissive m;
     opticalDensity := opticalDensity m; opacity := opacity m; illum := illum m;
     map_Kd := map_Kd m; map_Bump := map_Bump m; map_Ks := Some v |}.

(** The closure state of [parseMTL]: the dictionary [materials] and the
    variable [material].

    [materials] is a plain object, and [materials[name] = material]
    stores the object under [name] as an own property, except for the
    name [__proto__]: that assignment runs the setter of
    [Object.prototype] and makes the object the prototype of the
    dictionary, without an own property.  The map holds the own
    properties under their names and, under the key [__proto__], the
    prototype that was installed, which is also what a later read of
    [materials['__proto__']] returns.

    [material] is either [undefined] or the object most recently stored;
    it is embedded as the key of that object, so that an assignment
    through [material] is an update of the map at that key. *)
Record State := {
  materials : gmap string Material;
  material : option string
}.

(** A handler either completes or throws the TypeError of an assignment
    to a property of [undefined]. *)
Inductive result (A : Type) :=
| Ok (a : A)
| TypeError.
Arguments Ok {A} a.
Arguments TypeError {A}.

(** [material.field = value] *)
Definition assign (f : Material -> Material) (st : State) : result State :=
  match material st with
  | Some k => Ok {| materials := alter f k (materials st); material := Some k |}
  | None => TypeError
  end.

(** [loadTextureFromPath(gl, parts)] *)
Definition loadTextureFromPath (parts : list string) : texture :=
  let texturePath := replace_backslashes (join " " parts) in
  let fullPath := "js/" +:+ texturePath in
  fullPath.

(** The properties that the object [keywords] inherits from
    [Object.prototype].  Looked up as a handler and called (in strict
    mode, with [this] undefined), [constructor] and [toString] return
    without effect; the others throw a TypeError ([__proto__] is not a
    function, the other methods convert [this] to an object). *)
Definition inherited_harmless : list string := ["constructor"; "toString"].

Definition inherited_throwing : list string :=
  ["__proto__"; "__defineGetter__"; "__defineSetter__"; "__lookupGetter__";
   "__lookupSetter__"; "hasOwnProperty"; "isPrototypeOf";
   "propertyIsEnumerable"; "toLocaleString"; "valueOf"].

Definition among (l : list string) (s : string) : bool :=
  existsb (String.eqb s) l.

(** The handler table [keywords]: its twelve own handlers, then the
    inherited properties. *)
Definition keywords (keyword : string)
  : option (list string -> string -> State -> result State) :=
  if String.eqb keyword "newmtl" then
    (* material = {}; materials[unparsedArgs] = material; *)
    Some (fun parts unparsedArgs st =>
            Ok {| materials := <[unparsedArgs := empty_material]> (materials st);
                  material := Some unparsedArgs |})
  else if String.eqb keyword "Ns" then
    Some (fun parts _ => assign (set_shininess (parseFloat_opt (parts !! 0%nat))))
  else if String.eqb keyword "Ka" then
    Some (fun parts _ => assign (set_ambient (map parseFloat parts)))
  else if String.eqb keyword "Kd" then
    Some (fun parts _ => assign (set_diffuse (map parseFloat parts)))
  else if String.eqb keyword "Ks" then
    Some (fun parts _ => assign (set_specular (map parseFloat parts)))
  else if String.eqb keyword "Ke" then
    Some (fun parts _ => assign (set_emissive (map parseFloat parts)))
  else if String.eqb keyword "Ni" then
    Some (fun parts _ => assign (set_opticalDensity (parseFloat_opt (parts !! 0%nat))))
  else if String.eqb keyword "d" then
    Some (fun parts _ => assign (set_opacity (parseFloat_opt (parts !! 0%nat))))
  else if String.eqb keyword "illum" then
    Some (fun parts _ =>
            assign (set_illum (match parts !! 0%nat with
                               | Some s => parseInt s
                               | None => None
                               end)))
  else if String.eqb keyword "map_Kd" then
    Some (fun parts _ => assign (set_map_Kd (loadTextureFromPath parts)))
  else if String.eqb keyword "map_Bump" then
    Some (fun parts _ => assign (set_map_Bump (loadTextureFromPath parts)))
  else if String.eqb keyword "map_Ks" then
    Some (fun parts _ => assign (set_map_Ks (loadTextureFromPath parts)))
  else if among inherited_harmless keyword then
    Some (fun _ _ st => Ok st)
  else if among inherited_throwing keyword then
    Some (fun _ _ _ => TypeError)
  else None.

(** The body of the loop over the lines. *)
Definition process_line (st : State) (line : string) : result State :=
  let line := trim line in
  if String.eqb line "" || startsWith "#" line then Ok st
  else
    let parts := split_ws line in
    match parts with
    | keyword :: args =>
        match keywords keyword with
        | Some handler => handler args (join " " args) st
        | None => Ok st
        end
    | [] => Ok st
    end.

Fixpoint process_lines (st : State) (lines : list string) : result State :=
  match lines with
  | [] => Ok st
  | line :: rest =>
      match process_line st line with
      | Ok st' => process_lines st' rest
      | TypeError => TypeError
      end
  end.

Definition parseMTL (text : string) : result (gmap string Material) :=
  match process_lines {| materials := ∅; material := None |}
                      (split_on "010"%char text) with
  | Ok st => Ok (materials st)
  | TypeError => TypeError
  end.

End MTL.

(* ===================================================================== *)
(** ** The mesh parser ([parseOBJ]) *)
(* ===================================================================== *)

Module OBJ.
Import JS.

(** A geometry section [{material, startIndex, indexCount}].  The
    material is the second word of a [usemtl] line, [undefined] ([None])
    if the line has none. *)
Record Geometry := {
  material : option string;
  startIndex : Z;
  indexCount : Z
}.

(** The variables of [parseOBJ] that its closures share. *)
Record State := {
  positions : list (list float);
  texcoords : list (list float);
  normals : list (list float);
  vertexMap : gmap string nat;
  finalPositions : list float;
  finalTexcoords : list float;
  finalNormals : list float;
  indices : list nat;
  geometries : list Geometry;
  geometry : option Geometry;
  vertexCount : nat
}.

Definition init : State :=
  {| positions := [[0; 0; 0]%float];
     texcoords := [[0; 0]%float];
     normals := [[0; 0; 0]%float];
     vertexMap := ∅;
     finalPositions := [];
     finalTexcoords := [];
     finalNormals := [];
     indices := [];
     geometries := [];
     geometry := None;
     vertexCount := 0 |}.

(** Closing the open section: its length is set, and it is pushed if it
    is not empty. *)
Definition close_geometry (st : State) : list Geometry :=
  match geometry st with
  | Some g =>
      let indexCount := Z.of_nat (length (indices st)) - startIndex g in
      if 0 <? indexCount
      then geometries st ++ [{| material := material g;
                                startIndex := startIndex g;
                                indexCount := indexCount |}]
      else geometries st
  | None => geometries st
  end.

Definition startGeometry (mat : option string) (st : State) : State :=
  {| positions := positions st; texcoords := texcoords st; normals := normals st;
     vertexMap := vertexMap st;
     finalPositions := finalPositions st; finalTexcoords := finalTexcoords st;
     finalNormals := finalNormals st;
     indices := indices st;
     geometries := close_geometry st;
     geometry := Some {| material := mat;
                         startIndex := Z.of_nat (length (indices st));
                         indexCount := 0 |};
     vertexCount := vertexCount st |}.

(** [i > 0 ? i : len + i], where [i] is a number or [undefined] ([None]);
    the result is a number or NaN ([None]). *)
Definition resolve_index (len : nat) (i : option Z) : option Z :=
  match i with
  | Some z => if 0 <? z then Some z else Some (Z.of_nat len + z)
  | None => None
  end.

(** The text of a number in a template literal. *)
Definition number_to_string (i : option Z) : string :=
  match i with
  | Some z => pretty z
  | None => "NaN"
  end.

(** [`${posIndex}/${texIndex}/${normIndex}`] *)
Definition vertex_key (posIndex texIndex normIndex : option Z) : string :=
  number_to_string posIndex +:+ "/" +:+ number_to_string texIndex
    +:+ "/" +:+ number_to_string normIndex.

(** [array[i]]: [undefined] ([None]) unless [i] is an index of the array. *)
Definition array_get {A} (l : list A) (i : option Z) : option A :=
  match i with
  | Some z => if z <? 0 then None else l !! Z.to_nat z
  | None => None
  end.

Definition addVertex (posIndex texIndex normIndex : option Z) (st : State)
  : State * nat :=
  let posIndex := resolve_index (length (positions st)) posIndex in
  let texIndex := resolve_index (length (texcoords st)) texIndex in
  let normIndex := resolve_index (length (normals st)) normIndex in
  let key := vertex_key posIndex texIndex normIndex in
  match vertexMap st !! key with
  | Some index => (st, index)
  | None =>
      let index := vertexCount st in
      let position := obj_or (array_get (positions st) posIndex) [0; 0; 0]%float in
      let texcoord := obj_or (array_get (texcoords st) texIndex) [0; 0]%float in
      let normal := obj_or (array_get (normals st) normIndex) [0; 1; 0]%float in
      ({| positions := positions st; texcoords := texcoords st;
          normals := normals st;
          vertexMap := <[key := index]> (vertexMap st);
          finalPositions := finalPositions st ++ position;
          finalTexcoords := finalTexcoords st ++ texcoord;
          finalNormals := finalNormals st ++ normal;
          indices := indices st;
          geometries := geometries st;
          geometry := geometry st;
          vertexCount := S index |}, index)
  end.

(** A face corner [{vert, tex, norm}]; a component is [undefined]
    ([None]) when the reference has fewer parts. *)
Record Corner := {
  vert : option Z;
  tex : option Z;
  norm : option Z
}.

Definition parse_corner (s : string) : Corner :=
  let xs := map (fun v => or_zero (parseInt v)) (split_on "/"%char s) in
  {| vert := xs !! 0%nat; tex := xs !! 1%nat; norm := xs !! 2%nat |}.

(** [indices.push(a, b, c)] *)
Definition push_indices (a b c : nat) (st : State) : State :=
  {| positions := positions st; texcoords := texcoords st; normals := normals st;
     vertexMap := vertexMap st;
     finalPositions := finalPositions st; finalTexcoords := finalTexcoords st;
     finalNormals := finalNormals st;
     indices := indices st ++ [a; b; c];
     geometries := geometries st;
     geometry := geometry st;
     vertexCount := vertexCount st |}.

(** One round of the triangulation loop. *)
Definition triangle (vertices : list Corner) (st : State) (i : nat) : State :=
  match vertices !! 0%nat, vertices !! i, vertices !! (i + 1)%nat with
  | Some v0, Some v1, Some v2 =>
      let '(st, a) := addVertex (vert v0) (tex v0) (norm v0) st in
      let '(st, b) := addVertex (vert v1) (tex v1) (norm v1) st in
      let '(st, c) := addVertex (vert v2) (tex v2) (norm v2) st in
      push_indices a b c st
  | _, _, _ => st
  end.

(** [for (let i = 1; i < vertices.length - 1; i++)] *)
Definition triangulate (vertices : list Corner) (st : State) : State :=
  fold_left (triangle vertices) (seq 1 (length vertices - 2)) st.

Definition push_position (p : list float) (st : State) : State :=
  {| positions := positions st ++ [p]; texcoords := texcoords st;
     normals := normals st; vertexMap := vertexMap st;
     finalPositions := finalPositions st; finalTexcoords := finalTexcoords st;
     finalNormals := finalNormals st; indices := indices st;
     geometries := geometries st; geometry := geometry st;
     vertexCount := vertexCount st |}.

Definition push_texcoord (p : list float) (st : State) : State :=
  {| positions := positions st; texcoords := texcoords st ++ [p];
     normals := normals st; vertexMap := vertexMap st;
     finalPositions := finalPositions st; finalTexcoords := finalTexcoords st;
     finalNormals := finalNormals st; indices := indices st;
     geometries := geometries st; geometry := geometry st;
     vertexCount := vertexCount st |}.

Definition push_normal (p : list float) (st : State) : State :=
  {| positions := positions st; texcoords := texcoords st;
     normals := normals st ++ [p]; vertexMap := vertexMap st;
     finalPositions := finalPositions st; finalTexcoords := finalTexcoords st;
     finalNormals := finalNormals st; indices := indices st;
     geometries := geometries st; geometry := geometry st;
     vertexCount := vertexCount st |}.

(** [parts.slice(1, 4).map(parseFloat)], given [parts.slice(1)]. *)
Definition parse_floats3 (args : list string) : list float :=
  map parseFloat (take 3 args).

(** A component of a destructured array, as a number: [undefined]
    becomes NaN in arithmetic. *)
Definition component (l : list float) (i : nat) : float := nth i l nan.

(** The normal of a [vn] line, divided by its length. *)
Definition unit_normal (xyz : list float) : list float :=
  let x := component xyz 0 in
  let y := component xyz 1 in
  let z := component xyz 2 in
  let length := PrimFloat.sqrt (x * x + y * y + z * z)%float in
  [x / length; y / length; z / length]%float.

(** The [switch] on the first word of a line; [args] is [parts.slice(1)]. *)
Definition command (cmd : string) (args : list string) (st : State) : State :=
  if String.eqb cmd "v" then
    push_position (parse_floats3 args) st
  else if String.eqb cmd "vt" then
    push_texcoord [parseFloat_opt (args !! 0%nat);
                   (1 - parseFloat_opt (args !! 1%nat))%float] st
  else if String.eqb cmd "vn" then
    push_normal (unit_normal (parse_floats3 args)) st
  else if String.eqb cmd "usemtl" then
    startGeometry (args !! 0%nat) st
  else if String.eqb cmd "f" then
    let st := match geometry st with
              | Some _ => st
              | None => startGeometry (Some "default") st
              end in
    triangulate (map parse_corner args) st
  else st.

(** The body of the loop over the lines. *)
Definition process_line (st : State) (line : string) : State :=
  let line := trim line in
  if String.eqb line "" || startsWith "#" line then st
  else
    match split_ws line with
    | cmd :: args => command cmd args st
    | [] => st
    end.

Definition process_lines (lines : list string) (st : State) : State :=
  fold_left process_line lines st.

(** The result object of [parseOBJ]. *)
Record ObjData := {
  obj_positions : list float;
  obj_texcoords : list float;
  obj_normals : list float;
  obj_indices : list nat;
  obj_geometries : list Geometry
}.

Definition finish (st : State) : ObjData :=
  {| obj_positions := finalPositions st;
     obj_texcoords := finalTexcoords st;
     obj_normals := finalNormals st;
     obj_indices := indices st;
     obj_geometries := close_geometry st |}.

Definition parseOBJ (text : string) : ObjData :=
  finish (process_lines (split_on "010"%char text) init).

End OBJ.

(* ===================================================================== *)
(** ** The material resolver ([createGeometryWithMaterials]) *)
(* ===================================================================== *)

Module Loader.
Import JS.

(** An element of [meshes]. *)
Record Mesh := {
  material : MTL.Material;
  startIndex : Z;
  indexCount : Z
}.

Record Model := {
  positions : list float;
  texcoords : list float;
  normals : list float;
  indices : list Z;
  meshes : list Mesh
}.

(** The property key of [materials[geom.material]]: the name, or the
    text of [undefined]. *)
Definition property_key (name : option string) : string :=
  match name with Some s => s | None => "undefined" end.

(** [x || 2] for the [illum] property. *)
Definition illum_or (x : option (option Z)) (d : Z) : Z :=
  match x with
  | Some (Some z) => if z =? 0 then d else z
  | Some None | None => d
  end.

(** The object literal [{...m, shininess: m?.shininess || 32.0, ...}],
    where [m] is [materials[geom.material]]: the spread copies every
    property of [m] (none if [m] is [undefined]), then six properties are
    written. *)
Definition resolve_material (m : option MTL.Material) : MTL.Material :=
  let spread := obj_or m MTL.empty_material in
  {| MTL.shininess := Some (num_or (m ≫= MTL.shininess) 32.0%float);
     MTL.ambient := Some (obj_or (m ≫= MTL.ambient) [1.0; 1.0; 1.0]%float);
     MTL.diffuse := Some (obj_or (m ≫= MTL.diffuse) [0.64; 0.64; 0.64]%float);
     MTL.specular := Some (obj_or (m ≫= MTL.specular) [0.2; 0.2; 0.2]%float);
     MTL.emissive := MTL.emissive spread;
     MTL.opticalDensity := MTL.opticalDensity spread;
     MTL.opacity := Some (num_or (m ≫= MTL.opacity) 1.0%float);
     MTL.illum := Some (Some (illum_or (m ≫= MTL.illum) 2));
     MTL.map_Kd := MTL.map_Kd spread;
     MTL.map_Bump := MTL.map_Bump spread;
     MTL.map_Ks := MTL.map_Ks spread |}.

(** [materials[geom.material]] reads the map of the dictionary.  A name
    without an entry may still find an inherited value (a method of
    [Object.prototype], or a property value of a prototype installed
    under [__proto__]: a number, an array or a texture); such a value
    has none of the six properties and the spread copies no property of
    a material from it, so the mesh gets what it gets for [undefined]. *)
Definition resolve_mesh (materials : gmap string MTL.Material) (geom : OBJ.Geometry)
  : Mesh :=
  {| material := resolve_material (materials !! property_key (OBJ.material geom));
     startIndex := OBJ.startIndex geom;
     indexCount := OBJ.indexCount geom |}.

(** The conversion of a Number to an element of a [Float32Array]: the
    nearest binary32 value. *)
Definition fround (x : float) : float :=
  match Prim2SF x with
  | S754_finite s m e => SF2Prim (binary_round 24 128 s m e)
  | _ => x
  end.

(** The conversion of an index to an element of a [Uint16Array]. *)
Definition to_uint16 (n : nat) : Z := Z.of_nat n mod 65536.

Definition createGeometryWithMaterials
    (objData : OBJ.ObjData) (materials : gmap string MTL.Material) : Model :=
  {| positions := map fround (OBJ.obj_positions objData);
     texcoords := map fround (OBJ.obj_texcoords objData);
     normals := map fround (OBJ.obj_normals objData);
     indices := map to_uint16 (OBJ.obj_indices objData);
     meshes := map (resolve_mesh materials) (OBJ.obj_geometries objData) |}.

End Loader.

(* ===================================================================== *)
(** ** The vector library and the transcendental functions *)
(* ===================================================================== *)

(** The matrix and vector library of the page ([mat4], [mult], [translate],
    [rotate], [perspective], [normalize], [radians]) and [Math.sin] and
    [Math.cos] are not part of the repository: the camera and the render
    loop are embedded over any implementation of them. *)
Class MVlib := {
  mat : Type;
  mat4 : mat;
  mult : mat -> mat -> mat;
  translate : float -> float -> float -> mat;
  rotate : float -> list float -> mat;
  perspective : float -> float -> float -> float -> mat;
  normalize : list float -> list float;
  radians : float -> float;
  Math_sin : float -> float;
  Math_cos : float -> float
}.

(* ===================================================================== *)
(** ** The camera ([class Camera]) *)
(* ===================================================================== *)

Module Camera.
Import JS.

Record Camera := {
  rotationX : float;
  rotationY : float;
  distance : float;
  positionX : float;
  positionY : float;
  ROTATION_SENSITIVITY : float;
  ZOOM_SENSITIVITY : float;
  PAN_SENSITIVITY : float;
  MAX_DISTANCE : float;
  MIN_DISTANCE : float;
  isPointerLocked : bool
}.

Definition constructor : Camera :=
  {| rotationX := 0; rotationY := 0; distance := 50;
     positionX := 0; positionY := 0;
     ROTATION_SENSITIVITY := 0.2; ZOOM_SENSITIVITY := 0.1;
     PAN_SENSITIVITY := 0.05;
     MAX_DISTANCE := 10000; MIN_DISTANCE := 0;
     isPointerLocked := false |}%float.

(** The properties of a [MouseEvent] that the handler reads. *)
Record MouseEvent := {
  buttons : Z;
  movementX : float;
  movementY : float
}.

(** The [mousemove] listener. *)
Definition mousemove (e : MouseEvent) (c : Camera) : Camera :=
  if negb (isPointerLocked c) then c
  else if buttons e =? 1 then
    let rotationY' := (rotationY c + movementX e * ROTATION_SENSITIVITY c)%float in
    let rotationX' := (rotationX c + movementY e * ROTATION_SENSITIVITY c)%float in
    {| rotationX := Math_max (-89)%float (Math_min 89%float rotationX');
       rotationY := rotationY';
       distance := distance c;
       positionX := positionX c; positionY := positionY c;
       ROTATION_SENSITIVITY := ROTATION_SENSITIVITY c;
       ZOOM_SENSITIVITY := ZOOM_SENSITIVITY c;
       PAN_SENSITIVITY := PAN_SENSITIVITY c;
       MAX_DISTANCE := MAX_DISTANCE c; MIN_DISTANCE := MIN_DISTANCE c;
       isPointerLocked := isPointerLocked c |}
  else if buttons e =? 4 then
    let distance' := (distance c + movementY e * ZOOM_SENSITIVITY c)%float in
    {| rotationX := rotationX c; rotationY := rotationY c;
       distance := Math_max (MIN_DISTANCE c) (Math_min (MAX_DISTANCE c) distance');
       positionX := positionX c; positionY := positionY c;
       ROTATION_SENSITIVITY := ROTATION_SENSITIVITY c;
       ZOOM_SENSITIVITY := ZOOM_SENSITIVITY c;
       PAN_SENSITIVITY := PAN_SENSITIVITY c;
       MAX_DISTANCE := MAX_DISTANCE c; MIN_DISTANCE := MIN_DISTANCE c;
       isPointerLocked := isPointerLocked c |}
  else if buttons e =? 2 then
    {| rotationX := rotationX c; rotationY := rotationY c;
       distance := distance c;
       positionX := (positionX c - movementX e * PAN_SENSITIVITY c)%float;
       positionY := (positionY c + movementY e * PAN_SENSITIVITY c)%float;
       ROTATION_SENSITIVITY := ROTATION_SENSITIVITY c;
       ZOOM_SENSITIVITY := ZOOM_SENSITIVITY c;
       PAN_SENSITIVITY := PAN_SENSITIVITY c;
       MAX_DISTANCE := MAX_DISTANCE c; MIN_DISTANCE := MIN_DISTANCE c;
       isPointerLocked := isPointerLocked c |}
  else c.

(** The [pointerlockchange] listener; [locked] is the outcome of
    [document.pointerLockElement === canvas]. *)
Definition pointerlockchange (locked : bool) (c : Camera) : Camera :=
  {| rotationX := rotationX c; rotationY := rotationY c;
     distance := distance c;
     positionX := positionX c; positionY := positionY c;
     ROTATION_SENSITIVITY := ROTATION_SENSITIVITY c;
     ZOOM_SENSITIVITY := ZOOM_SENSITIVITY c;
     PAN_SENSITIVITY := PAN_SENSITIVITY c;
     MAX_DISTANCE := MAX_DISTANCE c; MIN_DISTANCE := MIN_DISTANCE c;
     isPointerLocked := locked |}.

Section Methods.
Context `{MV : MVlib}.

Definition update (c : Camera) : mat :=
  let matrix := mat4 in
  let matrix := mult matrix (translate 0 0 (- distance c)%float) in
  let matrix := mult matrix (translate (positionX c) (positionY c) 0) in
  let matrix := mult matrix (rotate (rotationX c) [1; 0; 0]%float) in
  let matrix := mult matrix (rotate (rotationY c) [0; 1; 0]%float) in
  matrix.

Definition getEye (c : Camera) : list float :=
  let distance := distance c in
  let rotX := radians (rotationX c) in
  let rotY := radians (rotationY c) in
  let x := (distance * Math_sin rotY + positionX c)%float in
  let y := (distance * Math_sin rotX + positionY c)%float in
  let z := (distance * Math_cos rotY)%float in
  [x; y; z].
End Methods.

(** Everything that is done with a camera: the four listeners that
    [initControls] installs, and the two methods, which only read. *)
Inductive operation :=
| Mousedown
| Pointerlockchange (locked : bool)
| Mousemove (e : MouseEvent)
| Contextmenu
| Update
| GetEye.

Definition step (c : Camera) (o : operation) : Camera :=
  match o with
  | Mousedown => c
  | Pointerlockchange locked => pointerlockchange locked c
  | Mousemove e => mousemove e c
  | Contextmenu => c
  | Update => c
  | GetEye => c
  end.

Definition run (ops : list operation) : Camera := fold_left step ops constructor.

End Camera.

(* ===================================================================== *)
(** ** The fragment shader ([fragmentShaderSource]) *)
(* ===================================================================== *)

(** A GLSL [float] (the shader declares [precision highp float]) is
    embedded as an IEEE 754 binary32 value: a [spec_float] of precision 24
    and exponent bound 128.  The operators [+], [-], [*] and [/] round to
    nearest, ties to even, and make and propagate infinities and NaN as
    IEEE 754 prescribes; a literal is the binary32 value nearest to its
    decimal.  [max], [min], [clamp], [mix] and [dot] are the expressions
    that the GLSL specification gives for them.  The built-in functions
    [pow] and [normalize], whose results GLSL leaves to the implementation,
    are parameters of the embedding, and so are the textures. *)
Module Shader.

Definition float32 : Type := spec_float.

Definition add : float32 -> float32 -> float32 := SFadd 24 128.
Definition sub : float32 -> float32 -> float32 := SFsub 24 128.
Definition mul : float32 -> float32 -> float32 := SFmul 24 128.
Definition div : float32 -> float32 -> float32 := SFdiv 24 128.
Definition neg : float32 -> float32 := SFopp.
Definition lt : float32 -> float32 -> bool := SFltb.

(** The literal with the digits [m] and the decimal exponent [e]: the
    binary32 value nearest to [m * 10^e] ([m] is not negative). *)
Definition literal (m e : Z) : float32 :=
  if m =? 0 then S754_zero false
  else if 0 <=? e then binary_normalize 24 128 (m * 10 ^ e) 0 false
  else
    let '(q, e', l) := SFdiv_core_binary 24 128 m 0 (10 ^ (- e)) 0 in
    binary_round_aux 24 128 false q e' l.

Record vec2 := { u : float32; v : float32 }.
Record vec3 := { x : float32; y : float32; z : float32 }.
Record vec4 := { rgb : vec3; a : float32 }.

(** [vec3(s)] *)
Definition splat (s : float32) : vec3 := {| x := s; y := s; z := s |}.
Definition vadd (p q : vec3) : vec3 :=
  {| x := add (x p) (x q); y := add (y p) (y q); z := add (z p) (z q) |}.
Definition vsub (p q : vec3) : vec3 :=
  {| x := sub (x p) (x q); y := sub (y p) (y q); z := sub (z p) (z q) |}.
Definition vmul (p q : vec3) : vec3 :=
  {| x := mul (x p) (x q); y := mul (y p) (y q); z := mul (z p) (z q) |}.
Definition vneg (p : vec3) : vec3 := {| x := neg (x p); y := neg (y p); z := neg (z p) |}.
(** vector times scalar, scalar times vector, vector divided by scalar *)
Definition scale (p : vec3) (s : float32) : vec3 :=
  {| x := mul (x p) s; y := mul (y p) s; z := mul (z p) s |}.
Definition scaled (s : float32) (p : vec3) : vec3 :=
  {| x := mul s (x p); y := mul s (y p); z := mul s (z p) |}.
Definition vdiv (p : vec3) (s : float32) : vec3 :=
  {| x := div (x p) s; y := div (y p) s; z := div (z p) s |}.

(** [max(x, y)]: [y] if [x < y], otherwise [x];
    [min(x, y)]: [y] if [y < x], otherwise [x]. *)
Definition max (x y : float32) : float32 := if lt x y then y else x.
Definition min (x y : float32) : float32 := if lt y x then y else x.
(** [clamp(x, minVal, maxVal)] is [min(max(x, minVal), maxVal)]. *)
Definition clamp (t lo hi : float32) : float32 := min (max t lo) hi.
(** [dot(p, q)] is [p.x * q.x + p.y * q.y + p.z * q.z]. *)
Definition dot (p q : vec3) : float32 :=
  add (add (mul (x p) (x q)) (mul (y p) (y q))) (mul (z p) (z q)).
(** [mix(p, q, t)], with a scalar weight, is [p * (1 - t) + q * t]. *)
Definition mix (p q : vec3) (t : float32) : vec3 :=
  vadd (scale p (sub (literal 1 0) t)) (scale q t).

(** [const float PI = 3.14159265359;] *)
Definition PI : float32 := literal 314159265359 (-11).

(** The built-in functions that are taken as they come. *)
Class Builtins := {
  pow : float32 -> float32 -> float32;
  normalize : vec3 -> vec3
}.

(** The inputs of one fragment: the varyings, the uniforms, and the
    textures bound to the samplers. *)
Record Fragment := {
  vTexCoord : vec2;
  vNormal : vec3;
  vWorldPos : vec3;
  uCameraPos : vec3;
  uLightDir : vec3;
  uLightColor : vec3;
  uLightIntensity : float32;
  uAmbientColor : vec3;
  uAmbientIntensity : float32;
  uAlbedoMap : vec2 -> vec4;
  uNormalMap : vec2 -> vec4;
  uMetallicMap : vec2 -> vec4;
  uRoughnessMap : vec2 -> vec4;
  uAOMap : vec2 -> vec4;
  uSpecularMap : vec2 -> vec4;
  uShininess : float32;
  uUseSpecular : bool
}.

(** The local variables of [main] that the properties speak about
    ([diffuse] is the term [kD * albedo / PI]), and its output. *)
Record Locals := {
  albedo : vec3;
  metallic : float32;
  F : vec3;
  specular : vec3;
  kS : vec3;
  kD : vec3;
  diffuse : vec3;
  radiance : vec3;
  NdotL : float32;
  Lo : vec3;
  ambient : vec3;
  fragColor : vec4
}.

Section WithBuiltins.
Context `{B : Builtins}.

Definition vpow (p e : vec3) : vec3 :=
  {| x := pow (x p) (x e); y := pow (y p) (y e); z := pow (z p) (z e) |}.

Definition DistributionGGX (N H : vec3) (roughness : float32) : float32 :=
  let a := mul roughness roughness in
  let a2 := mul a a in
  let NdotH := max (dot N H) (literal 0 0) in
  let NdotH2 := mul NdotH NdotH in
  let nom := a2 in
  let denom := add (mul NdotH2 (sub a2 (literal 1 0))) (literal 1 0) in
  let denom := mul (mul PI denom) denom in
  div nom denom.

Definition GeometrySchlickGGX (NdotV roughness : float32) : float32 :=
  let r := add roughness (literal 1 0) in
  let k := div (mul r r) (literal 8 0) in
  let nom := NdotV in
  let denom := add (mul NdotV (sub (literal 1 0) k)) k in
  div nom denom.

Definition GeometrySmith (N V L : vec3) (roughness : float32) : float32 :=
  let NdotV := max (dot N V) (literal 0 0) in
  let NdotL := max (dot N L) (literal 0 0) in
  let ggx2 := GeometrySchlickGGX NdotV roughness in
  let ggx1 := GeometrySchlickGGX NdotL roughness in
  mul ggx1 ggx2.

Definition fresnelSchlick (cosTheta : float32) (F0 : vec3) : vec3 :=
  vadd F0
       (scale (vsub (splat (literal 1 0)) F0)
              (pow (clamp (sub (literal 1 0) cosTheta) (literal 0 0) (literal 1 0))
                   (literal 5 0))).

Definition main (f : Fragment) : Locals :=
  let albedo := rgb (uAlbedoMap f (vTexCoord f)) in
  let metallic := x (rgb (uMetallicMap f (vTexCoord f))) in
  let roughness := x (rgb (uRoughnessMap f (vTexCoord f))) in
  let ao := x (rgb (uAOMap f (vTexCoord f))) in
  let specularColor := rgb (uSpecularMap f (vTexCoord f)) in
  let N := normalize (vNormal f) in
  let normalMap :=
    vsub (scale (rgb (uNormalMap f (vTexCoord f))) (literal 2 0)) (splat (literal 1 0)) in
  let N := normalize (vadd N normalMap) in
  let V := normalize (vsub (uCameraPos f) (vWorldPos f)) in
  let L := normalize (vneg (uLightDir f)) in
  let H := normalize (vadd V L) in
  let F0 := splat (literal 4 (-2)) in
  let F0 := mix F0 albedo metallic in
  let radiance := scale (uLightColor f) (uLightIntensity f) in
  let NDF := DistributionGGX N H roughness in
  let G := GeometrySmith N V L roughness in
  let F := fresnelSchlick (max (dot H V) (literal 0 0)) F0 in
  let numerator := scaled (mul NDF G) F in
  let denominator :=
    add (mul (mul (literal 4 0) (max (dot N V) (literal 0 0)))
             (max (dot N L) (literal 0 0)))
        (literal 1 (-4)) in
  let specular := vdiv numerator denominator in
  let kS := F in
  let kD := vsub (splat (literal 1 0)) kS in
  let kD := scale kD (sub (literal 1 0) metallic) in
  let NdotL := max (dot N L) (literal 0 0) in
  let spec := pow (max (dot N H) (literal 0 0)) (uShininess f) in
  let specularHighlight := scale specularColor spec in
  let diffuse := vdiv (vmul kD albedo) PI in
  let Lo := scale (vmul (vadd diffuse specular) radiance) NdotL in
  let ambient :=
    scale (vmul (scale (uAmbientColor f) (uAmbientIntensity f)) albedo) ao in
  let color :=
    if uUseSpecular f
    then vadd (vadd ambient Lo) (scale specularHighlight (literal 15 (-2)))
    else vadd ambient Lo in
  let color := vpow color (splat (div (literal 19 (-1)) (literal 22 (-1)))) in
  {| albedo := albedo; metallic := metallic; F := F; specular := specular;
     kS := kS; kD := kD; diffuse := diffuse; radiance := radiance;
     NdotL := NdotL; Lo := Lo; ambient := ambient;
     fragColor := {| rgb := color; a := literal 1 0 |} |}.

End WithBuiltins.

End Shader.

(* ===================================================================== *)
(** ** The render loop ([main], [render], [drawPlant]) *)
(* ===================================================================== *)

Module Scene.
Import JS.

(** The buffers that [main] and [initPlantBuffers] create. *)
Inductive buffer :=
| positionBuffer | texCoordBuffer | normalBuffer | indexBuffer
| plant_positionBuffer | plant_texcoordBuffer | plant_normalBuffer
| plant_indexBuffer.

Record Config := {
  fieldOfView : float;
  zNear : float;
  zFar : float;
  lightColor : list float;
  lightIntensity : float;
  lightRotationSpeed : float;
  lightHeight : float;
  lightRadius : float;
  ambientColor : list float;
  ambientIntensity : float;
  worldRotationSpeed : float
}.

Definition CONFIG : Config :=
  {| fieldOfView := 60;
     zNear := 1;
     zFar := 200.0;
     lightColor := [1.0; 0.95; 0.8];
     lightIntensity := 3.2;
     lightRotationSpeed := 0.0015;
     lightHeight := 5.0;
     lightRadius := 2.0;
     ambientColor := [0.2; 0.3; 0.2];
     ambientIntensity := 0.05;
     worldRotationSpeed := 0.05 |}%float.

Definition radius : float := 15%float.
Definition latitudeBands : nat := 30.
Definition longitudeBands : nat := 30.

(** The index loop of [createSphereGeometry]. *)
Definition sphere_indices : list nat :=
  flat_map (fun lat =>
    flat_map (fun long =>
      let first := (lat * (longitudeBands + 1) + long)%nat in
      let second := (first + longitudeBands + 1)%nat in
      [first; second; (first + 1)%nat; second; (second + 1)%nat; (first + 1)%nat])
      (seq 0 longitudeBands))
    (seq 0 latitudeBands).

(** [loadSceneTextures], in the order of its properties. *)
Definition textures : list (string * MTL.texture) :=
  [("albedo", "js/textures/sand-dunes1_albedo.png");
   ("normal", "js/textures/sand-dunes1_normal-dx.png");
   ("metallic", "js/textures/sand-dunes1_metallic.png");
   ("roughness", "js/textures/sand-dunes1_roughness.png");
   ("ao", "js/textures/sand-dunes1_ao.png")].

(** [programInfo.uniformLocations]: the location of a uniform is known by
    the name of the uniform; a property that the object does not have is
    [undefined] ([None]). *)
Definition uniformLocations (property : string) : option string :=
  if String.eqb property "projection" then Some "uProjection"
  else if String.eqb property "view" then Some "uView"
  else if String.eqb property "world" then Some "uWorld"
  else if String.eqb property "albedoMap" then Some "uAlbedoMap"
  else if String.eqb property "normalMap" then Some "uNormalMap"
  else if String.eqb property "metallicMap" then Some "uMetallicMap"
  else if String.eqb property "roughnessMap" then Some "uRoughnessMap"
  else if String.eqb property "aoMap" then Some "uAOMap"
  else if String.eqb property "specularMap" then Some "uSpecularMap"
  else if String.eqb property "shininess" then Some "uShininess"
  else if String.eqb property "cameraPos" then Some "uCameraPos"
  else if String.eqb property "lightDir" then Some "uLightDir"
  else if String.eqb property "lightColor" then Some "uLightColor"
  else if String.eqb property "lightIntensity" then Some "uLightIntensity"
  else if String.eqb property "ambientColor" then Some "uAmbientColor"
  else if String.eqb property "ambientIntensity" then Some "uAmbientIntensity"
  else if String.eqb property "useSpecular" then Some "uUseSpecular"
  else None.

(** [programInfo.attribLocations] *)
Inductive attribute := aPosition | aTexCoord | aNormal.

(** The plant model that [initPlantBuffers] returns: the meshes of the
    loaded model; its buffers are the four plant buffers. *)
Record PlantModel := {
  meshes : list Loader.Mesh
}.

Definition initPlantBuffers (model : Loader.Model) : PlantModel :=
  {| meshes := Loader.meshes model |}.

Section WithMV.
Context `{MV : MVlib}.

Inductive uniform_value :=
| Uniform1i (n : Z)
| Uniform1f (x : float)
| Uniform3f (x y z : float)
| UniformMatrix4fv (m : mat).

(** A call of [gl.drawElements] with the state it is issued in. *)
Record DrawCall := {
  count : Z;
  offset : Z;
  draw_elements : option buffer;
  draw_uniforms : gmap string uniform_value;
  draw_textures : gmap Z (option MTL.texture)
}.

(** The part of the WebGL state that the render loop writes, and the
    draw calls issued so far. *)
Record GL := {
  canvas_width : Z;
  canvas_height : Z;
  viewport : Z * Z * Z * Z;
  uniforms : gmap string uniform_value;
  active_texture : Z;
  texture_units : gmap Z (option MTL.texture);
  array_buffer : option buffer;
  element_array_buffer : option buffer;
  attrib_pointers : list (attribute * (option buffer * Z));
  draws : list DrawCall
}.

Definition set_uniforms (us : gmap string uniform_value) (gl : GL) : GL :=
  {| canvas_width := canvas_width gl; canvas_height := canvas_height gl;
     viewport := viewport gl; uniforms := us;
     active_texture := active_texture gl; texture_units := texture_units gl;
     array_buffer := array_buffer gl;
     element_array_buffer := element_array_buffer gl;
     attrib_pointers := attrib_pointers gl; draws := draws gl |}.

(** [gl.uniform*(location, value)]: ignored when the location is not
    one. *)
Definition uniform (location : option string) (v : uniform_value) (gl : GL) : GL :=
  match location with
  | Some name => set_uniforms (<[name := v]> (uniforms gl)) gl
  | None => gl
  end.

(** [gl.uniform3f(location, ...color)] *)
Definition uniform3f_spread (location : option string) (color : list float) (gl : GL) : GL :=
  uniform location
    (Uniform3f (nth 0 color nan) (nth 1 color nan) (nth 2 color nan)) gl.

Definition activeTexture (unit : Z) (gl : GL) : GL :=
  {| canvas_width := canvas_width gl; canvas_height := canvas_height gl;
     viewport := viewport gl; uniforms := uniforms gl;
     active_texture := unit; texture_units := texture_units gl;
     array_buffer := array_buffer gl;
     element_array_buffer := element_array_buffer gl;
     attrib_pointers := attrib_pointers gl; draws := draws gl |}.

(** [gl.bindTexture(gl.TEXTURE_2D, texture)] *)
Definition bindTexture (t : option MTL.texture) (gl : GL) : GL :=
  {| canvas_width := canvas_width gl; canvas_height := canvas_height gl;
     viewport := viewport gl; uniforms := uniforms gl;
     active_texture := active_texture gl;
     texture_units := <[active_texture gl := t]> (texture_units gl);
     array_buffer := array_buffer gl;
     element_array_buffer := element_array_buffer gl;
     attrib_pointers := attrib_pointers gl; draws := draws gl |}.

(** [gl.bindBuffer(gl.ARRAY_BUFFER, b)] *)
Definition bindArrayBuffer (b : buffer) (gl : GL) : GL :=
  {| canvas_width := canvas_width gl; canvas_height := canvas_height gl;
     viewport := viewport gl; uniforms := uniforms gl;
     active_texture := active_texture gl; texture_units := texture_units gl;
     array_buffer := Some b;
     element_array_buffer := element_array_buffer gl;
     attrib_pointers := attrib_pointers gl; draws := draws gl |}.

(** [gl.bindBuffer(gl.ELEMENT_ARRAY_BUFFER, b)] *)
Definition bindElementArrayBuffer (b : buffer) (gl : GL) : GL :=
  {| canvas_width := canvas_width gl; canvas_height := canvas_height gl;
     viewport := viewport gl; uniforms := uniforms gl;
     active_texture := active_texture gl; texture_units := texture_units gl;
     array_buffer := array_buffer gl;
     element_array_buffer := Some b;
     attrib_pointers := attrib_pointers gl; draws := draws gl |}.

(** [gl.vertexAttribPointer(attr, size, gl.FLOAT, false, 0, 0)] *)
Definition vertexAttribPointer (attr : attribute) (size : Z) (gl : GL) : GL :=
  {| canvas_width := canvas_width gl; canvas_height := canvas_height gl;
     viewport := viewport gl; uniforms := uniforms gl;
     active_texture := active_texture gl; texture_units := texture_units gl;
     array_buffer := array_buffer gl;
     element_array_buffer := element_array_buffer gl;
     attrib_pointers := (attr, (array_buffer gl, size)) :: attrib_pointers gl;
     draws := draws gl |}.

(** [gl.drawElements(gl.TRIANGLES, count, gl.UNSIGNED_SHORT, offset)] *)
Definition drawElements (count offset : Z) (gl : GL) : GL :=
  {| canvas_width := canvas_width gl; canvas_height := canvas_height gl;
     viewport := viewport gl; uniforms := uniforms gl;
     active_texture := active_texture gl; texture_units := texture_units gl;
     array_buffer := array_buffer gl;
     element_array_buffer := element_array_buffer gl;
     attrib_pointers := attrib_pointers gl;
     draws := draws gl ++ [{| count := count; offset := offset;
                              draw_elements := element_array_buffer gl;
                              draw_uniforms := uniforms gl;
                              draw_textures := texture_units gl |}] |}.

(** The canvas follows its displayed size. *)
Definition resize (displayWidth displayHeight : Z) (gl : GL) : GL :=
  if negb (canvas_width gl =? displayWidth) || negb (canvas_height gl =? displayHeight)
  then {| canvas_width := displayWidth; canvas_height := displayHeight;
          viewport := (0, 0, displayWidth, displayHeight);
          uniforms := uniforms gl;
          active_texture := active_texture gl; texture_units := texture_units gl;
          array_buffer := array_buffer gl;
          element_array_buffer := element_array_buffer gl;
          attrib_pointers := attrib_pointers gl; draws := draws gl |}
  else gl.

Definition setupAttributes (gl : GL) : GL :=
  let gl := bindArrayBuffer positionBuffer gl in
  let gl := vertexAttribPointer aPosition 3 gl in
  let gl := bindArrayBuffer texCoordBuffer gl in
  let gl := vertexAttribPointer aTexCoord 2 gl in
  let gl := bindArrayBuffer normalBuffer gl in
  let gl := vertexAttribPointer aNormal 3 gl in
  gl.

Definition updateUniforms (time : float) (camera : Camera.Camera)
    (projectionMatrix viewMatrix worldMatrix : mat) (gl : GL) : GL :=
  let gl := uniform (uniformLocations "projection") (UniformMatrix4fv projectionMatrix) gl in
  let gl := uniform (uniformLocations "view") (UniformMatrix4fv viewMatrix) gl in
  let gl := uniform (uniformLocations "world") (UniformMatrix4fv worldMatrix) gl in
  let gl := uniform (uniformLocations "metallic") (Uniform1f 0.0) gl in
  let gl := uniform (uniformLocations "roughness") (Uniform1f 0.5) gl in
  let cameraPos := Camera.getEye camera in
  let gl := uniform3f_spread (uniformLocations "cameraPos") cameraPos gl in
  let lightAngle := (time * lightRotationSpeed CONFIG)%float in
  let x := (lightRadius CONFIG * Math_sin lightAngle)%float in
  let y := lightHeight CONFIG in
  let z := (lightRadius CONFIG * Math_cos lightAngle)%float in
  let lightDir := normalize [- x; - y; - z]%float in
  let gl := uniform3f_spread (uniformLocations "lightDir") lightDir gl in
  let gl := uniform3f_spread (uniformLocations "lightColor") (lightColor CONFIG) gl in
  let gl := uniform (uniformLocations "lightIntensity") (Uniform1f (lightIntensity CONFIG)) gl in
  let gl := uniform3f_spread (uniformLocations "ambientColor") (ambientColor CONFIG) gl in
  let gl := uniform (uniformLocations "ambientIntensity") (Uniform1f (ambientIntensity CONFIG)) gl in
  gl.

(** The texture unit of each scene texture. *)
Definition textureUnits (name : string) : Z :=
  if String.eqb name "albedo" then 0
  else if String.eqb name "normal" then 1
  else if String.eqb name "metallic" then 2
  else if String.eqb name "roughness" then 3
  else 4.

(** The callback of the [forEach] over the entries of [textures]. *)
Definition bindSceneTexture (gl : GL) (entry : string * MTL.texture) : GL :=
  let '(name, texture) := entry in
  let gl := activeTexture (textureUnits name) gl in
  let gl := bindTexture (Some texture) gl in
  uniform (uniformLocations (name +:+ "Map")) (Uniform1i (textureUnits name)) gl.

Definition bindTextures (gl : GL) : GL :=
  fold_left bindSceneTexture textures gl.

Definition setupPlantMaterial (mesh : Loader.Mesh) (gl : GL) : GL :=
  let material := Loader.material mesh in
  let gl := activeTexture 0 gl in
  let gl := bindTexture (MTL.map_Kd material) gl in
  let gl := uniform (uniformLocations "albedoMap") (Uniform1i 0) gl in
  let gl := activeTexture 1 gl in
  let gl := bindTexture (MTL.map_Bump material) gl in
  let gl := uniform (uniformLocations "normalMap") (Uniform1i 1) gl in
  let gl := activeTexture 5 gl in
  let gl := bindTexture (match MTL.map_Ks material with
                         | Some t => Some t
                         | None => MTL.map_Kd material
                         end) gl in
  let gl := uniform (uniformLocations "specularMap") (Uniform1i 5) gl in
  let gl := uniform (uniformLocations "metallic") (Uniform1f 0.0) gl in
  let gl := uniform (uniformLocations "roughness") (Uniform1f 0.85) gl in
  let gl := uniform (uniformLocations "shininess")
                    (Uniform1f (num_or (MTL.shininess material) 32.0)) gl in
  let gl := uniform (uniformLocations "lightColor") (Uniform3f 0.4 0.5 0.3) gl in
  let gl := uniform (uniformLocations "lightIntensity") (Uniform1f 2.2) gl in
  let gl := uniform (uniformLocations "ambientColor") (Uniform3f 0.15 0.2 0.15) gl in
  let gl := uniform (uniformLocations "ambientIntensity") (Uniform1f 0.05) gl in
  gl.

(** The body of the loop over [plantModel.meshes].  The material of a
    mesh is an object, so the test [if (mesh.material)] succeeds. *)
Definition drawMesh (gl : GL) (mesh : Loader.Mesh) : GL :=
  let gl := setupPlantMaterial mesh gl in
  drawElements (Loader.indexCount mesh) (Loader.startIndex mesh * 2) gl.

Definition restoreLighting (gl : GL) : GL :=
  let gl := uniform3f_spread (uniformLocations "lightColor") (lightColor CONFIG) gl in
  let gl := uniform (uniformLocations "lightIntensity") (Uniform1f (lightIntensity CONFIG)) gl in
  let gl := uniform3f_spread (uniformLocations "ambientColor") (ambientColor CONFIG) gl in
  let gl := uniform (uniformLocations "ambientIntensity") (Uniform1f (ambientIntensity CONFIG)) gl in
  gl.

Definition drawPlant (plantModel : PlantModel) (worldMatrix : mat) (gl : GL) : GL :=
  let gl := uniform (uniformLocations "useSpecular") (Uniform1i 1) gl in
  let plantWorldMatrix := mult worldMatrix (translate 0 radius 0) in
  let gl := uniform (uniformLocations "world") (UniformMatrix4fv plantWorldMatrix) gl in
  let gl := bindArrayBuffer plant_positionBuffer gl in
  let gl := vertexAttribPointer aPosition 3 gl in
  let gl := bindArrayBuffer plant_texcoordBuffer gl in
  let gl := vertexAttribPointer aTexCoord 2 gl in
  let gl := bindArrayBuffer plant_normalBuffer gl in
  let gl := vertexAttribPointer aNormal 3 gl in
  let gl := bindElementArrayBuffer plant_indexBuffer gl in
  let gl := fold_left drawMesh (meshes plantModel) gl in
  restoreLighting gl.

(** What one call of [render] reads from outside: the time stamp, the
    displayed size of the canvas, the camera, and the plant model
    ([null] until it is loaded). *)
Record Frame := {
  time : float;
  clientWidth : Z;
  clientHeight : Z;
  camera : Camera.Camera;
  plantModel : option PlantModel
}.

(** An integer as a Number. *)
Definition of_int (n : Z) : float := SF2Prim (binary_normalize prec emax n 0 false).

Definition drawSphere (gl : GL) : GL :=
  let gl := uniform (uniformLocations "useSpecular") (Uniform1i 0) gl in
  let gl := bindElementArrayBuffer indexBuffer gl in
  drawElements (Z.of_nat (length sphere_indices)) 0 gl.

Definition render (gl : GL) (f : Frame) : GL :=
  let gl := resize (clientWidth f) (clientHeight f) gl in
  let aspect := (of_int (canvas_width gl) / of_int (canvas_height gl))%float in
  let rotationAngle := (time f * worldRotationSpeed CONFIG)%float in
  let projectionMatrix :=
    perspective (fieldOfView CONFIG) aspect (zNear CONFIG) (zFar CONFIG) in
  let viewMatrix := Camera.update (camera f) in
  let worldMatrix := rotate rotationAngle [0; 1; 0]%float in
  let gl := setupAttributes gl in
  let gl := updateUniforms (time f) (camera f) projectionMatrix viewMatrix worldMatrix gl in
  let gl := bindTextures gl in
  let gl := drawSphere gl in
  match plantModel f with
  | Some plant => drawPlant plant worldMatrix gl
  | None => gl
  end.

(** The frames that [requestAnimationFrame] schedules one after another. *)
Definition run (frames : list Frame) (gl : GL) : GL := fold_left render frames gl.

End WithMV.
End Scene.

(* ===================================================================== *)
(** ** Vocabulary of the properties of the mesh parser *)
(* ===================================================================== *)

(** Documents and their lines, for both parsers. *)
Module Lines.
Import JS.

Definition newline : ascii := "010"%char.

(** The document made of the given lines. *)
Definition document (lines : list string) : string :=
  join (String newline "") lines.

(** The lines of a document. *)
Definition lines_of (text : string) : list string := split_on newline text.

(** The words of a record: the line is trimmed, blank lines and comments
    are no records. *)
Definition record_words (line : string) : list string :=
  let line := trim line in
  if String.eqb line "" || startsWith "#" line then [] else split_ws line.

End Lines.

Module ObjSpec.
Import JS OBJ.
Export Lines.

(** The corner references of a face record, [None] for any other line. *)
Definition face_record (line : string) : option (list string) :=
  match record_words line with
  | cmd :: args => if String.eqb cmd "f" then Some args else None
  | [] => None
  end.

(** The face records of a document, in order. *)
Definition faces (lines : list string) : list (list string) :=
  omap face_record lines.

(** The corner triples of the fan of a face: (corner 0, corner I,
    corner I+1) for I from 1 to k-2, flattened. *)
Definition fan {A} (corners : list A) : list A :=
  flat_map (fun I => match corners !! 0%nat, corners !! I, corners !! (I + 1)%nat with
                     | Some c0, Some c1, Some c2 => [c0; c1; c2]
                     | _, _, _ => []
                     end)
           (seq 1 (length corners - 2)).

(** The triple of indices (position, texcoord, normal) of a reference;
    a component is a number or absent/NaN ([None]). *)
Definition triple : Type := option Z * option Z * option Z.

Definition source_triple (c : Corner) : triple := (vert c, tex c, norm c).

(** The triple that [addVertex] resolves a corner to in state [st]. *)
Definition resolved_triple (st : State) (c : Corner) : triple :=
  (resolve_index (length (positions st)) (vert c),
   resolve_index (length (texcoords st)) (tex c),
   resolve_index (length (normals st)) (norm c)).

Definition key_of (t : triple) : string :=
  let '(p, t, n) := t in vertex_key p t n.

(** A face-corner reference: the triple written in the file and the
    triple it is resolved to where it stands. *)
Record Ref := {
  source : triple;
  resolved : triple
}.

(** The references that a line makes, in the order of the calls of
    [addVertex], when the parser is in state [st] before the line. *)
Definition line_refs (st : State) (line : string) : list Ref :=
  match face_record line with
  | Some args =>
      map (fun c => {| source := source_triple c; resolved := resolved_triple st c |})
          (fan (map parse_corner args))
  | None => []
  end.

(** The references of the lines, from state [st] on. *)
Fixpoint refs_from (st : State) (lines : list string) : list Ref :=
  match lines with
  | [] => []
  | line :: rest => line_refs st line ++ refs_from (process_line st line) rest
  end.

(** The references of a document, aligned with the indices that
    [parseOBJ] emits. *)
Definition refs (text : string) : list Ref := refs_from init (lines_of text).

(** The spans [gs] are the contiguous ranges that tile [start, stop) in
    order, none of them empty. *)
Fixpoint partitions (start : Z) (gs : list Geometry) (stop : Z) : Prop :=
  match gs with
  | [] => start = stop
  | g :: gs' =>
      startIndex g = start /\ 0 < indexCount g /\
      partitions (start + indexCount g) gs' stop
  end.

(** The materials of the sections that the lines open, in order: the
    one of each [usemtl] record, and [default] for a face record that
    comes while no section is open ([open] tells whether one is). *)
Fixpoint opened_from (open : bool) (lines : list string) : list (option string) :=
  match lines with
  | [] => []
  | line :: rest =>
      match record_words line with
      | cmd :: args =>
          if String.eqb cmd "usemtl" then args !! 0%nat :: opened_from true rest
          else if String.eqb cmd "f" then
            if open then opened_from true rest
            else Some "default" :: opened_from true rest
          else opened_from open rest
      | [] => opened_from open rest
      end
  end.

Definition opened (text : string) : list (option string) :=
  opened_from false (lines_of text).

(** The record that a position line declares. *)
Definition position_record (line : string) : option (list float) :=
  match record_words line with
  | cmd :: args => if String.eqb cmd "v" then Some (parse_floats3 args) else None
  | [] => None
  end.

Definition texcoord_record (line : string) : option (list float) :=
  match record_words line with
  | cmd :: args =>
      if String.eqb cmd "vt"
      then Some [parseFloat_opt (args !! 0%nat); (1 - parseFloat_opt (args !! 1%nat))%float]
      else None
  | [] => None
  end.

Definition normal_record (line : string) : option (list float) :=
  match record_words line with
  | cmd :: args =>
      if String.eqb cmd "vn" then Some (unit_normal (parse_floats3 args)) else None
  | [] => None
  end.

(** The position records declared by the lines, in order. *)
Definition declared_positions (lines : list string) : list (list float) :=
  omap position_record lines.

Definition declared_texcoords (lines : list string) : list (list float) :=
  omap texcoord_record lines.

Definition declared_normals (lines : list string) : list (list float) :=
  omap normal_record lines.

(** The three arrays of declared records. *)
Inductive array_kind := Positions | Texcoords | Normals.

Definition array_of (a : array_kind) (st : State) : list (list float) :=
  match a with
  | Positions => positions st
  | Texcoords => texcoords st
  | Normals => normals st
  end.

Definition declared (a : array_kind) (lines : list string) : list (list float) :=
  match a with
  | Positions => declared_positions lines
  | Texcoords => declared_texcoords lines
  | Normals => declared_normals lines
  end.

(** The [k]-th most recently declared record ([k] from 1). *)
Definition kth_most_recent {A} (declared : list A) (k : nat) : option A :=
  reverse declared !! (k - 1)%nat.

(** The number of triangles of a parsed mesh. *)
Definition triangle_count (d : ObjData) : Z :=
  Z.of_nat (length (obj_indices d)) / 3.

(** The number of corners of each face record of a document. *)
Definition corner_counts (text : string) : list Z :=
  map (fun args => Z.of_nat (length args)) (faces (lines_of text)).

Definition sum (l : list Z) : Z := fold_right Z.add 0 l.

(** The deduplication property with the triples as written in the file:
    references with the same source triple get the same index ... *)
Definition same_source_same_index (text : string) : Prop :=
  forall i j ri rj oi oj,
    refs text !! i = Some ri -> refs text !! j = Some rj ->
    obj_indices (parseOBJ text) !! i = Some oi ->
    obj_indices (parseOBJ text) !! j = Some oj ->
    source ri = source rj -> oi = oj.

(** ... and references with distinct source triples get distinct indices. *)
Definition distinct_source_distinct_index (text : string) : Prop :=
  forall i j ri rj oi oj,
    refs text !! i = Some ri -> refs text !! j = Some rj ->
    obj_indices (parseOBJ text) !! i = Some oi ->
    obj_indices (parseOBJ text) !! j = Some oj ->
    source ri <> source rj -> oi <> oj.

(** *** Documents used as instances *)

Definition doc_triangle : string :=
  document ["v 0 0 0"; "v 1 0 0"; "v 0 1 0"; "f 1 2 3"; ""].

Definition doc_quad : string :=
  document ["v 0 0 0"; "v 1 0 0"; "v 1 1 0"; "v 0 1 0";
            "usemtl a"; "f 1 2 3 4"; "usemtl b"; "f -1 -2 -3"].

(** The same source triple [-1] before and after a position is
    declared. *)
Definition doc_same_source : string :=
  document ["v 0 0 0"; "f -1 -1 -1"; "v 1 1 1"; "f -1 -1 -1"].

(** The same source triple [1//] before and after a texcoord is
    declared. *)
Definition doc_empty_component : string :=
  document ["v 0 0 0"; "f 1// 1// 1//"; "vt 0 0"; "f 1// 1// 1//"].

(** The sources [1] and [-1] name the same position. *)
Definition doc_distinct_source : string :=
  document ["v 0 0 0"; "f 1 -1 1"].

Definition lines_two_positions : list string :=
  ["v 0 0 0"; "v 1 2 3"; "vt 0.5 0.5"].

End ObjSpec.

(** Invariants of the parser state. *)
Module ObjInv.
Import JS OBJ ObjSpec.

(** The vertex map assigns distinct indices below [vertexCount]. *)
Definition map_ok (st : State) : Prop :=
  (forall k i, vertexMap st !! k = Some i -> (i < vertexCount st)%nat) /\
  (forall k k' i, vertexMap st !! k = Some i -> vertexMap st !! k' = Some i -> k = k').

(** The emitted indices are the indices that the vertex map gives to the
    references [rs] made so far. *)
Definition traced (st : State) (rs : list Ref) : Prop :=
  map_ok st /\
  Forall2 (fun r i => vertexMap st !! key_of (resolved r) = Some i) rs (indices st).

(** What [addVertex] and the triangulation leave as it is. *)
Definition same_tables (st st' : State) : Prop :=
  positions st' = positions st /\ texcoords st' = texcoords st /\
  normals st' = normals st /\ geometries st' = geometries st /\
  geometry st' = geometry st.

(** Where the open section starts. *)
Definition open_start (st : State) : Z :=
  match geometry st with Some g => startIndex g | None => 0 end.

(** The closed sections tile the indices up to the start of the open
    one, and no index is emitted before a section is open. *)
Definition spans_ok (st : State) : Prop :=
  partitions 0 (geometries st) (open_start st) /\
  open_start st <= Z.of_nat (length (indices st)) /\
  (geometry st = None -> indices st = []).

Definition option_list {A} (o : option A) : list A :=
  match o with Some a => [a] | None => [] end.

(** The materials of the closed sections and of the open one. *)
Definition sections (st : State) : list (option string) :=
  map material (geometries st) ++ option_list (material <$> geometry st).

Definition is_open (st : State) : bool :=
  match geometry st with Some _ => true | None => false end.

Definition mkref (st : State) (c : Corner) : Ref :=
  {| source := source_triple c; resolved := resolved_triple st c |}.

(** The state in which the corners of a face are resolved. *)
Definition face_state (st : State) : State :=
  match geometry st with
  | Some _ => st
  | None => startGeometry (Some "default") st
  end.

(** Texts whose characters all satisfy a test. *)
Fixpoint all_chars (P : ascii -> bool) (s : string) : bool :=
  match s with
  | EmptyString => true
  | String c s' => P c && all_chars P s'
  end.

Definition is_digit (c : ascii) : bool :=
  let n := nat_of_ascii c in (Nat.leb 48 n && Nat.leb n 57)%bool.

Definition not_slash (c : ascii) : bool := negb (Ascii.eqb c "/"%char).

End ObjInv.

(* ===================================================================== *)
(** ** Vocabulary of the properties of the materials *)
(* ===================================================================== *)

Module MtlSpec.
Import JS MTL.
Export Lines.

(** A material object with only [Ns] set, to the value [v]. *)
Definition only_Ns (v : float) : Material := set_shininess v empty_material.

(** The default material. *)
Definition default_material : Material :=
  {| shininess := Some 32.0%float;
     ambient := Some [1.0; 1.0; 1.0]%float;
     diffuse := Some [0.64; 0.64; 0.64]%float;
     specular := Some [0.2; 0.2; 0.2]%float;
     emissive := None; opticalDensity := None;
     opacity := Some 1.0%float;
     illum := Some (Some 2);
     map_Kd := None; map_Bump := None; map_Ks := None |}.

(** The material with a property removed. *)
Definition unset_shininess (m : Material) : Material :=
  {| shininess := None; ambient := ambient m; diffuse := diffuse m;
     specular := specular m; emissive := emissive m;
     opticalDensity := opticalDensity m; opacity := opacity m; illum := illum m;
     map_Kd := map_Kd m; map_Bump := map_Bump m; map_Ks := map_Ks m |}.
Definition unset_opacity (m : Material) : Material :=
  {| shininess := shininess m; ambient := ambient m; diffuse := diffuse m;
     specular := specular m; emissive := emissive m;
     opticalDensity := opticalDensity m; opacity := None; illum := illum m;
     map_Kd := map_Kd m; map_Bump := map_Bump m; map_Ks := map_Ks m |}.
Definition unset_illum (m : Material) : Material :=
  {| shininess := shininess m; ambient := ambient m; diffuse := diffuse m;
     specular := specular m; emissive := emissive m;
     opticalDensity := opticalDensity m; opacity := opacity m; illum := None;
     map_Kd := map_Kd m; map_Bump := map_Bump m; map_Ks := map_Ks m |}.

(** The resolved material keeps the parsed [Ns] value [v]. *)
Definition keeps_Ns (v : float) : Prop :=
  shininess (Loader.resolve_material (Some (only_Ns v))) = Some v.

(** The token begins with a number: after leading white space and a
    sign comes [Infinity], a digit, or a point and a digit. *)
Definition begins_number (tok : string) : bool :=
  let '(_, s) := strip_sign (trimStart tok) in
  startsWith "Infinity" s ||
  match s with
  | String c r =>
      ObjInv.is_digit c ||
      (Ascii.eqb c "."%char &&
       match r with
       | String d _ => ObjInv.is_digit d
       | EmptyString => false
       end)
  | EmptyString => false
  end.

(** A malformed numeric token: one that does not begin with a number,
    like [a] and [abc]. *)
Definition malformed (tok : string) : Prop := begins_number tok = false.

(** The record that a line declares for one of the three arrays. *)
Definition record_of (a : ObjSpec.array_kind) (line : string) : option (list float) :=
  match a with
  | ObjSpec.Positions => ObjSpec.position_record line
  | ObjSpec.Texcoords => ObjSpec.texcoord_record line
  | ObjSpec.Normals => ObjSpec.normal_record line
  end.

(** The material has the property that the directive assigns. *)
Definition has_property (keyword : string) (m : Material) : Prop :=
  if String.eqb keyword "Ns" then is_Some (shininess m)
  else if String.eqb keyword "Ka" then is_Some (ambient m)
  else if String.eqb keyword "Kd" then is_Some (diffuse m)
  else if String.eqb keyword "Ks" then is_Some (specular m)
  else if String.eqb keyword "Ke" then is_Some (emissive m)
  else if String.eqb keyword "Ni" then is_Some (opticalDensity m)
  else if String.eqb keyword "d" then is_Some (opacity m)
  else if String.eqb keyword "illum" then is_Some (illum m)
  else if String.eqb keyword "map_Kd" then is_Some (map_Kd m)
  else if String.eqb keyword "map_Bump" then is_Some (map_Bump m)
  else if String.eqb keyword "map_Ks" then is_Some (map_Ks m)
  else False.

(** The parsers skip a line: the result is the one of the document
    without the line. *)
Definition obj_skips (line : string) : Prop :=
  forall pre post : list string,
    OBJ.parseOBJ (document (pre ++ line :: post)) = OBJ.parseOBJ (document (pre ++ post)).

Definition mtl_skips (line : string) : Prop :=
  forall pre post : list string,
    parseMTL (document (pre ++ line :: post)) = parseMTL (document (pre ++ post)).

(** The first word of the line does not name an inherited property of
    the handler table that throws when it is called. *)
Definition plain (line : string) : Prop :=
  match record_words line with
  | keyword :: _ => among inherited_throwing keyword = false
  | [] => True
  end.

(** Parsing the material document does not abort. *)
Definition mtl_completes (text : string) : Prop := parseMTL text <> TypeError.

(** *** Instances *)

Definition mtl_leaf_open : State :=
  {| materials := {[ "leaf" := empty_material ]}; material := Some "leaf" |}.

Definition mats_leaf : gmap string Material := {[ "leaf" := only_Ns 10 ]}.

Definition span_of (name : string) : OBJ.Geometry :=
  {| OBJ.material := Some name; OBJ.startIndex := 0; OBJ.indexCount := 3 |}.

End MtlSpec.

(* ===================================================================== *)
(** ** Vocabulary of the properties of the camera *)
(* ===================================================================== *)

Module CameraSpec.
Import Camera.

(** [x <= y] on Numbers; it fails when one of them is NaN. *)
Definition fle (x y : float) : Prop := (x <=? y)%float = true.

(** The pitch and the distance are within their ranges. *)
Definition within_bounds (c : Camera) : Prop :=
  fle (-89) (rotationX c) /\ fle (rotationX c) 89 /\
  fle (MIN_DISTANCE c) (distance c) /\ fle (distance c) (MAX_DISTANCE c).

(** The settings are the ones of the constructor. *)
Definition settings_kept (c : Camera) : Prop :=
  ROTATION_SENSITIVITY c = ROTATION_SENSITIVITY constructor /\
  ZOOM_SENSITIVITY c = ZOOM_SENSITIVITY constructor /\
  MAX_DISTANCE c = MAX_DISTANCE constructor /\
  MIN_DISTANCE c = MIN_DISTANCE constructor.

(** The deltas of a mouse event are numbers, not NaN (they are of the
    Web IDL type [double]). *)
Definition numeric_deltas (o : operation) : Prop :=
  match o with
  | Mousemove e =>
      is_nan (movementX e) = false /\ is_nan (movementY e) = false
  | _ => True
  end.

(** A number that is a zero or finite and not zero. *)
Definition sf_finite (s : spec_float) : Prop :=
  match s with
  | S754_zero _ | S754_finite _ _ _ => True
  | _ => False
  end.

(** [FLt] and [FGt] exchanged. *)
Definition flip (c : float_comparison) : float_comparison :=
  match c with
  | FLt => FGt
  | FGt => FLt
  | c => c
  end.

Definition sf_is_nan (s : spec_float) : bool :=
  match s with S754_nan => true | _ => false end.

(** The invariant of the camera. *)
Definition camera_ok (c : Camera) : Prop := within_bounds c /\ settings_kept c.

(** A drag that overshoots every bound. *)
Definition wild_drag : list operation :=
  [Mousedown; Pointerlockchange true;
   Mousemove {| buttons := 1; movementX := 3; movementY := 1e300 |};
   Mousemove {| buttons := 1; movementX := 3; movementY := -7e305 |};
   Mousemove {| buttons := 4; movementX := 0; movementY := -1e9 |};
   Update; GetEye;
   Mousemove {| buttons := 4; movementX := 0; movementY := infinity |}].

End CameraSpec.

(* ===================================================================== *)
(** ** Vocabulary of the properties of the render loop *)
(* ===================================================================== *)

Module SceneSpec.
Import Scene.

Section WithMV.
Context `{MV : MVlib}.

(** The four lighting uniforms of a uniform store. *)
Record Lighting := {
  light_color : option uniform_value;
  light_intensity : option uniform_value;
  ambient_color : option uniform_value;
  ambient_intensity : option uniform_value
}.

Definition lighting_of (us : gmap string uniform_value) : Lighting :=
  {| light_color := us !! "uLightColor";
     light_intensity := us !! "uLightIntensity";
     ambient_color := us !! "uAmbientColor";
     ambient_intensity := us !! "uAmbientIntensity" |}.

(** The configured lighting of the scene. *)
Definition scene_lighting : Lighting :=
  {| light_color := Some (Uniform3f 1.0 0.95 0.8);
     light_intensity := Some (Uniform1f 3.2);
     ambient_color := Some (Uniform3f 0.2 0.3 0.2);
     ambient_intensity := Some (Uniform1f 0.05) |}.

(** The lighting that overrides it for the plant. *)
Definition plant_lighting : Lighting :=
  {| light_color := Some (Uniform3f 0.4 0.5 0.3);
     light_intensity := Some (Uniform1f 2.2);
     ambient_color := Some (Uniform3f 0.15 0.2 0.15);
     ambient_intensity := Some (Uniform1f 0.05) |}.

(** The specular toggle of a uniform store. *)
Definition use_specular (us : gmap string uniform_value) : option uniform_value :=
  us !! "uUseSpecular".

(** A draw of the sphere with the lighting of the scene and the toggle
    off. *)
Definition sphere_draw (d : DrawCall) : Prop :=
  draw_elements d = Some indexBuffer /\
  use_specular (draw_uniforms d) = Some (Uniform1i 0) /\
  lighting_of (draw_uniforms d) = scene_lighting.

(** A draw of a plant mesh with the overriding lighting and the toggle
    on. *)
Definition plant_draw (d : DrawCall) (mesh : Loader.Mesh) : Prop :=
  draw_elements d = Some plant_indexBuffer /\
  count d = Loader.indexCount mesh /\
  offset d = Loader.startIndex mesh * 2 /\
  use_specular (draw_uniforms d) = Some (Uniform1i 1) /\
  lighting_of (draw_uniforms d) = plant_lighting.

(** The meshes that a frame draws. *)
Definition frame_meshes (f : Frame) : list Loader.Mesh :=
  match plantModel f with
  | Some plant => meshes plant
  | None => []
  end.

(** The names of the lighting uniforms and of the toggle. *)
Definition watched (k : string) : Prop :=
  k = "uLightColor" \/ k = "uLightIntensity" \/ k = "uAmbientColor" \/
  k = "uAmbientIntensity" \/ k = "uUseSpecular".

(** Two stores agree on the lighting and on the toggle. *)
Definition agree (us us' : gmap string uniform_value) : Prop :=
  forall k, watched k -> us' !! k = us !! k.

End WithMV.
End SceneSpec.
(** Vocabulary and instances for the fragment shader. *)
Module ShaderSpec.
Import Shader.

(** The value is a zero or another finite number: no infinity, no
    NaN. *)
Definition finite32 (t : float32) : bool :=
  match t with
  | S754_zero _ | S754_finite _ _ _ => true
  | _ => false
  end.

(** The value is a zero, of either sign. *)
Definition zero32 (t : float32) : bool :=
  match t with
  | S754_zero _ => true
  | _ => false
  end.

(** A finite binary32 number (a value of the format, which is what
    [valid_binary] says, that is no infinity and no NaN). *)
Definition number (t : float32) : Prop :=
  SpecFloat.valid_binary 24 128 t = true /\ finite32 t = true.

Definition numbers (p : vec3) : Prop := number (x p) /\ number (y p) /\ number (z p).

Definition finite3 (p : vec3) : Prop :=
  finite32 (x p) = true /\ finite32 (y p) = true /\ finite32 (z p) = true.

Definition zeros (p : vec3) : Prop :=
  zero32 (x p) = true /\ zero32 (y p) = true /\ zero32 (z p) = true.

(** The same value, up to the sign of a zero. *)
Definition same (s t : float32) : Prop :=
  s = t \/ (zero32 s = true /\ zero32 t = true).

Definition same3 (p q : vec3) : Prop :=
  same (x p) (x q) /\ same (y p) (y q) /\ same (z p) (z q).

(** *** Instances *)

(** Built-in functions for instances: stand-ins that return their first
    argument. *)
Definition plain_builtins : Builtins :=
  {| pow := fun b _ => b; normalize := fun p => p |}.

(** Built-in functions with [normalize(p)] computed as
    [p / sqrt(dot(p, p))]. *)
Definition quotient_builtins : Builtins :=
  {| pow := fun b _ => b;
     normalize := fun p => vdiv p (SFsqrt 24 128 (dot p p)) |}.

Definition one : float32 := literal 1 0.
Definition nought : float32 := literal 0 0.

(** A fragment of a fully metallic surface. *)
Definition metal_fragment : Fragment :=
  let white := fun _ : vec2 => {| rgb := splat one; a := one |} in
  let grey := fun _ : vec2 => {| rgb := splat (literal 5 (-1)); a := one |} in
  {| vTexCoord := {| u := nought; v := nought |};
     vNormal := {| x := nought; y := one; z := nought |};
     vWorldPos := {| x := nought; y := nought; z := nought |};
     uCameraPos := {| x := nought; y := literal 10 0; z := literal 10 0 |};
     uLightDir := {| x := nought; y := neg one; z := nought |};
     uLightColor := splat one;
     uLightIntensity := literal 32 (-1);
     uAmbientColor := splat (literal 2 (-1));
     uAmbientIntensity := literal 5 (-2);
     uAlbedoMap := grey;
     uNormalMap := grey;
     uMetallicMap := white;
     uRoughnessMap := grey;
     uAOMap := white;
     uSpecularMap := white;
     uShininess := literal 32 0;
     uUseSpecular := false |}.

(** The same surface seen from where the light goes to: the view
    vector is the opposite of the light vector. *)
Definition backlit_fragment : Fragment :=
  let white := fun _ : vec2 => {| rgb := splat one; a := one |} in
  let grey := fun _ : vec2 => {| rgb := splat (literal 5 (-1)); a := one |} in
  {| vTexCoord := {| u := nought; v := nought |};
     vNormal := {| x := nought; y := one; z := nought |};
     vWorldPos := {| x := nought; y := nought; z := nought |};
     uCameraPos := {| x := nought; y := literal 10 0; z := nought |};
     uLightDir := {| x := nought; y := one; z := nought |};
     uLightColor := splat one;
     uLightIntensity := literal 32 (-1);
     uAmbientColor := splat (literal 2 (-1));
     uAmbientIntensity := literal 5 (-2);
     uAlbedoMap := grey;
     uNormalMap := grey;
     uMetallicMap := white;
     uRoughnessMap := grey;
     uAOMap := white;
     uSpecularMap := white;
     uShininess := literal 32 0;
     uUseSpecular := false |}.

End ShaderSpec.

(* ===================================================================== *)
(** ** Vocabulary of the properties of the parsed mesh *)
(* ===================================================================== *)

Module MeshSpec.
Import JS OBJ ObjSpec ObjInv.

(** The elements [w*i .. w*i + w - 1] of a flat array: the attribute of
    vertex [i] when the array is read [w] numbers per vertex, as
    [vertexAttribPointer] is told to. *)
Definition block (w i : nat) (l : list float) : list float :=
  take w (drop (w * i) l).

(** The number of vertices of a parsed mesh: its normals, three numbers
    per vertex. *)
Definition vertex_count (d : ObjData) : nat := (length (obj_normals d) / 3)%nat.

Definition vertex_position (d : ObjData) (i : nat) : list float :=
  block 3 i (obj_positions d).
Definition vertex_texcoord (d : ObjData) (i : nat) : list float :=
  block 2 i (obj_texcoords d).
Definition vertex_normal (d : ObjData) (i : nat) : list float :=
  block 3 i (obj_normals d).

(** The attributes that [addVertex] gives to a new vertex. *)
Record Attributes := {
  att_position : list float;
  att_texcoord : list float;
  att_normal : list float
}.

(** The attributes that a corner denotes in state [st]: the records at
    its resolved indices, or the defaults. *)
Definition denoted (st : State) (c : Corner) : Attributes :=
  {| att_position :=
       obj_or (array_get (positions st)
                         (resolve_index (length (positions st)) (vert c)))
              [0; 0; 0]%float;
     att_texcoord :=
       obj_or (array_get (texcoords st)
                         (resolve_index (length (texcoords st)) (tex c)))
              [0; 0]%float;
     att_normal :=
       obj_or (array_get (normals st)
                         (resolve_index (length (normals st)) (norm c)))
              [0; 1; 0]%float |}.

(** The attributes that the references of a line denote, aligned with
    [line_refs]. *)
Definition line_denoted (st : State) (line : string) : list Attributes :=
  match face_record line with
  | Some args => map (denoted st) (fan (map parse_corner args))
  | None => []
  end.

Fixpoint denoted_from (st : State) (lines : list string) : list Attributes :=
  match lines with
  | [] => []
  | line :: rest => line_denoted st line ++ denoted_from (process_line st line) rest
  end.

(** What the references of a document denote where they stand, aligned
    with the indices that [parseOBJ] emits. *)
Definition denotations (text : string) : list Attributes :=
  denoted_from init (lines_of text).

Definition triples (p : list float) : Prop := length p = 3%nat.
Definition pairs (p : list float) : Prop := length p = 2%nat.

(** The invariant of the vertex arrays.  [ix] are the indices returned
    by the calls of [addVertex] so far and [ds] what their references
    denoted: the arrays hold one texcoord pair and one normal triple per
    vertex, every vertex was returned by a call, and the call that
    returned an index first stored the attributes of its reference. *)
Definition vertices_ok (st : State) (ix : list nat) (ds : list Attributes) : Prop :=
  map_ok st /\
  Forall pairs (texcoords st) /\ Forall triples (normals st) /\
  length (finalTexcoords st) = (2 * vertexCount st)%nat /\
  length (finalNormals st) = (3 * vertexCount st)%nat /\
  (Forall triples (positions st) ->
   length (finalPositions st) = (3 * vertexCount st)%nat) /\
  (vertexCount st = 0%nat -> finalPositions st = []) /\
  Forall (fun i => (i < vertexCount st)%nat) ix /\
  (forall i, (i < vertexCount st)%nat -> i ∈ ix) /\
  length ds = length ix /\
  (forall j i a,
     ix !! j = Some i -> ds !! j = Some a -> i ∉ take j ix ->
     block 2 i (finalTexcoords st) = att_texcoord a /\
     block 3 i (finalNormals st) = att_normal a /\
     (Forall triples (positions st) ->
      block 3 i (finalPositions st) = att_position a)).

(** The mesh without vertices, indices and spans. *)
Definition empty_mesh : ObjData :=
  {| obj_positions := []; obj_texcoords := []; obj_normals := [];
     obj_indices := []; obj_geometries := [] |}.

(** The line holds no line break. *)
Definition one_line (line : string) : Prop :=
  all_chars (fun c => negb (Ascii.eqb c newline)) line = true.

(** The commands that [parseOBJ] has a case for. *)
Definition obj_commands : list string := ["v"; "vt"; "vn"; "usemtl"; "f"].

(** A line that is blank, a comment, or starts with a word that is no
    command of [parseOBJ]. *)
Definition obj_ignorable (line : string) : Prop :=
  match record_words line with
  | cmd :: _ => MTL.among obj_commands cmd = false
  | [] => True
  end.

Definition carriage_return : ascii := "013"%char.

(** The document with the line ends of Windows: every LF becomes
    CR LF. *)
Fixpoint to_crlf (text : string) : string :=
  match text with
  | EmptyString => EmptyString
  | String c s =>
      if Ascii.eqb c newline
      then String carriage_return (String newline (to_crlf s))
      else String c (to_crlf s)
  end.

(** Lines with the line ends CR LF: each line but the last one ends
    with a CR. *)
Fixpoint with_cr (lines : list string) : list string :=
  match lines with
  | [] => []
  | [l] => [l]
  | l :: rest => (l +:+ String carriage_return "") :: with_cr rest
  end.

(** *** Instances *)

Definition doc_shared_edge : string :=
  document ["v 0 0 0"; "v 1 0 0"; "v 1 1 0"; "v 0 1 0";
            "vt 0 0"; "vn 0 0 2";
            "f 1/1/1 2/1/1 3/1/1"; "f 1/1/1 3/1/1 4"].

Definition doc_degenerate : string :=
  document ["v 0 0 0"; "v 1 0 0"; "usemtl a"; "f 1 2"; "f 1"; "f"].

End MeshSpec.

(* ===================================================================== *)
(** ** Vocabulary of the properties of the material parser *)
(* ===================================================================== *)

Module MaterialSpec.
Import JS MTL.
Export Lines.

(** The eleven directives whose handlers assign to a property of the
    open material. *)
Definition property_keywords : list string :=
  ["Ns"; "Ka"; "Kd"; "Ks"; "Ke"; "Ni"; "d"; "illum"; "map_Kd"; "map_Bump"; "map_Ks"].

(** The name of the material that a [newmtl] line opens: the words
    after the directive, joined by single spaces. *)
Definition opens (line : string) : option string :=
  match record_words line with
  | keyword :: args =>
      if String.eqb keyword "newmtl" then Some (join " " args) else None
  | [] => None
  end.

(** The line is a record of a property directive. *)
Definition assigns (line : string) : bool :=
  match record_words line with
  | keyword :: _ => among property_keywords keyword
  | [] => false
  end.

(** The first word of the line names an inherited property of the
    handler table that throws when it is called. *)
Definition throws (line : string) : bool :=
  match record_words line with
  | keyword :: _ => among inherited_throwing keyword
  | [] => false
  end.

(** The names of the materials that the lines open, in order. *)
Definition opened_names (lines : list string) : list string := omap opens lines.

(** The state in which [parseMTL] starts. *)
Definition start : State := {| materials := ∅; material := None |}.

(** The name whose assignment installs the prototype of the
    dictionary. *)
Definition proto_name : string := "__proto__".

(** The names of the own properties of the dictionary, and its
    prototype when one was installed. *)
Definition own_names (mats : gmap string Material) : gset string :=
  dom (delete proto_name mats).

Definition prototype (mats : gmap string Material) : option Material :=
  mats !! proto_name.

Definition backslash : ascii := "\"%char.

Definition slash : ascii := "/"%char.

(** What [replace(/\\/g, '/')] makes of a character. *)
Definition slashed (c : ascii) : ascii :=
  if Ascii.eqb c backslash then slash else c.

Definition no_backslash (s : string) : Prop :=
  ObjInv.all_chars (fun c => negb (Ascii.eqb c backslash)) s = true.

(** *** Instances *)

Definition mtl_leaf : string := document ["newmtl leaf"; "Ns 10"].

Definition mtl_bark : string :=
  document ["# bark"; ""; "newmtl old   bark"; "d 0.5"; "map_Kd tex\bark 1.png"].

Definition bark : Material :=
  set_map_Kd "js/tex/bark 1.png" (set_opacity 0.5 empty_material).

Definition mtl_proto : string :=
  document ["newmtl __proto__"; "Ns 5"; "newmtl leaf"].

End MaterialSpec.

(* ===================================================================== *)
(** ** The loader ([loadOBJWithMTL]) *)
(* ===================================================================== *)

Module Load.
Import JS.

(** Why the promise of the loader is rejected: a [fetch] (or the
    reading of its response) failed, or [parseMTL] threw. *)
Inductive reason :=
| FetchFailed (url : string)
| Thrown.

(** A settled promise. *)
Inductive settled (A : Type) :=
| Resolved (a : A)
| Rejected (r : reason).
Arguments Resolved {A} a.
Arguments Rejected {A} r.

(** [loadOBJWithMTL(gl, objUrl, mtlUrl)], given what [fetch] and
    [response.text()] deliver for a URL ([None] when they reject): how
    the promise settles, and the URLs that were requested, in order. *)
Definition loadOBJWithMTL (fetch : string -> option string) (objUrl mtlUrl : string)
  : settled Loader.Model * list string :=
  match fetch mtlUrl with
  | Some mtlData =>
      match MTL.parseMTL mtlData with
      | MTL.Ok materials =>
          match fetch objUrl with
          | Some objData =>
              let result := OBJ.parseOBJ objData in
              (Resolved (Loader.createGeometryWithMaterials result materials),
               [mtlUrl; objUrl])
          | None => (Rejected (FetchFailed objUrl), [mtlUrl; objUrl])
          end
      | MTL.TypeError => (Rejected Thrown, [mtlUrl])
      end
  | None => (Rejected (FetchFailed mtlUrl), [mtlUrl])
  end.

End Load.

(** Vocabulary of the properties of the loaded model. *)
Module LoadSpec.
Import JS Load.

(** The spans [(start, count)] are contiguous ranges that tile
    [start, stop) in order, none of them empty. *)
Fixpoint tiles (start : Z) (spans : list (Z * Z)) (stop : Z) : Prop :=
  match spans with
  | [] => start = stop
  | (s, c) :: rest => s = start /\ 0 < c /\ tiles (start + c) rest stop
  end.

Definition mesh_span (m : Loader.Mesh) : Z * Z :=
  (Loader.startIndex m, Loader.indexCount m).

Definition geometry_span (g : OBJ.Geometry) : Z * Z :=
  (OBJ.startIndex g, OBJ.indexCount g).

(** The number of vertices of a model. *)
Definition model_vertices (m : Loader.Model) : nat :=
  (length (Loader.normals m) / 3)%nat.

(** The six properties that the resolver writes are present, and the
    numeric ones are not falsy. *)
Definition complete (m : MTL.Material) : Prop :=
  (exists s, MTL.shininess m = Some s /\ truthy s = true) /\
  is_Some (MTL.ambient m) /\ is_Some (MTL.diffuse m) /\ is_Some (MTL.specular m) /\
  (exists o, MTL.opacity m = Some o /\ truthy o = true) /\
  (exists i, MTL.illum m = Some (Some i) /\ i <> 0).

(** A network that serves two documents. *)
Definition serve (objUrl obj mtlUrl mtl : string) (url : string) : option string :=
  if String.eqb url mtlUrl then Some mtl
  else if String.eqb url objUrl then Some obj
  else None.

End LoadSpec.

(* ===================================================================== *)
(** ** Vocabulary of the properties of the draw calls *)
(* ===================================================================== *)

Module DrawSpec.
Import JS Scene.

Section WithMV.
Context `{MV : MVlib}.

Definition albedo_png : MTL.texture := "js/textures/sand-dunes1_albedo.png".
Definition normal_png : MTL.texture := "js/textures/sand-dunes1_normal-dx.png".
Definition metallic_png : MTL.texture := "js/textures/sand-dunes1_metallic.png".
Definition roughness_png : MTL.texture := "js/textures/sand-dunes1_roughness.png".
Definition ao_png : MTL.texture := "js/textures/sand-dunes1_ao.png".

(** The texture units 2, 3 and 4 hold the metallic, roughness and
    ambient-occlusion maps of the scene, and their samplers read
    them. *)
Definition shared_maps (units : gmap Z (option MTL.texture))
    (us : gmap string uniform_value) : Prop :=
  units !! 2 = Some (Some metallic_png) /\
  units !! 3 = Some (Some roughness_png) /\
  units !! 4 = Some (Some ao_png) /\
  us !! "uMetallicMap" = Some (Uniform1i 2) /\
  us !! "uRoughnessMap" = Some (Uniform1i 3) /\
  us !! "uAOMap" = Some (Uniform1i 4).

(** A draw with the five maps of the scene. *)
Definition scene_textures (d : DrawCall) : Prop :=
  draw_textures d !! 0 = Some (Some albedo_png) /\
  draw_textures d !! 1 = Some (Some normal_png) /\
  draw_uniforms d !! "uAlbedoMap" = Some (Uniform1i 0) /\
  draw_uniforms d !! "uNormalMap" = Some (Uniform1i 1) /\
  shared_maps (draw_textures d) (draw_uniforms d).

(** [mesh.material.map_Ks || mesh.material.map_Kd] *)
Definition specular_map (m : MTL.Material) : option MTL.texture :=
  match MTL.map_Ks m with
  | Some t => Some t
  | None => MTL.map_Kd m
  end.

(** A draw with the maps and the shininess of the material of a mesh,
    and with the other three maps of the scene. *)
Definition plant_textures (d : DrawCall) (mesh : Loader.Mesh) : Prop :=
  let m := Loader.material mesh in
  draw_textures d !! 0 = Some (MTL.map_Kd m) /\
  draw_textures d !! 1 = Some (MTL.map_Bump m) /\
  draw_textures d !! 5 = Some (specular_map m) /\
  draw_uniforms d !! "uAlbedoMap" = Some (Uniform1i 0) /\
  draw_uniforms d !! "uNormalMap" = Some (Uniform1i 1) /\
  draw_uniforms d !! "uSpecularMap" = Some (Uniform1i 5) /\
  draw_uniforms d !! "uShininess" = Some (Uniform1f (num_or (MTL.shininess m) 32)) /\
  shared_maps (draw_textures d) (draw_uniforms d).

(** The size of the drawing buffer and the viewport. *)
Definition canvas_of (gl : GL) : Z * Z * (Z * Z * Z * Z) :=
  (canvas_width gl, canvas_height gl, viewport gl).

(** The range of bytes of the element array that a draw reads: where
    it starts and how long it is, two bytes per index. *)
Definition byte_span (d : DrawCall) : Z * Z := (offset d, 2 * count d).

(** The context before the first frame: nothing is bound or set, and
    the drawing buffer has the default size of a canvas. *)
Definition fresh_context : GL :=
  {| canvas_width := 300; canvas_height := 150;
     viewport := (0, 0, 300, 150);
     uniforms := ∅; active_texture := 0; texture_units := ∅;
     array_buffer := None; element_array_buffer := None;
     attrib_pointers := []; draws := [] |}.

(** A frame in which the model is the plant. *)
Definition frame_with (model : Loader.Model) : Frame :=
  {| time := 16; clientWidth := 640; clientHeight := 480;
     camera := Camera.constructor;
     plantModel := Some (initPlantBuffers model) |}.

End WithMV.

(** A matrix library for instances: matrices as lists of sixteen
    numbers that it does not compute. *)
Definition plain_library : MVlib :=
  {| mat := list float;
     mat4 := [];
     mult := fun a b => (a ++ b)%list;
     translate := fun x y z => [x; y; z];
     rotate := fun angle axis => angle :: axis;
     perspective := fun fovy aspect near far => [fovy; aspect; near; far];
     normalize := fun v => v;
     radians := fun d => d;
     Math_sin := fun x => x;
     Math_cos := fun x => x |}.

End DrawSpec.

(* ===================================================================== *)
(** ** The sphere ([createSphereGeometry]) *)
(* ===================================================================== *)

Module Sphere.
Import JS.

(** [Math.PI] *)
Definition Math_PI : float := 3.141592653589793%float.

(** A loop counter as a Number. *)
Definition number (n : nat) : float := Scene.of_int (Z.of_nat n).

Record Geometry := {
  positions : list float;
  texCoords : list float;
  indices : list nat;
  normals : list float
}.

Section WithMV.
Context `{MV : MVlib}.
(** The variables of [main] that the function reads. *)
Variables (radius : float) (latitudeBands longitudeBands : nat).

(** The point of the unit sphere at a latitude and a longitude. *)
Definition point (lat long : nat) : list float :=
  let theta := (number lat * Math_PI / number latitudeBands)%float in
  let sinTheta := Math_sin theta in
  let cosTheta := Math_cos theta in
  let phi := (number long * 2 * Math_PI / number longitudeBands)%float in
  let sinPhi := Math_sin phi in
  let cosPhi := Math_cos phi in
  let x := (cosPhi * sinTheta)%float in
  let y := cosTheta in
  let z := (sinPhi * sinTheta)%float in
  [x; y; z].

(** What the body of the first loop pushes to [positions], [texCoords]
    and [normals]. *)
Definition position (lat long : nat) : list float :=
  map (fun c => (radius * c)%float) (point lat long).

Definition texCoord (lat long : nat) : list float :=
  let u := (1 - (number long / number longitudeBands))%float in
  let v := (1 - (number lat / number latitudeBands))%float in
  [u; v].

(** What the body of the second loop pushes to [indices]. *)
Definition quad (lat long : nat) : list nat :=
  let first := (lat * (longitudeBands + 1) + long)%nat in
  let second := (first + longitudeBands + 1)%nat in
  [first; second; (first + 1)%nat; second; (second + 1)%nat; (first + 1)%nat].

(** [for (let lat = 0; lat <= latitudeBands; lat++)
       for (let long = 0; long <= longitudeBands; long++)] *)
Definition vertices {A} (body : nat -> nat -> list A) : list A :=
  flat_map (fun lat => flat_map (body lat) (seq 0 (S longitudeBands)))
           (seq 0 (S latitudeBands)).

(** [for (let lat = 0; lat < latitudeBands; lat++)
       for (let long = 0; long < longitudeBands; long++)] *)
Definition quads {A} (body : nat -> nat -> list A) : list A :=
  flat_map (fun lat => flat_map (body lat) (seq 0 longitudeBands))
           (seq 0 latitudeBands).

Definition createSphereGeometry : Geometry :=
  {| positions := vertices position;
     texCoords := vertices texCoord;
     indices := quads quad;
     normals := vertices point |}.

(** The number of vertices of the sphere. *)
Definition vertex_total : nat := (S latitudeBands * S longitudeBands)%nat.

End WithMV.
End Sphere.

(* ===================================================================== *)
(** ** The texture helpers ([loadImageTexture], [isPowerOf2]) *)
(* ===================================================================== *)

Module Helpers.
Import JS.

(** [ToInt32] of a Number that is an integer. *)
Definition ToInt32 (n : Z) : Z := (n + 2 ^ 31) mod 2 ^ 32 - 2 ^ 31.

(** [a & b] *)
Definition bitand (a b : Z) : Z := Z.land (ToInt32 a) (ToInt32 b).

(** [isPowerOf2(value)], for a value that is an integer. *)
Definition isPowerOf2 (value : Z) : bool := bitand value (value - 1) =? 0.

(** The image of level 0 of a texture: a single pixel given by its four
    bytes, or the picture that an [Image] element decoded from a URL. *)
Inductive image_data :=
| OnePixel (rgba : list Z)
| Picture (url : string) (width height : Z).

Inductive filter := NEAREST | LINEAR | NEAREST_MIPMAP_LINEAR.
Inductive wrap := REPEAT | CLAMP_TO_EDGE.

(** A texture object of the context, with the parameters that the
    helpers set. *)
Record TextureObject := {
  image : option image_data;
  mipmaps : bool;
  min_filter : filter;
  mag_filter : filter;
  wrap_s : wrap;
  wrap_t : wrap
}.

(** A texture as [gl.createTexture()] returns it. *)
Definition new_texture : TextureObject :=
  {| image := None; mipmaps := false;
     min_filter := NEAREST_MIPMAP_LINEAR; mag_filter := LINEAR;
     wrap_s := REPEAT; wrap_t := REPEAT |}.

(** The textures of the context (a texture is known by its position),
    the texture bound to [TEXTURE_2D], and the [Image] elements with a
    [load] listener: the texture and the URL of each. *)
Record Context := {
  textures : list TextureObject;
  bound : option nat;
  images : list (nat * string)
}.

Definition createTexture (c : Context) : Context * nat :=
  ({| textures := textures c ++ [new_texture]; bound := bound c; images := images c |},
   length (textures c)).

(** [gl.bindTexture(gl.TEXTURE_2D, texture)] *)
Definition bindTexture (texture : option nat) (c : Context) : Context :=
  {| textures := textures c; bound := texture; images := images c |}.

(** A call that writes to the texture bound to [TEXTURE_2D]; without
    one it is an error and writes nothing. *)
Definition on_bound (f : TextureObject -> TextureObject) (c : Context) : Context :=
  match bound c with
  | Some t => {| textures := alter f t (textures c); bound := bound c; images := images c |}
  | None => c
  end.

Definition set_image (d : image_data) (o : TextureObject) : TextureObject :=
  {| image := Some d; mipmaps := mipmaps o;
     min_filter := min_filter o; mag_filter := mag_filter o;
     wrap_s := wrap_s o; wrap_t := wrap_t o |}.
Definition set_mipmaps (o : TextureObject) : TextureObject :=
  {| image := image o; mipmaps := true;
     min_filter := min_filter o; mag_filter := mag_filter o;
     wrap_s := wrap_s o; wrap_t := wrap_t o |}.
Definition set_min_filter (v : filter) (o : TextureObject) : TextureObject :=
  {| image := image o; mipmaps := mipmaps o;
     min_filter := v; mag_filter := mag_filter o;
     wrap_s := wrap_s o; wrap_t := wrap_t o |}.
Definition set_mag_filter (v : filter) (o : TextureObject) : TextureObject :=
  {| image := image o; mipmaps := mipmaps o;
     min_filter := min_filter o; mag_filter := v;
     wrap_s := wrap_s o; wrap_t := wrap_t o |}.
Definition set_wrap_s (v : wrap) (o : TextureObject) : TextureObject :=
  {| image := image o; mipmaps := mipmaps o;
     min_filter := min_filter o; mag_filter := mag_filter o;
     wrap_s := v; wrap_t := wrap_t o |}.
Definition set_wrap_t (v : wrap) (o : TextureObject) : TextureObject :=
  {| image := image o; mipmaps := mipmaps o;
     min_filter := min_filter o; mag_filter := mag_filter o;
     wrap_s := wrap_s o; wrap_t := v |}.

(** [gl.texImage2D(gl.TEXTURE_2D, 0, gl.RGBA, 1, 1, 0, gl.RGBA,
    gl.UNSIGNED_BYTE, pixels)]: an array of fewer than four bytes is an
    error and writes nothing. *)
Definition texImage2D_pixels (pixels : list Z) (c : Context) : Context :=
  if (4 <=? length pixels)%nat then on_bound (set_image (OnePixel (take 4 pixels))) c
  else c.

(** [gl.texImage2D(gl.TEXTURE_2D, 0, gl.RGBA, gl.RGBA, gl.UNSIGNED_BYTE,
    image)] *)
Definition texImage2D_image (url : string) (width height : Z) (c : Context) : Context :=
  on_bound (set_image (Picture url width height)) c.

Definition createTextureFromPixels (pixels : list Z) (c : Context) : Context :=
  texImage2D_pixels pixels c.

Definition createTemporaryTexture (c : Context) : Context :=
  let tempPixel := [0; 0; 255; 255] in
  texImage2D_pixels tempPixel c.

(** [setupTextureFiltering(gl, image)], given the size of the image. *)
Definition setupTextureFiltering (width height : Z) (c : Context) : Context :=
  if isPowerOf2 width && isPowerOf2 height then
    let c := on_bound set_mipmaps c in
    let c := on_bound (set_min_filter NEAREST_MIPMAP_LINEAR) c in
    on_bound (set_mag_filter NEAREST) c
  else
    let c := on_bound (set_wrap_s CLAMP_TO_EDGE) c in
    let c := on_bound (set_wrap_t CLAMP_TO_EDGE) c in
    let c := on_bound (set_min_filter LINEAR) c in
    on_bound (set_mag_filter LINEAR) c.

(** [loadImageFromURL(gl, texture, url)]: an image is requested and its
    [load] listener installed. *)
Definition loadImageFromURL (texture : nat) (url : string) (c : Context) : Context :=
  {| textures := textures c; bound := bound c;
     images := images c ++ [(texture, url)] |}.

(** The [load] listener of the image number [i], when the image has
    been decoded with the given size. *)
Definition load (i : nat) (width height : Z) (c : Context) : Context :=
  match images c !! i with
  | Some (texture, url) =>
      let c := bindTexture (Some texture) c in
      let c := texImage2D_image url width height c in
      setupTextureFiltering width height c
  | None => c
  end.

(** The argument [source]: an image URL or pixel data. *)
Inductive source :=
| Url (url : string)
| Uint8Array (bytes : list Z).

Definition loadImageTexture (s : source) (c : Context) : Context * nat :=
  let '(c, texture) := createTexture c in
  let c := bindTexture (Some texture) c in
  match s with
  | Uint8Array pixels => (createTextureFromPixels pixels c, texture)
  | Url url =>
      let c := createTemporaryTexture c in
      let c := loadImageFromURL texture url c in
      (c, texture)
  end.

(** What happens to the textures: a call of [loadImageTexture], the
    [load] event of an image, and any other code (the render loop) that
    binds a texture or none. *)
Inductive event :=
| Call (s : source)
| Loaded (i : nat) (width height : Z)
| Bind (texture : option nat).

Definition step (c : Context) (e : event) : Context :=
  match e with
  | Call s => (loadImageTexture s c).1
  | Loaded i width height => load i width height c
  | Bind texture => bindTexture texture c
  end.

Definition fresh : Context := {| textures := []; bound := None; images := [] |}.

Definition run (events : list event) : Context := fold_left step events fresh.

End Helpers.

(** Vocabulary of the properties of the texture helpers. *)
Module HelperSpec.
Import Helpers.

(** The blue pixel that stands for an image that is not loaded yet. *)
Definition placeholder : image_data := OnePixel [0; 0; 255; 255].

(** The parameters that [setupTextureFiltering] leaves for an image of
    the given size. *)
Definition filtered (width height : Z) (o : TextureObject) : Prop :=
  if isPowerOf2 width && isPowerOf2 height
  then mipmaps o = true /\ min_filter o = NEAREST_MIPMAP_LINEAR /\ mag_filter o = NEAREST
  else wrap_s o = CLAMP_TO_EDGE /\ wrap_t o = CLAMP_TO_EDGE /\
       min_filter o = LINEAR /\ mag_filter o = LINEAR.

(** What the [load] listener does to its texture. *)
Definition loaded (url : string) (width height : Z) (o : TextureObject) : TextureObject :=
  let o := set_image (Picture url width height) o in
  if isPowerOf2 width && isPowerOf2 height
  then set_mag_filter NEAREST (set_min_filter NEAREST_MIPMAP_LINEAR (set_mipmaps o))
  else set_mag_filter LINEAR
         (set_min_filter LINEAR (set_wrap_t CLAMP_TO_EDGE (set_wrap_s CLAMP_TO_EDGE o))).

(** The texture shows the placeholder, or the picture of the URL with
    the parameters for its size. *)
Definition shows (url : string) (o : TextureObject) : Prop :=
  image o = Some placeholder \/
  exists width height, image o = Some (Picture url width height) /\ filtered width height o.

(** The invariant of the textures with an image: each has a texture
    of its own, which shows the placeholder or the picture of its URL. *)
Definition images_ok (c : Context) : Prop :=
  NoDup (map fst (images c)) /\
  forall i texture url,
    images c !! i = Some (texture, url) ->
    exists o, textures c !! texture = Some o /\ shows url o.

(** The value is a power of two. *)
Definition power_of_two (n : Z) : Prop := exists k, 0 <= k /\ n = 2 ^ k.

(** *** Instances *)

Definition two_loads : list event :=
  [Call (Url "a.png"); Call (Url "b.png"); Bind None;
   Loaded 1 640 480; Call (Uint8Array [1; 2; 3]); Loaded 0 256 256].

End HelperSpec.

(* ===================================================================== *)
(** ** Vocabulary of further properties of the camera *)
(* ===================================================================== *)

Module PointerSpec.
Import Camera.

(** The operation is not the event that tells that the pointer is
    locked to the canvas. *)
Definition no_lock (o : operation) : Prop := o <> Pointerlockchange true.

(** A drag with a delta that is no number ([undefined] in a browser
    without [movementY], NaN in arithmetic). *)
Definition broken_drag : MouseEvent :=
  {| buttons := 1; movementX := 4; movementY := nan |}.

End PointerSpec.
(* ===================================================================== *)
(** ** Vocabulary of the face-corner references of a document *)
(* ===================================================================== *)

Module CornerSpec.
Import JS OBJ ObjSpec ObjInv MeshSpec.

(** The corners that a line passes to [addVertex], in the order of the
    calls: the fan of a face record, nothing for another line. *)
Definition line_corners (line : string) : list Corner :=
  match face_record line with
  | Some args => fan (map parse_corner args)
  | None => []
  end.

(** The face-corner references of the lines, each with the lines that
    precede its own line ([seen] are the lines before the first one). *)
Fixpoint corners_from (seen lines : list string) : list (list string * Corner) :=
  match lines with
  | [] => []
  | line :: rest =>
      map (pair seen) (line_corners line) ++ corners_from (seen ++ [line]) rest
  end.

(** The face-corner references of a document, aligned with the indices
    that [parseOBJ] emits. *)
Definition corners (text : string) : list (list string * Corner) :=
  corners_from [] (lines_of text).

(** The index that a corner gives for one of the three arrays. *)
Definition index_of (a : array_kind) (c : Corner) : option Z :=
  match a with
  | Positions => vert c
  | Texcoords => tex c
  | Normals => norm c
  end.

Definition component_of (a : array_kind) (t : triple) : option Z :=
  match a with
  | Positions => t.1.1
  | Texcoords => t.1.2
  | Normals => t.2
  end.

(** The attribute of vertex [i] of a parsed mesh that comes from the
    array [a], and the default of that attribute. *)
Definition attribute (a : array_kind) (d : ObjData) (i : nat) : list float :=
  match a with
  | Positions => vertex_position d i
  | Texcoords => vertex_texcoord d i
  | Normals => vertex_normal d i
  end.

Definition default_of (a : array_kind) : list float :=
  match a with
  | Positions => [0; 0; 0]%float
  | Texcoords => [0; 0]%float
  | Normals => [0; 1; 0]%float
  end.

Definition att_of (a : array_kind) (x : Attributes) : list float :=
  match a with
  | Positions => att_position x
  | Texcoords => att_texcoord x
  | Normals => att_normal x
  end.

(** The vertices can be read off the flat array: for the positions,
    every position record of the document has three coordinates (the
    texcoord and normal records always have two and three). *)
Definition well_sized (a : array_kind) (text : string) : Prop :=
  match a with
  | Positions => Forall triples (declared_positions (lines_of text))
  | _ => True
  end.

(** Every reference with a negative position index [-k] yields a vertex
    at the [k]-th most recently declared position. *)
Definition relative_yields_record (text : string) : Prop :=
  forall (j : nat) (seen : list string) (c : Corner) (k i : nat),
    corners text !! j = Some (seen, c) ->
    vert c = Some (- Z.of_nat k) ->
    (1 <= k <= length (declared_positions seen))%nat ->
    obj_indices (parseOBJ text) !! j = Some i ->
    Some (vertex_position (parseOBJ text) i)
    = kth_most_recent (declared_positions seen) k.

(** *** Instances *)

(** The second position is referred to before it is declared. *)
Definition doc_dangling : string :=
  document ["v 1 1 1"; "f 2 1 1"; "v 5 5 5"; "f -1 1 1"].

Definition corner_minus_one : Corner :=
  {| vert := Some (-1); tex := None; norm := None |}.

End CornerSpec.

Module KeyFacts.
Import JS OBJ ObjSpec ObjInv.

Lemma all_chars_app P s t :
  all_chars P (s +:+ t) = all_chars P s && all_chars P t.
Proof.
  induction s as [|c s IH]; simpl; [done|].
  rewrite IH. by rewrite andb_assoc.
Qed.

Lemma all_chars_impl (P Q : ascii -> bool) s :
  (forall c, P c = true -> Q c = true) ->
  all_chars P s = true -> all_chars Q s = true.
Proof.
  intros HPQ. induction s as [|c s IH]; simpl; [done|].
  intros [Hc Hs]%andb_true_iff. rewrite (HPQ _ Hc). simpl. auto.
Qed.

Lemma pretty_N_char_digit x : is_digit (pretty_N_char x) = true.
Proof. unfold pretty_N_char. by repeat case_match. Qed.

Lemma pretty_N_go_digits x s :
  all_chars is_digit s = true -> all_chars is_digit (pretty_N_go x s) = true.
Proof.
  revert s. induction (N.lt_wf_0 x) as [x _ IH]; intros s Hs.
  destruct (decide (x = 0)%N) as [->|Hx].
  - by rewrite pretty_N_go_0.
  - rewrite pretty_N_go_step by lia. apply IH.
    + apply N.div_lt; lia.
    + simpl. by rewrite pretty_N_char_digit.
Qed.

Lemma pretty_N_digits (x : N) : all_chars is_digit (pretty x) = true.
Proof.
  unfold pretty, pretty_N. case_decide; [done|].
  by apply pretty_N_go_digits.
Qed.

Lemma digit_not_slash c : is_digit c = true -> not_slash c = true.
Proof.
  unfold is_digit, not_slash. intros H.
  destruct (Ascii.eqb_spec c "/"%char) as [->|]; [by compute in H|done].
Qed.

Lemma pretty_Z_no_slash (z : Z) : all_chars not_slash (pretty z) = true.
Proof.
  destruct z as [|p|p]; [done| |].
  - apply (all_chars_impl is_digit); [apply digit_not_slash|].
    apply (pretty_N_digits (Npos p)).
  - change (pretty (Zneg p)) with ("-" +:+ pretty (Npos p)).
    simpl. apply (all_chars_impl is_digit); [apply digit_not_slash|].
    apply (pretty_N_digits (Npos p)).
Qed.

Lemma number_to_string_no_slash i :
  all_chars not_slash (number_to_string i) = true.
Proof. destruct i; [apply pretty_Z_no_slash|done]. Qed.

Lemma pretty_Z_not_NaN (z : Z) : pretty z <> "NaN".
Proof.
  intros H.
  assert (Hd : all_chars (fun c => is_digit c || Ascii.eqb c "-"%char) (pretty z) = true).
  { destruct z as [|p|p]; [done| |].
    - apply (all_chars_impl is_digit); [by intros c ->|].
      apply (pretty_N_digits (Npos p)).
    - change (pretty (Zneg p)) with ("-" +:+ pretty (Npos p)).
      simpl. apply (all_chars_impl is_digit); [by intros c ->|].
      apply (pretty_N_digits (Npos p)). }
  rewrite H in Hd. discriminate.
Qed.

Lemma number_to_string_inj i j :
  number_to_string i = number_to_string j -> i = j.
Proof.
  destruct i as [a|], j as [b|]; simpl; intros H.
  - f_equal. by apply (inj pretty).
  - by apply pretty_Z_not_NaN in H.
  - symmetry in H. by apply pretty_Z_not_NaN in H.
  - done.
Qed.

(** Two texts with a slash after a slash-free head agree on the head
    and on the rest. *)
Lemma split_at_slash a a' r r' :
  all_chars not_slash a = true -> all_chars not_slash a' = true ->
  a +:+ "/" +:+ r = a' +:+ "/" +:+ r' -> a = a' /\ r = r'.
Proof.
  revert a'. induction a as [|c a IH]; intros [|c' a']; simpl.
  - intros _ _ H. by simplify_eq.
  - intros _ [Hc _]%andb_true_iff H. by simplify_eq.
  - intros [Hc _]%andb_true_iff _ H. by simplify_eq.
  - intros [_ Ha]%andb_true_iff [_ Ha']%andb_true_iff H. simplify_eq.
    destruct (IH a' Ha Ha') as [-> ->]; done.
Qed.

Lemma vertex_key_inj p t n p' t' n' :
  vertex_key p t n = vertex_key p' t' n' -> p = p' /\ t = t' /\ n = n'.
Proof.
  unfold vertex_key. intros H.
  apply split_at_slash in H as [Hp H]; try apply number_to_string_no_slash.
  apply split_at_slash in H as [Ht Hn]; try apply number_to_string_no_slash.
  auto using number_to_string_inj.
Qed.

Lemma key_of_inj (a b : triple) : key_of a = key_of b -> a = b.
Proof.
  destruct a as [[p t] n], b as [[p' t'] n']. simpl.
  intros (-> & -> & ->)%vertex_key_inj. done.
Qed.

End KeyFacts.

Module ObjFacts.
Import JS OBJ ObjSpec ObjInv.
Local Open Scope list_scope.

Lemma same_tables_refl st : same_tables st st.
Proof. by repeat split. Qed.

Lemma same_tables_trans st1 st2 st3 :
  same_tables st1 st2 -> same_tables st2 st3 -> same_tables st1 st3.
Proof.
  intros (?&?&?&?&?) (?&?&?&?&?). repeat split; congruence.
Qed.

Lemma same_tables_resolved st st' c :
  same_tables st st' -> resolved_triple st' c = resolved_triple st c.
Proof. intros (Hp&Ht&Hn&_). unfold resolved_triple. by rewrite Hp, Ht, Hn. Qed.

Lemma addVertex_spec c st :
  let r := addVertex (vert c) (tex c) (norm c) st in
  same_tables st r.1 /\ indices r.1 = indices st /\
  vertexMap r.1 !! key_of (resolved_triple st c) = Some r.2 /\
  vertexMap st ⊆ vertexMap r.1 /\
  (map_ok st -> map_ok r.1).
Proof.
  unfold addVertex, resolved_triple, key_of.
  destruct (vertexMap st !! _) as [i|] eqn:E; simpl.
  - split_and!; done.
  - split_and!; try done.
    + by rewrite lookup_insert_eq.
    + by apply insert_subseteq.
    + intros [Hlt Hinj]. split; simpl.
      * intros k i Hk.
        apply lookup_insert_Some in Hk as [[_ <-]|[_ Hk]]; [lia|].
        apply Hlt in Hk. lia.
      * intros k k' i Hk Hk'.
        apply lookup_insert_Some in Hk as [[<- <-]|[Hne Hk]];
          apply lookup_insert_Some in Hk' as [[<- Hi]|[Hne' Hk']]; try done.
        -- apply Hlt in Hk'. lia.
        -- apply Hlt in Hk. lia.
        -- eauto.
Qed.

Lemma traced_weaken st st' rs :
  traced st rs -> vertexMap st ⊆ vertexMap st' -> indices st' = indices st ->
  map_ok st' -> traced st' rs.
Proof.
  intros [_ Hf] Hsub Hi Hok. split; [done|]. rewrite Hi.
  eapply Forall2_impl; [exact Hf|]. simpl. intros r i Hr.
  by eapply lookup_weaken.
Qed.

(** One triangle: three references are made and their indices pushed. *)
Lemma triangle_spec vs st i v0 v1 v2 rs :
  vs !! 0%nat = Some v0 -> vs !! i = Some v1 -> vs !! (i + 1)%nat = Some v2 ->
  traced st rs ->
  same_tables st (triangle vs st i) /\
  traced (triangle vs st i) (rs ++ map (mkref st) [v0; v1; v2]).
Proof.
  intros H0 H1 H2 Htr. unfold triangle. rewrite H0, H1, H2.
  pose proof (addVertex_spec v0 st) as Ha.
  destruct (addVertex (vert v0) (tex v0) (norm v0) st) as [st1 a].
  cbn [fst snd] in Ha. destruct Ha as (Ts1 & I1 & K1 & S1 & O1).
  pose proof (addVertex_spec v1 st1) as Hb.
  destruct (addVertex (vert v1) (tex v1) (norm v1) st1) as [st2 b].
  cbn [fst snd] in Hb. destruct Hb as (Ts2 & I2 & K2 & S2 & O2).
  pose proof (addVertex_spec v2 st2) as Hc.
  destruct (addVertex (vert v2) (tex v2) (norm v2) st2) as [st3 c].
  cbn [fst snd] in Hc. destruct Hc as (Ts3 & I3 & K3 & S3 & O3).
  pose proof (same_tables_trans _ _ _ Ts1 Ts2) as Ts12.
  pose proof (same_tables_trans _ _ _ Ts12 Ts3) as Ts13.
  rewrite (same_tables_resolved _ _ _ Ts1) in K2.
  rewrite (same_tables_resolved _ _ _ Ts12) in K3.
  destruct Htr as [Hok Hf].
  split.
  - destruct Ts13 as (?&?&?&?&?). by repeat split.
  - split; [apply O3, O2, O1, Hok|]. simpl.
    rewrite I3, I2, I1. apply Forall2_app.
    + eapply Forall2_impl; [exact Hf|]. simpl. intros r j Hr.
      eapply lookup_weaken; [|exact S3].
      eapply lookup_weaken; [|exact S2].
      by eapply lookup_weaken.
    + repeat constructor; simpl; [| |done].
      * eapply lookup_weaken; [|exact S3]. by eapply lookup_weaken.
      * by eapply lookup_weaken.
Qed.

Lemma fan_lookups {A} (vs : list A) I :
  In I (seq 1 (length vs - 2)) ->
  exists v0 v1 v2, vs !! 0%nat = Some v0 /\ vs !! I = Some v1 /\ vs !! (I + 1)%nat = Some v2.
Proof.
  intros [H1 H2]%in_seq.
  destruct (lookup_lt_is_Some_2 vs 0%nat) as [v0 ?]; [lia|].
  destruct (lookup_lt_is_Some_2 vs I) as [v1 ?]; [lia|].
  destruct (lookup_lt_is_Some_2 vs (I + 1)%nat) as [v2 ?]; [lia|].
  eauto 6.
Qed.

Lemma fan_length {A} (vs : list A) : length (fan vs) = (3 * (length vs - 2))%nat.
Proof.
  unfold fan.
  assert (H : forall l, (forall I, In I l -> In I (seq 1 (length vs - 2))) ->
    length (flat_map (fun I => match vs !! 0%nat, vs !! I, vs !! (I + 1)%nat with
                               | Some c0, Some c1, Some c2 => [c0; c1; c2]
                               | _, _, _ => []
                               end) l) = (3 * length l)%nat).
  { induction l as [|I l IH]; intros Hl; [done|]. simpl.
    rewrite length_app, IH by (intros; apply Hl; by right).
    destruct (fan_lookups vs I) as (v0&v1&v2&->&->&->); [apply Hl; by left|].
    simpl. lia. }
  rewrite H by done. by rewrite length_seq.
Qed.

Lemma triangulate_spec vs st rs :
  traced st rs ->
  same_tables st (triangulate vs st) /\
  traced (triangulate vs st) (rs ++ map (mkref st) (fan vs)).
Proof.
  unfold triangulate, fan.
  assert (H : forall l, (forall I, In I l -> In I (seq 1 (length vs - 2))) ->
    forall st' rs', same_tables st st' -> traced st' rs' ->
    same_tables st (fold_left (triangle vs) l st') /\
    traced (fold_left (triangle vs) l st')
      (rs' ++ map (mkref st)
         (flat_map (fun I => match vs !! 0%nat, vs !! I, vs !! (I + 1)%nat with
                             | Some c0, Some c1, Some c2 => [c0; c1; c2]
                             | _, _, _ => []
                             end) l))).
  { induction l as [|I l IH]; intros Hl st' rs' Hs Ht; cbn [fold_left flat_map].
    - by rewrite app_nil_r.
    - destruct (fan_lookups vs I) as (v0&v1&v2&E0&E1&E2); [apply Hl; by left|].
      destruct (triangle_spec vs st' I v0 v1 v2 rs' E0 E1 E2 Ht) as [Hs' Ht'].
      rewrite E0, E1, E2.
      destruct (IH (fun J HJ => Hl J (or_intror HJ)) _ _
                   (same_tables_trans _ _ _ Hs Hs') Ht') as [Hs'' Ht''].
      split; [done|].
      rewrite map_app, app_assoc.
      replace (map (mkref st) [v0; v1; v2]) with (map (mkref st') [v0; v1; v2]); [by rewrite E0 in Ht''|].
      unfold mkref. simpl. by rewrite !(same_tables_resolved _ _ _ Hs). }
  intros Ht. apply H; [done|apply same_tables_refl|done].
Qed.

(** *** Lines *)

Lemma process_line_words st line :
  process_line st line =
  match record_words line with
  | cmd :: args => command cmd args st
  | [] => st
  end.
Proof.
  unfold process_line, record_words.
  by destruct (String.eqb (trim line) "" || startsWith "#" (trim line)).
Qed.

(** The directive of a line, by cases. *)
Ltac by_command cmd :=
  unfold command;
  destruct (String.eqb_spec cmd "v") as [->|_];
  [|destruct (String.eqb_spec cmd "vt") as [->|_];
    [|destruct (String.eqb_spec cmd "vn") as [->|_];
      [|destruct (String.eqb_spec cmd "usemtl") as [->|_];
        [|destruct (String.eqb_spec cmd "f") as [->|_]]]]].

Lemma mkref_startGeometry m st c : mkref (startGeometry m st) c = mkref st c.
Proof. done. Qed.

Lemma traced_startGeometry m st rs : traced st rs -> traced (startGeometry m st) rs.
Proof. intros [[??] ?]. by repeat split. Qed.

Lemma mkref_face_state st : mkref (face_state st) = mkref st.
Proof. unfold face_state. by destruct (geometry st). Qed.

Lemma traced_face_state st rs : traced st rs -> traced (face_state st) rs.
Proof. unfold face_state. destruct (geometry st); [done|apply traced_startGeometry]. Qed.

Lemma process_line_traced st line rs :
  traced st rs -> traced (process_line st line) (rs ++ line_refs st line).
Proof.
  intros Ht. rewrite process_line_words. unfold line_refs, face_record.
  destruct (record_words line) as [|cmd args]; [by rewrite app_nil_r|].
  by_command cmd; simpl; rewrite ?app_nil_r;
    try (destruct Ht as [[??] ?]; by repeat split).
  fold (face_state st).
  destruct (triangulate_spec (map parse_corner args) _ _ (traced_face_state _ _ Ht))
    as [_ H].
  by rewrite mkref_face_state in H.
Qed.

Lemma traced_init : traced init [].
Proof. repeat split; simpl; try done; intros *; by rewrite lookup_empty. Qed.

Lemma process_lines_traced lines st rs :
  traced st rs -> traced (process_lines lines st) (rs ++ refs_from st lines).
Proof.
  revert st rs. induction lines as [|line lines IH]; intros st rs Ht; simpl.
  - by rewrite app_nil_r.
  - rewrite app_assoc. apply IH. by apply process_line_traced.
Qed.

(** The indices of a document are the indices of its references. *)
Lemma parse_traced text :
  traced (process_lines (lines_of text) init) (refs text).
Proof. apply (process_lines_traced _ init []), traced_init. Qed.

Lemma line_refs_length st line :
  length (line_refs st line) =
  match face_record line with
  | Some args => (3 * (length args - 2))%nat
  | None => 0%nat
  end.
Proof.
  unfold line_refs. destruct (face_record line); [|done].
  by rewrite length_map, fan_length, length_map.
Qed.

Lemma refs_from_length st lines :
  length (refs_from st lines) =
  (3 * list_sum (map (fun args => length args - 2)%nat (faces lines)))%nat.
Proof.
  revert st. induction lines as [|line lines IH]; intros st; simpl; [done|].
  rewrite length_app, IH, line_refs_length. unfold faces. simpl.
  destruct (face_record line); simpl; lia.
Qed.

(** *** Sections *)

Lemma partitions_snoc a gs b g :
  partitions a gs b -> startIndex g = b -> 0 < indexCount g ->
  partitions a (gs ++ [g]) (b + indexCount g).
Proof.
  revert a. induction gs as [|g' gs IH]; intros a; simpl.
  - intros -> ??. done.
  - intros (?&?&?) ??. auto.
Qed.

Lemma close_geometry_partitions st :
  spans_ok st ->
  partitions 0 (close_geometry st) (Z.of_nat (length (indices st))).
Proof.
  intros (Hp & Hle & Hnone). unfold close_geometry, open_start in *.
  destruct (geometry st) as [g|].
  - destruct (Z.ltb_spec 0 (Z.of_nat (length (indices st)) - startIndex g)).
    + replace (Z.of_nat (length (indices st)))
        with (startIndex g + (Z.of_nat (length (indices st)) - startIndex g)) at 2 by lia.
      by apply (partitions_snoc 0 _ _
        {| material := material g; startIndex := startIndex g;
           indexCount := Z.of_nat (length (indices st)) - startIndex g |}).
    + by replace (Z.of_nat (length (indices st))) with (startIndex g) by lia.
  - by rewrite Hnone.
Qed.

Lemma spans_ok_startGeometry m st : spans_ok st -> spans_ok (startGeometry m st).
Proof.
  intros H. unfold spans_ok, open_start. simpl.
  split_and!; [by apply close_geometry_partitions|lia|done].
Qed.

Lemma spans_ok_face_state st : spans_ok st -> spans_ok (face_state st).
Proof.
  unfold face_state. destruct (geometry st); [done|apply spans_ok_startGeometry].
Qed.

Lemma face_state_open st : geometry (face_state st) <> None.
Proof. unfold face_state. by destruct (geometry st) eqn:E; [rewrite E|]. Qed.

Lemma traced_length st rs : traced st rs -> length (indices st) = length rs.
Proof. intros [_ H]. symmetry. by eapply Forall2_length. Qed.

Lemma spans_ok_triangulate vs st rs :
  traced st rs -> geometry st <> None -> spans_ok st -> spans_ok (triangulate vs st).
Proof.
  intros Ht Hopen (Hp & Hle & _).
  destruct (triangulate_spec vs st rs Ht) as [(_&_&_&Hgs&Hg) Ht'].
  apply traced_length in Ht, Ht'. rewrite length_app in Ht'.
  unfold spans_ok, open_start. rewrite Hgs, Hg.
  split_and!; [done| |by intros ?]. unfold open_start in Hle. lia.
Qed.

Lemma process_line_spans st line rs :
  traced st rs -> spans_ok st -> spans_ok (process_line st line).
Proof.
  intros Ht Hs. rewrite process_line_words.
  destruct (record_words line) as [|cmd args]; [done|].
  by_command cmd; try done.
  - by apply spans_ok_startGeometry.
  - fold (face_state st).
    eapply spans_ok_triangulate;
      eauto using traced_face_state, face_state_open, spans_ok_face_state.
Qed.

Lemma spans_ok_init : spans_ok init.
Proof. by repeat split. Qed.

Lemma process_lines_spans lines st rs :
  traced st rs -> spans_ok st -> spans_ok (process_lines lines st).
Proof.
  revert st rs. induction lines as [|line lines IH]; intros st rs Ht Hs; [done|].
  simpl. eapply IH; eauto using process_line_traced, process_line_spans.
Qed.

(** *** The order of the sections *)

Lemma close_geometry_sections st :
  map material (close_geometry st) `sublist_of` sections st.
Proof.
  unfold close_geometry, sections. destruct (geometry st) as [g|]; simpl.
  - destruct (0 <? _).
    + by rewrite map_app.
    + by apply sublist_inserts_r.
  - by rewrite app_nil_r.
Qed.

Lemma sections_startGeometry m st :
  sections (startGeometry m st) `sublist_of` sections st ++ [m].
Proof.
  unfold sections at 1. simpl.
  apply sublist_app; [apply close_geometry_sections|done].
Qed.

Lemma sections_triangulate vs st rs :
  traced st rs ->
  sections (triangulate vs st) = sections st /\
  is_open (triangulate vs st) = is_open st.
Proof.
  intros Ht. destruct (triangulate_spec vs st rs Ht) as [(_&_&_&Hgs&Hg) _].
  unfold sections, is_open. by rewrite Hgs, Hg.
Qed.

Lemma process_line_sections st line rs :
  traced st rs ->
  sections (process_line st line) ++ opened_from (is_open (process_line st line)) []
    `sublist_of` sections st ++ opened_from (is_open st) [line] /\
  forall rest,
    opened_from (is_open st) (line :: rest)
    = opened_from (is_open st) [line]
        ++ opened_from (is_open (process_line st line)) rest.
Proof.
  intros Ht. rewrite process_line_words. cbn [opened_from].
  destruct (record_words line) as [|cmd args]; [by rewrite !app_nil_r|].
  by_command cmd; simpl; rewrite ?app_nil_r; try done.
  - split; [apply sections_startGeometry|done].
  - fold (face_state st).
    destruct (sections_triangulate (map parse_corner args) _ _
                (traced_face_state _ _ Ht)) as [-> ->].
    unfold face_state. destruct (geometry st) as [g|] eqn:E; unfold is_open.
    + rewrite E. by rewrite app_nil_r.
    + rewrite E. simpl. split; [apply sections_startGeometry|done].
Qed.

Lemma process_lines_sections lines st rs :
  traced st rs ->
  sections (process_lines lines st)
    `sublist_of` sections st ++ opened_from (is_open st) lines.
Proof.
  revert st rs. induction lines as [|line lines IH]; intros st rs Ht.
  - simpl. by rewrite app_nil_r.
  - destruct (process_line_sections st line rs Ht) as [H1 H2].
    rewrite H2. cbn [process_lines fold_left].
    etrans; [eapply IH, process_line_traced, Ht|].
    rewrite app_assoc. apply sublist_app; [|done].
    cbn [opened_from] in H1. by rewrite app_nil_r in H1.
Qed.

(** *** The arrays of declared records *)

Lemma process_line_arrays st line rs :
  traced st rs ->
  positions (process_line st line)
    = (positions st ++ option_list (position_record line))%list /\
  texcoords (process_line st line)
    = (texcoords st ++ option_list (texcoord_record line))%list /\
  normals (process_line st line)
    = (normals st ++ option_list (normal_record line))%list.
Proof.
  intros Ht. rewrite process_line_words.
  unfold position_record, texcoord_record, normal_record.
  destruct (record_words line) as [|cmd args]; [by rewrite !app_nil_r|].
  by_command cmd; simpl; rewrite ?app_nil_r; try done.
  fold (face_state st).
  destruct (triangulate_spec (map parse_corner args) _ _ (traced_face_state _ _ Ht))
    as [(->&->&->&_) _].
  unfold face_state. by destruct (geometry st).
Qed.

Lemma process_lines_arrays lines st rs :
  traced st rs ->
  positions (process_lines lines st) = (positions st ++ declared_positions lines)%list /\
  texcoords (process_lines lines st) = (texcoords st ++ declared_texcoords lines)%list /\
  normals (process_lines lines st) = (normals st ++ declared_normals lines)%list.
Proof.
  revert st rs. induction lines as [|line lines IH]; intros st rs Ht; simpl.
  - by rewrite !app_nil_r.
  - destruct (IH _ _ (process_line_traced _ line _ Ht)) as (->&->&->).
    destruct (process_line_arrays st line rs Ht) as (->&->&->).
    rewrite <- !app_assoc.
    unfold declared_positions, declared_texcoords, declared_normals. simpl.
    by destruct (position_record line), (texcoord_record line), (normal_record line).
Qed.

(** Relative addressing in an array that starts with its sentinel. *)
Lemma resolve_negative {A} (sentinel : A) (declared : list A) (k : nat) :
  (1 <= k <= length declared)%nat ->
  resolve_index (length (sentinel :: declared)) (Some (- Z.of_nat k))
    = Some (Z.of_nat (length declared) + 1 - Z.of_nat k) /\
  array_get (sentinel :: declared)
      (resolve_index (length (sentinel :: declared)) (Some (- Z.of_nat k)))
    = kth_most_recent declared k.
Proof.
  intros Hk. unfold resolve_index, array_get, kth_most_recent.
  destruct (Z.ltb_spec 0 (- Z.of_nat k)); [lia|].
  split; [f_equal; simpl length; lia|].
  destruct (Z.ltb_spec (Z.of_nat (length (sentinel :: declared)) + - Z.of_nat k) 0);
    [simpl length in *; lia|].
  replace (Z.to_nat (Z.of_nat (length (sentinel :: declared)) + - Z.of_nat k))
    with (S (length declared - k)) by (simpl length; lia).
  simpl. rewrite reverse_lookup by lia. f_equal. lia.
Qed.

End ObjFacts.

(** Facts about binary64 comparison and rounding, from the specification of
    the primitive operations. *)
Module FloatFacts.
Import JS CameraSpec.

Lemma Prim2SF_nan x : Prim2SF x = S754_nan <-> is_nan x = true.
Proof.
  unfold Prim2SF. destruct (is_nan x); [done|].
  split; [|done].
  destruct (is_zero x); [done|]. destruct (is_infinity x); [done|].
  destruct (Z.frexp x) as [r e]. destruct (shr_fexp _ _ _ _ _) as [mrs e'].
  by destruct (shr_m mrs).
Qed.

Lemma not_nan_Prim2SF x : is_nan x = false <-> Prim2SF x <> S754_nan.
Proof. rewrite Prim2SF_nan. by destruct (is_nan x). Qed.

Lemma not_nan_Prim2SF' x : sf_is_nan (Prim2SF x) = false <-> is_nan x = false.
Proof.
  rewrite not_nan_Prim2SF. by destruct (Prim2SF x).
Qed.

Lemma SFcompare_refl s : s <> S754_nan -> SFcompare s s = Some Eq.
Proof.
  destruct s as [[]|[]| |[] m e]; simpl; try done;
    intros _; rewrite Z.compare_refl;
    change (Pos.compare_cont Eq m m) with (Pos.compare m m);
    by rewrite Pos.compare_refl.
Qed.

Lemma SFcompare_antisym a b :
  SFcompare b a = option_map CompOpp (SFcompare a b).
Proof.
  destruct a as [[]|[]| |[] m1 e1], b as [[]|[]| |[] m2 e2]; simpl; try done;
    rewrite (Z.compare_antisym e1 e2); destruct (e1 ?= e2)%Z; simpl; try done;
    change (Pos.compare_cont Eq ?p ?q) with (Pos.compare p q);
    rewrite (Pos.compare_antisym m1 m2); by destruct (m1 ?= m2)%positive.
Qed.

Lemma SFcompare_None a b :
  SFcompare a b = None -> a = S754_nan \/ b = S754_nan.
Proof.
  destruct a as [[]|[]| |[] m1 e1], b as [[]|[]| |[] m2 e2]; simpl; auto; discriminate.
Qed.

Lemma compare_flip x y : (y ?= x)%float = flip (x ?= y)%float.
Proof.
  rewrite !FloatAxioms.compare_spec, SFcompare_antisym.
  by destruct (SFcompare (Prim2SF x) (Prim2SF y)) as [[]|].
Qed.

Lemma compare_refl x : is_nan x = false -> (x ?= x)%float = FEq.
Proof.
  intros H%not_nan_Prim2SF. by rewrite FloatAxioms.compare_spec, SFcompare_refl.
Qed.

Lemma compare_NC x y :
  (x ?= y)%float = FNotComparable -> is_nan x = true \/ is_nan y = true.
Proof.
  rewrite FloatAxioms.compare_spec, <- !Prim2SF_nan.
  destruct (SFcompare (Prim2SF x) (Prim2SF y)) as [[]|] eqn:E; try done.
  intros _. by apply SFcompare_None.
Qed.

Lemma fle_compare x y :
  fle x y <-> (x ?= y)%float = FLt \/ (x ?= y)%float = FEq.
Proof.
  unfold fle. rewrite FloatAxioms.leb_spec, FloatAxioms.compare_spec. unfold SFleb.
  destruct (SFcompare (Prim2SF x) (Prim2SF y)) as [[]|]; simpl;
    (split; [by (left + right)|by intros [|]]) || (split; [done|by intros [|]]).
Qed.

Lemma fle_not_nan x y : fle x y -> is_nan x = false /\ is_nan y = false.
Proof.
  unfold fle. rewrite FloatAxioms.leb_spec, <- !not_nan_Prim2SF'. unfold SFleb.
  by destruct (Prim2SF x) as [[]|[]| |[] ? ?], (Prim2SF y) as [[]|[]| |[] ? ?].
Qed.

Lemma fle_refl x : is_nan x = false -> fle x x.
Proof. intros H. apply fle_compare. right. by apply compare_refl. Qed.

(** [Math.min(hi, x)] is one of its arguments and at most [hi]. *)
Lemma Math_min_spec hi x :
  is_nan hi = false -> is_nan x = false ->
  is_nan (Math_min hi x) = false /\ fle (Math_min hi x) hi.
Proof.
  intros Hhi Hx. unfold Math_min.
  pose proof (compare_flip hi x) as Hflip.
  pose proof (compare_NC hi x) as HNC.
  destruct (hi ?= x)%float.
  - destruct (get_sign hi).
    + split; [done|by apply fle_refl].
    + split; [done|]. apply fle_compare. by right.
  - split; [done|by apply fle_refl].
  - split; [done|]. apply fle_compare. by left.
  - destruct HNC; congruence.
Qed.

(** [Math.max(lo, m)] is one of its arguments and at least [lo]. *)
Lemma Math_max_spec lo m :
  is_nan lo = false -> is_nan m = false ->
  fle lo (Math_max lo m) /\ (Math_max lo m = lo \/ Math_max lo m = m).
Proof.
  intros Hlo Hm. unfold Math_max.
  pose proof (compare_NC lo m) as HNC.
  destruct (lo ?= m)%float eqn:E.
  - destruct (get_sign lo).
    + split; [|by right]. apply fle_compare. by right.
    + split; [by apply fle_refl|by left].
  - split; [|by right]. apply fle_compare. by left.
  - split; [by apply fle_refl|by left].
  - destruct HNC; congruence.
Qed.

(** The clamp of a number is in the range. *)
Lemma clamp_within lo hi x :
  fle lo hi -> is_nan x = false ->
  fle lo (Math_max lo (Math_min hi x)) /\ fle (Math_max lo (Math_min hi x)) hi.
Proof.
  intros Hle Hx. destruct (fle_not_nan _ _ Hle) as [Hlo Hhi].
  destruct (Math_min_spec hi x Hhi Hx) as [Hm Hmhi].
  destruct (Math_max_spec lo _ Hlo Hm) as [Hlor [E|E]]; rewrite E in *; by split.
Qed.

(** *** Rounding never gives NaN *)

Lemma shr_1_nonneg mrs : 0 <= shr_m mrs -> 0 <= shr_m (shr_1 mrs).
Proof. destruct mrs as [[|[]|[]] r s]; simpl; lia. Qed.

Lemma iter_pos_nonneg p mrs :
  0 <= shr_m mrs -> 0 <= shr_m (SpecFloat.iter_pos shr_1 p mrs).
Proof.
  revert mrs. induction p as [p IH|p IH|]; intros mrs H; simpl;
    auto using shr_1_nonneg.
Qed.

Lemma shr_fexp_nonneg m e l :
  0 <= m -> 0 <= shr_m (shr_fexp prec emax m e l).1.
Proof.
  intros H. unfold shr_fexp, shr.
  assert (0 <= shr_m (shr_record_of_loc m l)) by (by destruct l as [|[]]).
  destruct (fexp prec emax (Zdigits2 m + e) - e); simpl; auto using iter_pos_nonneg.
Qed.

Lemma round_nearest_even_nonneg m l : 0 <= m -> 0 <= round_nearest_even m l.
Proof. intros H. destruct l as [|[]]; simpl; try done; [destruct (Z.even m)|]; lia. Qed.

Lemma binary_round_aux_not_nan sx mx ex lx :
  0 <= mx -> binary_round_aux prec emax sx mx ex lx <> S754_nan.
Proof.
  intros H. unfold binary_round_aux.
  pose proof (shr_fexp_nonneg mx ex lx H) as H1.
  destruct (shr_fexp prec emax mx ex lx) as [mrs' e']. simpl in H1.
  pose proof (shr_fexp_nonneg _ e' loc_Exact
                (round_nearest_even_nonneg _ (loc_of_shr_record mrs') H1)) as H2.
  destruct (shr_fexp prec emax (round_nearest_even _ _) e' loc_Exact) as [mrs'' e''].
  simpl in H2. destruct (shr_m mrs''); [done| |lia].
  by destruct (e'' <=? emax - prec).
Qed.

Lemma binary_normalize_not_nan m e szero :
  binary_normalize prec emax m e szero <> S754_nan.
Proof.
  unfold binary_normalize, binary_round.
  destruct m as [|p|p]; [done|..];
    destruct (shl_align _ _ _); by apply binary_round_aux_not_nan.
Qed.

Lemma SFmul_not_nan a s m e :
  a <> S754_nan -> SFmul prec emax a (S754_finite s m e) <> S754_nan.
Proof.
  destruct a as [?|?| |? ma ea]; simpl; try done.
  intros _. by apply binary_round_aux_not_nan.
Qed.

Lemma SFadd_not_nan a b :
  sf_finite a -> b <> S754_nan -> SFadd prec emax a b <> S754_nan.
Proof.
  destruct a as [[]|?| |? ma ea], b as [[]|?| |? mb eb]; simpl; try done;
    intros _ _; apply binary_normalize_not_nan.
Qed.

(** A number times a finite number that is not zero is a number. *)
Lemma mul_not_nan x y s m e :
  is_nan x = false -> Prim2SF y = S754_finite s m e -> is_nan (x * y)%float = false.
Proof.
  rewrite !not_nan_Prim2SF, mul_spec. intros Hx ->. by apply SFmul_not_nan.
Qed.

(** A finite number plus a number is a number. *)
Lemma add_not_nan x y :
  sf_finite (Prim2SF x) -> is_nan y = false -> is_nan (x + y)%float = false.
Proof.
  rewrite !not_nan_Prim2SF, add_spec. apply SFadd_not_nan.
Qed.

(** A number between two finite numbers is finite. *)
Lemma between_finite lo hi x :
  sf_finite (Prim2SF lo) -> sf_finite (Prim2SF hi) -> fle lo x -> fle x hi ->
  sf_finite (Prim2SF x).
Proof.
  unfold fle. rewrite !FloatAxioms.leb_spec. unfold SFleb.
  by destruct (Prim2SF lo) as [[]|[]| |[] ? ?], (Prim2SF hi) as [[]|[]| |[] ? ?],
    (Prim2SF x) as [[]|[]| |[] ? ?].
Qed.

End FloatFacts.
(* ===================================================================== *)
(** ** Facts about binary32 rounding *)
(* ===================================================================== *)

Module Binary32Facts.
Import Shader ShaderSpec.
Local Open Scope Z_scope.

Lemma digits2_size m : digits2_pos m = Pos.size m.
Proof. induction m as [m IH|m IH|]; simpl; by rewrite ?IH. Qed.

Lemma digits2_bounds m :
  2 ^ (Zpos (digits2_pos m) - 1) <= Zpos m < 2 ^ Zpos (digits2_pos m).
Proof.
  rewrite digits2_size.
  assert (H : Zpos (Pos.size m) = Z.log2 (Zpos m) + 1).
  { destruct m; simpl; rewrite ?Pos2Z.inj_succ; lia. }
  rewrite H. replace (Z.log2 (Z.pos m) + 1 - 1) with (Z.log2 (Z.pos m)) by lia.
  apply (Z.log2_spec (Zpos m)). lia.
Qed.

Lemma digits2_le m k : 0 <= k -> Zpos m < 2 ^ k -> Zpos (digits2_pos m) <= k.
Proof.
  intros Hk Hm. destruct (digits2_bounds m) as [Hlo _].
  destruct (Z.le_gt_cases (Zpos (digits2_pos m)) k) as [|Hgt]; [done|].
  assert (2 ^ k <= 2 ^ (Zpos (digits2_pos m) - 1)) by (apply Z.pow_le_mono_r; lia).
  lia.
Qed.

Lemma shr_1_spec mrs :
  0 <= shr_m mrs ->
  shr_m (shr_1 mrs) = shr_m mrs / 2 /\ shr_r (shr_1 mrs) = Z.odd (shr_m mrs).
Proof.
  destruct mrs as [[|[m|m|]|m] r s]; simpl; intros H; try lia; split; try done.
  - rewrite Pos2Z.inj_xI. apply Z.div_unique with 1; lia.
  - rewrite Pos2Z.inj_xO. apply Z.div_unique with 0; lia.
Qed.

Lemma iter_shr_spec p mrs :
  0 <= shr_m mrs ->
  shr_m (SpecFloat.iter_pos shr_1 p mrs) = shr_m mrs / 2 ^ Zpos p /\
  shr_r (SpecFloat.iter_pos shr_1 p mrs) = Z.testbit (shr_m mrs) (Zpos p - 1).
Proof.
  revert mrs. induction p as [p IH|p IH|]; intros mrs H; cbn [SpecFloat.iter_pos].
  - destruct (shr_1_spec mrs H) as [M1 R1].
    assert (H1 : 0 <= shr_m (shr_1 mrs)) by (rewrite M1; apply Z.div_pos; lia).
    destruct (IH _ H1) as [M2 R2].
    assert (H2 : 0 <= shr_m (SpecFloat.iter_pos shr_1 p (shr_1 mrs)))
      by (rewrite M2; apply Z.div_pos; [done|apply Z.pow_pos_nonneg; lia]).
    destruct (IH _ H2) as [M3 R3].
    rewrite M3, R3, M2, M1. split.
    + rewrite !Z.div_div by (try apply Z.pow_pos_nonneg; lia).
      f_equal. rewrite <- Z.pow_add_r by lia.
      rewrite <- (Z.pow_succ_r 2) by lia. f_equal. lia.
    + rewrite Z.div_pow2_bits by lia.
      replace (shr_m mrs / 2) with (shr_m mrs / 2 ^ 1) by done.
      rewrite Z.div_pow2_bits by lia. f_equal. lia.
  - destruct (IH _ H) as [M2 R2].
    assert (H2 : 0 <= shr_m (SpecFloat.iter_pos shr_1 p mrs))
      by (rewrite M2; apply Z.div_pos; [done|apply Z.pow_pos_nonneg; lia]).
    destruct (IH _ H2) as [M3 R3].
    rewrite M3, R3, M2. split.
    + rewrite !Z.div_div by (try apply Z.pow_pos_nonneg; lia).
      f_equal. rewrite <- Z.pow_add_r by lia. f_equal. lia.
    + rewrite Z.div_pow2_bits by lia. f_equal. lia.
  - destruct (shr_1_spec mrs H) as [M1 R1]. rewrite M1, R1. split; [done|].
    by rewrite Z.bit0_odd.
Qed.

Lemma testbit_mod a k :
  0 <= k -> Z.testbit a k = true -> 2 ^ k <= a mod 2 ^ (k + 1).
Proof.
  intros Hk Hb. apply (Z.testbit_true a k Hk) in Hb.
  assert (Hp : 0 < 2 ^ k) by (apply Z.pow_pos_nonneg; lia).
  rewrite Z.pow_add_r, Z.pow_1_r by lia.
  rewrite Z.rem_mul_r, Hb by lia.
  pose proof (Z.mod_pos_bound a (2 ^ k) Hp). lia.
Qed.

Lemma round_bounds m r s :
  let m' := round_nearest_even m
              (loc_of_shr_record {| shr_m := m; shr_r := r; shr_s := s |}) in
  m <= m' <= m + (if r then 1 else 0).
Proof. destruct r, s; simpl; try destruct (Z.even m); lia. Qed.

Lemma iter_xO m d : Zpos (Pos.iter xO m d) = Zpos m * 2 ^ Zpos d.
Proof.
  apply (Pos.iter_ind _ xO m (fun p a => Zpos a = Zpos m * 2 ^ Zpos p)).
  - rewrite Pos2Z.inj_xO. lia.
  - intros p a IH. rewrite Pos2Z.inj_xO, IH, Pos2Z.inj_succ, Z.pow_succ_r by lia. lia.
Qed.

(** The overflow threshold of binary32 is 2^128 - 2^103, which is
    [(2 ^ 25 - 1) * 2 ^ 252] in units of 2^-149: a number below it is
    rounded to a finite number. *)

Lemma fexp_le E : E <= 128 -> fexp 24 128 E <= 104.
Proof. unfold fexp, emin. lia. Qed.

Lemma fexp_ge E : -149 <= fexp 24 128 E.
Proof. unfold fexp, emin. lia. Qed.

Lemma below_digits m e k :
  -149 <= e -> e <= k -> Zpos m * 2 ^ (e + 149) < 2 ^ (k + 149) ->
  Zpos (digits2_pos m) + e <= k.
Proof.
  intros He Hk H.
  assert (Zpos (digits2_pos m) <= k - e); [|lia].
  apply digits2_le; [lia|].
  replace (k + 149) with ((k - e) + (e + 149)) in H by lia.
  rewrite (Z.pow_add_r 2 (k - e) (e + 149)) in H by lia.
  apply Z.mul_lt_mono_pos_r in H; [done|]. apply Z.pow_pos_nonneg; lia.
Qed.

Lemma round_aux_finite sx mz ez :
  -149 <= ez ->
  ez <= fexp 24 128 (Zpos (digits2_pos mz) + ez) ->
  Zpos mz * 2 ^ (ez + 149) < (2 ^ 25 - 1) * 2 ^ 252 ->
  finite32 (binary_round_aux 24 128 sx (Zpos mz) ez loc_Exact) = true.
Proof.
  intros Hez Hfe Hv.
  assert (HT : (2 ^ 25 - 1) * 2 ^ 252 < 2 ^ (128 + 149)) by done.
  set (E := Zpos (digits2_pos mz) + ez) in *.
  assert (HE : E <= 128).
  { unfold E.
    assert (ez <= 128).
    { destruct (Z.le_gt_cases ez 128) as [|Hgt]; [done|].
      assert (2 ^ (128 + 149) <= 2 ^ (ez + 149)) by (apply Z.pow_le_mono_r; lia).
      nia. }
    apply below_digits; [done|done|lia]. }
  pose proof (fexp_le E HE) as Hf.
  unfold binary_round_aux, shr_fexp. cbn [Zdigits2 shr_record_of_loc]. fold E.
  unfold shr at 1.
  destruct (fexp 24 128 E - ez) as [|p|p] eqn:En; [| |lia].
  - (* no shift *)
    cbn [shr_m loc_of_shr_record round_nearest_even Zdigits2 shr_record_of_loc].
    fold E. rewrite En. cbn [shr shr_m].
    assert ((ez <=? 128 - 24) = true) as -> by (apply Z.leb_le; lia). done.
  - (* a shift by p *)
    set (mrs := {| shr_m := Z.pos mz; shr_r := false; shr_s := false |}).
    destruct (iter_shr_spec p mrs ltac:(done)) as [Hm Hr].
    cbn [shr_m mrs] in Hm, Hr.
    destruct (SpecFloat.iter_pos shr_1 p mrs) as [m' r' s'] eqn:Ei.
    cbn [shr_m shr_r] in Hm, Hr. cbn [shr_m].
    pose proof (round_bounds m' r' s') as Hrb. cbv zeta in Hrb.
    set (mr := round_nearest_even m' _) in *.
    set (e' := ez + Z.pos p) in *.
    assert (He' : e' = fexp 24 128 E) by (unfold e'; lia).
    assert (Hp2 : 0 < 2 ^ Z.pos p) by (apply Z.pow_pos_nonneg; lia).
    assert (Hm0 : 0 <= m') by (rewrite Hm; apply Z.div_pos; lia).
    (* the rounded mantissa is at most half a unit above *)
    assert (Hhalf : mr * 2 ^ Z.pos p <= Z.pos mz + 2 ^ (Z.pos p - 1)).
    { pose proof (Z.div_mod (Z.pos mz) (2 ^ Z.pos p) ltac:(lia)) as Hdm.
      pose proof (Z.mod_pos_bound (Z.pos mz) (2 ^ Z.pos p) Hp2) as Hmod.
      rewrite <- Hm in Hdm.
      assert (0 < 2 ^ (Z.pos p - 1)) by (apply Z.pow_pos_nonneg; lia).
      destruct r'.
      - symmetry in Hr. apply testbit_mod in Hr; [|lia].
        replace (Z.pos p - 1 + 1) with (Z.pos p) in Hr by lia.
        assert (2 ^ Z.pos p = 2 * 2 ^ (Z.pos p - 1)).
        { rewrite <- Z.pow_succ_r by lia. f_equal. lia. }
        nia.
      - nia. }
    assert (Hbig : mr * 2 ^ (e' + 149) < 2 ^ (128 + 149)).
    { replace (e' + 149) with (Z.pos p + (ez + 149)) by (unfold e'; lia).
      rewrite (Z.pow_add_r 2 (Z.pos p) (ez + 149)) by lia.
      assert (Hq : 0 < 2 ^ (ez + 149)) by (apply Z.pow_pos_nonneg; lia).
      assert (Hh : 2 ^ (Z.pos p - 1) * 2 ^ (ez + 149) <= 2 ^ 252).
      { rewrite <- (Z.pow_add_r 2 (Z.pos p - 1) (ez + 149)) by lia.
        apply Z.pow_le_mono_r; lia. }
      nia. }
    unfold shr_fexp. cbn [shr_record_of_loc].
    destruct mr as [|q|q] eqn:Emr; [| |lia].
    + cbn [Zdigits2]. unfold shr.
      destruct (fexp 24 128 (0 + e') - e') as [|p2|p2] eqn:En2;
        [done| |done].
      pose proof (fexp_ge E). unfold fexp, emin in En2. lia.
    + cbn [Zdigits2]. unfold shr.
      assert (HE2 : Z.pos (digits2_pos q) + e' <= 128).
      { apply below_digits; [rewrite He'; apply fexp_ge|lia|done]. }
      pose proof (fexp_le _ HE2) as Hf2.
      destruct (fexp 24 128 (Z.pos (digits2_pos q) + e') - e') as [|p2|p2] eqn:En2.
      * cbn [shr_m]. assert ((e' <=? 128 - 24) = true) as -> by (apply Z.leb_le; lia). done.
      * destruct (iter_shr_spec p2 {| shr_m := Z.pos q; shr_r := false; shr_s := false |}
                    ltac:(done)) as [Hm2 _].
        cbn [shr_m] in Hm2. rewrite Hm2.
        assert (0 <= Z.pos q / 2 ^ Z.pos p2)
          by (apply Z.div_pos; [lia|apply Z.pow_pos_nonneg; lia]).
        destruct (Z.pos q / 2 ^ Z.pos p2); [done| |lia].
        assert ((e' + Z.pos p2 <=? 128 - 24) = true) as -> by (apply Z.leb_le; lia). done.
      * cbn [shr_m]. assert ((e' <=? 128 - 24) = true) as -> by (apply Z.leb_le; lia). done.
Qed.

Lemma digits2_iter_xO m d :
  digits2_pos (Pos.iter xO m d) = (digits2_pos m + d)%positive.
Proof.
  apply (Pos.iter_ind _ xO m (fun p a => digits2_pos a = (digits2_pos m + p)%positive)).
  - simpl. by rewrite Pos.add_1_r.
  - intros p a IH. simpl. by rewrite IH, Pos.add_succ_r.
Qed.

Lemma round_finite sx mx ex :
  -149 <= ex -> Zpos mx * 2 ^ (ex + 149) < (2 ^ 25 - 1) * 2 ^ 252 ->
  finite32 (binary_round 24 128 sx mx ex) = true.
Proof.
  intros Hex Hv. unfold binary_round, shl_align.
  set (E := Z.pos (digits2_pos mx) + ex).
  pose proof (fexp_ge E) as Hge.
  destruct (fexp 24 128 E - ex) as [|p|p] eqn:En.
  - apply round_aux_finite; [done| |done]. fold E. lia.
  - apply round_aux_finite; [done| |done]. fold E. lia.
  - assert (Hd : Z.pos (digits2_pos (Pos.iter xO mx p)) + fexp 24 128 E = E).
    { rewrite digits2_iter_xO, Pos2Z.inj_add. unfold E in *. lia. }
    apply round_aux_finite; [done|rewrite Hd; lia|].
    rewrite iter_xO, <- Z.mul_assoc.
    rewrite <- (Z.pow_add_r 2 (Z.pos p) (fexp 24 128 E + 149)) by lia.
    replace (Z.pos p + (fexp 24 128 E + 149)) with (ex + 149) by lia. done.
Qed.

Lemma normalize_finite M e sz :
  -149 <= e -> Z.abs M * 2 ^ (e + 149) < (2 ^ 25 - 1) * 2 ^ 252 ->
  finite32 (binary_normalize 24 128 M e sz) = true.
Proof.
  intros He Hv. destruct M as [|m|m]; [done|..]; by apply round_finite.
Qed.

Lemma shl_align_value mx ex ez :
  ez <= ex -> Zpos (shl_align mx ex ez).1 = Zpos mx * 2 ^ (ex - ez).
Proof.
  intros H. unfold shl_align.
  destruct (ez - ex) as [|p|p] eqn:E; [|lia|].
  - replace (ex - ez) with 0 by lia. cbn [fst]. lia.
  - cbn [fst]. rewrite iter_xO. do 2 f_equal. lia.
Qed.

Lemma valid_finite_bounds s m e :
  SpecFloat.valid_binary 24 128 (S754_finite s m e) = true ->
  -149 <= e <= 104 /\ Zpos m < 2 ^ 24.
Proof.
  unfold SpecFloat.valid_binary, bounded, canonical_mantissa, fexp, emin.
  intros [Hc He]%andb_true_iff. apply Z.eqb_eq in Hc. apply Z.leb_le in He.
  unfold fexp, emin in Hc.
  pose proof (digits2_bounds m) as [_ Hm].
  split; [lia|].
  eapply Z.lt_le_trans; [exact Hm|]. apply Z.pow_le_mono_r; lia.
Qed.

(** One minus a finite number is finite. *)
Lemma sub_one_finite x :
  SpecFloat.valid_binary 24 128 x = true -> finite32 x = true ->
  finite32 (sub (literal 1 0) x) = true.
Proof.
  change (literal 1 0) with (S754_finite false 8388608 (-23)). unfold sub.
  destruct x as [s|s| |s m e]; try done. intros Hv _.
  destruct (valid_finite_bounds s m e Hv) as [He Hm].
  cbn [SFsub].
  set (ez := Z.min (-23) e).
  assert (Hez : -149 <= ez <= -23) by (unfold ez; lia).
  apply normalize_finite; [lia|].
  rewrite !shl_align_value by (unfold ez; lia).
  set (A := Z.pos 8388608 * 2 ^ (-23 - ez)).
  set (B := Z.pos m * 2 ^ (e - ez)).
  assert (HA : A * 2 ^ (ez + 149) = 2 ^ 23 * 2 ^ 126).
  { unfold A. rewrite <- Z.mul_assoc, <- (Z.pow_add_r 2 (-23 - ez) (ez + 149)) by lia.
    replace (-23 - ez + (ez + 149)) with 126 by lia. done. }
  assert (HB : B * 2 ^ (ez + 149) = Z.pos m * 2 ^ (e + 149)).
  { unfold B. rewrite <- Z.mul_assoc, <- (Z.pow_add_r 2 (e - ez) (ez + 149)) by lia.
    do 2 f_equal. lia. }
  assert (HA0 : 0 < A) by (unfold A; apply Z.mul_pos_pos; [done|apply Z.pow_pos_nonneg; lia]).
  assert (HB0 : 0 < B) by (unfold B; apply Z.mul_pos_pos; [done|apply Z.pow_pos_nonneg; lia]).
  assert (Hq : 0 < 2 ^ (ez + 149)) by (apply Z.pow_pos_nonneg; lia).
  assert (Hle : 2 ^ (e + 149) <= 2 ^ 253) by (apply Z.pow_le_mono_r; lia).
  assert (Hmb : Z.pos m * 2 ^ (e + 149) <= (2 ^ 24 - 1) * 2 ^ 253).
  { assert (0 < 2 ^ (e + 149)) by (apply Z.pow_pos_nonneg; lia). nia. }
  assert (Habs : Z.abs (A - cond_Zopp s B) <= A + B) by (destruct s; simpl; lia).
  cbn [cond_Zopp]. fold A B.
  eapply Z.le_lt_trans; [apply Z.mul_le_mono_nonneg_r; [lia|exact Habs]|].
  rewrite Z.mul_add_distr_r, HA, HB.
  eapply Z.le_lt_trans; [apply Z.add_le_mono_l; exact Hmb|]. done.
Qed.

(** *** Zeros *)

Lemma sub_one_one : sub (literal 1 0) (literal 1 0) = S754_zero false.
Proof. reflexivity. Qed.

Lemma mul_zero_r t s : finite32 t = true -> zero32 (mul t (S754_zero s)) = true.
Proof. by destruct t. Qed.

Lemma mul_zero_l t u : zero32 t = true -> finite32 u = true -> zero32 (mul t u) = true.
Proof. by destruct t, u. Qed.

Lemma div_zero_PI t : zero32 t = true -> zero32 (div t PI) = true.
Proof. by destruct t. Qed.

Lemma add_zero_l t u : zero32 t = true -> same (add t u) u.
Proof.
  destruct t as [s| | |]; try done. intros _.
  destruct u as [s'|s'| |s' m e]; [|by left..].
  right. by destruct s, s'.
Qed.

Lemma same_mul t t' u : same t t' -> same (mul t u) (mul t' u).
Proof.
  intros [->|[Ht Ht']]; [by left|].
  destruct t as [s| | |], t' as [s'| | |]; try done.
  destruct u as [su|su| |su m e]; [right|left|left|right]; done.
Qed.

End Binary32Facts.

(* ===================================================================== *)
(** ** Properties of the mesh parser *)
(* ===================================================================== *)

Module ObjClaims.
Import JS OBJ ObjSpec ObjInv KeyFacts ObjFacts.
Local Open Scope list_scope.

Lemma sum_fans (fs : list (list string)) :
  Forall (fun k => 3 <= k) (map (fun args => Z.of_nat (length args)) fs) ->
  Z.of_nat (list_sum (map (fun args => length args - 2)%nat fs))
  = sum (map (fun k => k - 2) (map (fun args => Z.of_nat (length args)) fs)).
Proof.
  induction fs as [|args fs IH]; simpl; [done|].
  intros [Hk Hfs]%Forall_cons. rewrite Nat2Z.inj_add, IH by done. lia.
Qed.

(** C1.  For every document whose faces all have at least 3 corners, the
    number of triangles that [parseOBJ] emits (the length of [indices]
    divided by 3) is the sum over the face records of (corner count - 2);
    [indices] has exactly three entries per triangle, and its entries
    are the indices of the references of the fans (corner 0, corner I,
    corner I+1), I from 1 to k-2, of the faces in order. *)
Theorem triangle_count_is_sum_of_fans (text : string) :
  Forall (fun k => 3 <= k) (corner_counts text) ->
  triangle_count (parseOBJ text) = sum (map (fun k => k - 2) (corner_counts text)) /\
  Z.of_nat (length (obj_indices (parseOBJ text)))
    = 3 * sum (map (fun k => k - 2) (corner_counts text)) /\
  Forall2 (fun r i => vertexMap (process_lines (lines_of text) init)
                        !! key_of (resolved r) = Some i)
          (refs text) (obj_indices (parseOBJ text)).
Proof.
  intros Hk. pose proof (parse_traced text) as Ht.
  assert (Hlen : Z.of_nat (length (obj_indices (parseOBJ text)))
                 = 3 * sum (map (fun k => k - 2) (corner_counts text))).
  { change (obj_indices (parseOBJ text))
      with (indices (process_lines (lines_of text) init)).
    rewrite (traced_length _ _ Ht). unfold refs.
    rewrite refs_from_length, Nat2Z.inj_mul. f_equal.
    by apply sum_fans. }
  split_and!; [|done|apply Ht].
  unfold triangle_count. rewrite Hlen, Z.mul_comm. by apply Z.div_mul.
Qed.

Lemma triangle_count_witness :
  triangle_count (parseOBJ doc_quad) = sum (map (fun k => k - 2) (corner_counts doc_quad)) /\
  Z.of_nat (length (obj_indices (parseOBJ doc_quad)))
    = 3 * sum (map (fun k => k - 2) (corner_counts doc_quad)) /\
  Forall2 (fun r i => vertexMap (process_lines (lines_of doc_quad) init)
                        !! key_of (resolved r) = Some i)
          (refs doc_quad) (obj_indices (parseOBJ doc_quad)).
Proof.
  apply (triangle_count_is_sum_of_fans doc_quad).
  vm_compute. repeat constructor; discriminate.
Defined.

(** The end-to-end scenario of the specification. *)
Example parse_triangle :
  obj_indices (parseOBJ doc_triangle) = [0; 1; 2]%nat /\
  obj_geometries (parseOBJ doc_triangle)
    = [{| material := Some "default"; startIndex := 0; indexCount := 3 |}] /\
  length (obj_positions (parseOBJ doc_triangle)) = 9%nat.
Proof. by vm_compute. Qed.

(** C2, as amended.  Within a document, two face-corner references get
    the same output vertex index exactly when the triples they are
    resolved to are the same, where an index that is not positive is
    resolved by adding the length of its array at the place of the
    reference, and a missing component is resolved to NaN. *)
Theorem dedup_by_resolved_triple (text : string) (i j : nat) (ri rj : Ref) (oi oj : nat) :
  refs text !! i = Some ri -> refs text !! j = Some rj ->
  obj_indices (parseOBJ text) !! i = Some oi ->
  obj_indices (parseOBJ text) !! j = Some oj ->
  (resolved ri = resolved rj <-> oi = oj).
Proof.
  intros Hri Hrj Hoi Hoj.
  destruct (parse_traced text) as [[_ Hinj] Hf].
  change (obj_indices (parseOBJ text))
    with (indices (process_lines (lines_of text) init)) in *.
  pose proof (Forall2_lookup_lr _ _ _ _ _ _ Hf Hri Hoi) as Hi.
  pose proof (Forall2_lookup_lr _ _ _ _ _ _ Hf Hrj Hoj) as Hj.
  simpl in Hi, Hj. split.
  - intros Heq. rewrite Heq in Hi. congruence.
  - intros <-. by apply key_of_inj, (Hinj _ _ oi).
Qed.

Lemma dedup_by_resolved_triple_witness :
  resolved {| source := (Some 2, None, None); resolved := (Some 2, None, None) |}
    = resolved {| source := (Some (-3), None, None); resolved := (Some 2, None, None) |}
  <-> 1%nat = 1%nat.
Proof.
  apply (dedup_by_resolved_triple doc_quad 1 8); by vm_compute.
Defined.

(** C2, as stated, fails: identical source triples are resolved where
    they stand, so the relative reference [-1] gets a new index after a
    new position, and the distinct source triples [1] and [-1] are
    resolved to the same triple. *)
Lemma dedup_by_source_triple_fails :
  ~ same_source_same_index doc_same_source /\
  ~ distinct_source_distinct_index doc_distinct_source.
Proof.
  split; intros H.
  - assert (E : 0%nat = 1%nat); [|discriminate E].
    apply (H 0%nat 3%nat
             {| source := (Some (-1), None, None); resolved := (Some 1, None, None) |}
             {| source := (Some (-1), None, None); resolved := (Some 2, None, None) |});
      by vm_compute.
  - apply (H 0%nat 1%nat
             {| source := (Some 1, None, None); resolved := (Some 1, None, None) |}
             {| source := (Some (-1), None, None); resolved := (Some 1, None, None) |}
             0%nat 0%nat); by vm_compute.
Qed.

(** An empty component is read as 0, and 0 is resolved like a
    negative index, to the length of the array: the references [1//]
    before and after a texcoord get two indices. *)
Example empty_component_indices :
  map source (refs doc_empty_component)
    = replicate 6 (Some 1, Some 0, Some 0) /\
  map resolved (refs doc_empty_component)
    = (replicate 3 (Some 1, Some 1, Some 1) ++ replicate 3 (Some 1, Some 2, Some 1))%list /\
  obj_indices (parseOBJ doc_empty_component) = [0; 0; 0; 1; 1; 1]%nat.
Proof. by vm_compute. Qed.

(** C3.  The spans that [parseOBJ] returns are contiguous ranges that
    tile the interval from 0 to the number of indices, in increasing
    order, none of them empty; and their materials are, in the order of
    the document, materials of the sections that the document opens. *)
Theorem spans_partition_indices (text : string) :
  partitions 0 (obj_geometries (parseOBJ text))
             (Z.of_nat (length (obj_indices (parseOBJ text)))) /\
  map material (obj_geometries (parseOBJ text)) `sublist_of` opened text.
Proof.
  split.
  - apply close_geometry_partitions.
    eapply process_lines_spans; [apply traced_init|apply spans_ok_init].
  - change (obj_geometries (parseOBJ text))
      with (close_geometry (process_lines (lines_of text) init)).
    etrans; [apply close_geometry_sections|].
    apply (process_lines_sections _ init [] traced_init).
Qed.

(** The index -1 names the position declared last. *)
Example negative_one_is_last_position :
  array_get (positions (process_lines lines_two_positions init))
            (resolve_index (length (positions (process_lines lines_two_positions init)))
                           (Some (-1)))
  = Some [1; 2; 3]%float.
Proof. by vm_compute. Qed.

End ObjClaims.

(* ===================================================================== *)
(** ** Properties of the material parser and of the material resolver *)
(* ===================================================================== *)

Module MtlClaims.
Import JS MTL MtlSpec.

Lemma mtl_process_line_words st line :
  MTL.process_line st line =
  match record_words line with
  | keyword :: args =>
      match keywords keyword with
      | Some handler => handler args (join " " args) st
      | None => Ok st
      end
  | [] => Ok st
  end.
Proof.
  unfold MTL.process_line, record_words.
  by destruct (String.eqb (trim line) "" || startsWith "#" (trim line)).
Qed.

(** With a material open, the handlers of the table do not throw, and a
    material stays open. *)
Lemma handler_completes keyword handler args unparsed st :
  keywords keyword = Some handler -> among inherited_throwing keyword = false ->
  material st <> None ->
  exists st', handler args unparsed st = Ok st' /\ material st' <> None.
Proof.
  unfold keywords. intros Hk Hplain Hopen. rewrite Hplain in Hk.
  destruct (material st) as [k|] eqn:E; [clear Hopen|done].
  repeat (match type of Hk with
          | (if ?b then _ else _) = _ => destruct b
          end);
    simplify_eq; unfold assign; rewrite ?E; eauto.
  exists st. by rewrite E.
Qed.

Lemma process_line_completes st line :
  plain line -> material st <> None ->
  exists st', MTL.process_line st line = Ok st' /\ material st' <> None.
Proof.
  unfold plain. intros Hplain Hopen. rewrite mtl_process_line_words.
  destruct (record_words line) as [|keyword args]; [eauto|].
  destruct (keywords keyword) as [handler|] eqn:Hk; [|eauto].
  by eapply handler_completes.
Qed.

Lemma process_lines_complete lines st :
  Forall plain lines -> material st <> None ->
  exists st', MTL.process_lines st lines = Ok st'.
Proof.
  revert st. induction lines as [|line lines IH]; intros st Hlines Hopen; simpl;
    [eauto|].
  apply Forall_cons in Hlines as [Hline Hlines].
  destruct (process_line_completes st line Hline Hopen) as (st' & -> & Hopen'). eauto.
Qed.

(** C5, as amended.  For every span the defaults are applied property by
    property: when the name of the span is not in the mapping the
    resolved material is the default material; when it names a material
    object with only [Ns] set, to a value that is a number other than 0,
    the resolved material has that shininess and the default ambient,
    diffuse, specular, opacity and illum; and in general each of the six
    properties is the one of the material where it is set, and its
    default otherwise, whatever the other properties are. *)
Theorem material_defaults_field_by_field
    (mats : gmap string Material) (geom : OBJ.Geometry) (v : float) :
  truthy v = true ->
  let resolved := Loader.material (Loader.resolve_mesh mats geom) in
  let found := mats !! Loader.property_key (OBJ.material geom) in
  (found = None -> resolved = default_material) /\
  (found = Some (only_Ns v) ->
     resolved = set_shininess v default_material /\
     ambient resolved = Some [1; 1; 1]%float /\
     diffuse resolved = Some [0.64; 0.64; 0.64]%float /\
     specular resolved = Some [0.2; 0.2; 0.2]%float /\
     opacity resolved = Some 1%float /\
     illum resolved = Some (Some 2) /\
     shininess resolved = Some v) /\
  (forall m, found = Some m ->
     shininess resolved = Some (num_or (shininess m) 32) /\
     ambient resolved = Some (obj_or (ambient m) [1; 1; 1]%float) /\
     diffuse resolved = Some (obj_or (diffuse m) [0.64; 0.64; 0.64]%float) /\
     specular resolved = Some (obj_or (specular m) [0.2; 0.2; 0.2]%float) /\
     opacity resolved = Some (num_or (opacity m) 1) /\
     illum resolved = Some (Some (Loader.illum_or (illum m) 2))).
Proof.
  intros Hv. simpl. split_and!.
  - by intros ->.
  - intros ->. unfold Loader.resolve_material, only_Ns. simpl. by rewrite Hv.
  - by intros m ->.
Qed.

Lemma material_defaults_witness :
  Loader.material (Loader.resolve_mesh mats_leaf (span_of "leaf"))
    = set_shininess 10 default_material /\
  Loader.material (Loader.resolve_mesh mats_leaf (span_of "trunk")) = default_material.
Proof.
  split.
  - apply (material_defaults_field_by_field mats_leaf (span_of "leaf") 10);
      reflexivity.
  - apply (material_defaults_field_by_field mats_leaf (span_of "trunk") 10);
      reflexivity.
Defined.

(** C5, as stated, fails: the material object parsed from [Ns 0] has
    only [Ns] set, and its resolved shininess is 32, not the parsed 0. *)
Lemma zero_Ns_is_not_kept :
  parseMTL (document ["newmtl leaf"; "Ns 0"]) = Ok {[ "leaf" := only_Ns 0 ]} /\
  shininess (Loader.resolve_material (Some (only_Ns 0))) = Some 32%float /\
  ~ keeps_Ns 0.
Proof.
  split_and!; [by vm_compute|done|].
  unfold keeps_Ns. intros H.
  apply (f_equal (fmap is_zero)) in H.
  vm_compute in H. discriminate H.
Qed.

(** C10.  A numeric property that is explicitly zero is replaced by its
    default when the material is resolved: the shininess 0 by 32, the
    opacity 0 by 1, illum 0 by 2; the resolved material is the one of the
    material that omits the property, and the shininess that
    [setupPlantMaterial] uploads is 32 in both cases. *)
Theorem explicit_zero_is_defaulted (m : Material) (z : float) :
  is_zero z = true ->
  let s := Loader.resolve_material (Some (set_shininess z m)) in
  let o := Loader.resolve_material (Some (set_opacity z m)) in
  let i := Loader.resolve_material (Some (set_illum (Some 0) m)) in
  shininess s = Some 32%float /\
  s = Loader.resolve_material (Some (unset_shininess m)) /\
  num_or (shininess s) 32 = 32%float /\
  opacity o = Some 1%float /\
  o = Loader.resolve_material (Some (unset_opacity m)) /\
  illum i = Some (Some 2) /\
  i = Loader.resolve_material (Some (unset_illum m)).
Proof.
  intros Hz. unfold Loader.resolve_material, num_or, truthy. simpl.
  rewrite Hz. simpl. by split_and!.
Qed.

Lemma explicit_zero_witness :
  let s := Loader.resolve_material (Some (set_shininess (parseFloat "0") empty_material)) in
  let o := Loader.resolve_material (Some (set_opacity (parseFloat "0") empty_material)) in
  let i := Loader.resolve_material (Some (set_illum (Some 0) empty_material)) in
  shininess s = Some 32%float /\
  s = Loader.resolve_material (Some (unset_shininess empty_material)) /\
  num_or (shininess s) 32 = 32%float /\
  opacity o = Some 1%float /\
  o = Loader.resolve_material (Some (unset_opacity empty_material)) /\
  illum i = Some (Some 2) /\
  i = Loader.resolve_material (Some (unset_illum empty_material)).
Proof.
  apply (explicit_zero_is_defaulted empty_material (parseFloat "0")). reflexivity.
Defined.

(** The zeros of a material document are read as zeros, and a document
    that sets them resolves like the one that omits them. *)
Example zero_document_resolves_like_empty :
  parseMTL (document ["newmtl leaf"; "d 0"; "Ns 0"; "illum 0"])
    = Ok {[ "leaf" := set_illum (Some 0) (set_shininess 0 (set_opacity 0 empty_material)) ]} /\
  Loader.resolve_material
    (Some (set_illum (Some 0) (set_shininess 0 (set_opacity 0 empty_material))))
    = Loader.resolve_material (Some empty_material).
Proof. split; by vm_compute. Qed.

End MtlClaims.

(* ===================================================================== *)
(** ** Properties of the camera *)
(* ===================================================================== *)

Module CameraClaims.
Import JS Camera CameraSpec FloatFacts.

Lemma camera_ok_constructor : camera_ok constructor.
Proof. by repeat split. Qed.

Lemma sensitivity_finite :
  exists s m e, Prim2SF (ROTATION_SENSITIVITY constructor) = S754_finite s m e.
Proof. vm_compute. eauto. Qed.

Lemma zoom_sensitivity_finite :
  exists s m e, Prim2SF (ZOOM_SENSITIVITY constructor) = S754_finite s m e.
Proof. vm_compute. eauto. Qed.

(** A delta that is a number moves a value of the range to a number. *)
Lemma moved_not_nan lo hi x d s :
  sf_finite (Prim2SF lo) -> sf_finite (Prim2SF hi) -> fle lo x -> fle x hi ->
  is_nan d = false -> (exists sg m e, Prim2SF s = S754_finite sg m e) ->
  is_nan (x + d * s)%float = false.
Proof.
  intros Hlo Hhi Hx1 Hx2 Hd (sg & m & e & Hs).
  apply add_not_nan; [exact (between_finite lo hi x Hlo Hhi Hx1 Hx2)|].
  by eapply mul_not_nan.
Qed.

Lemma mousemove_ok e c :
  numeric_deltas (Mousemove e) -> camera_ok c -> camera_ok (mousemove e c).
Proof.
  intros [Hx Hy] [(Hr1 & Hr2 & Hd1 & Hd2) (Hs1 & Hs2 & Hs3 & Hs4)].
  unfold mousemove. destruct (isPointerLocked c); simpl; [|by split_and!].
  destruct (buttons e =? 1); [|destruct (buttons e =? 4); [|destruct (buttons e =? 2)]];
    (split; [|by split_and!]); unfold within_bounds; simpl.
  - destruct (clamp_within (-89) 89
                (rotationX c + movementY e * ROTATION_SENSITIVITY c)%float)
      as [H1 H2]; [reflexivity| |by split_and!].
    rewrite Hs1.
    apply (moved_not_nan (-89) 89); [by vm_compute|by vm_compute|done..|].
    apply sensitivity_finite.
  - destruct (clamp_within (MIN_DISTANCE c) (MAX_DISTANCE c)
                (distance c + movementY e * ZOOM_SENSITIVITY c)%float)
      as [H1 H2]; [by rewrite Hs3, Hs4| |by split_and!].
    rewrite Hs2.
    apply (moved_not_nan (MIN_DISTANCE c) (MAX_DISTANCE c));
      [by rewrite Hs4; vm_compute|by rewrite Hs3; vm_compute|done..|].
    apply zoom_sensitivity_finite.
  - by split_and!.
  - by split_and!.
Qed.

Lemma step_ok c o : numeric_deltas o -> camera_ok c -> camera_ok (step c o).
Proof.
  destruct o; simpl; try done. apply mousemove_ok.
Qed.

Lemma run_ok_from ops c :
  Forall numeric_deltas ops -> camera_ok c -> camera_ok (fold_left step ops c).
Proof.
  revert c. induction ops as [|o ops IH]; intros c Hops Hc; [done|].
  apply Forall_cons in Hops as [Ho Hops]. simpl. auto using step_ok.
Qed.

(** C8.  Whatever operations are done with a camera, with mouse deltas
    of any size (any numbers, infinite ones too), after each of them the
    pitch is between -89 and 89 and the distance is between
    [MIN_DISTANCE] and [MAX_DISTANCE]. *)
Theorem camera_stays_within_bounds (ops : list operation) (n : nat) :
  Forall numeric_deltas ops ->
  let c := run (take n ops) in
  ((-89 <=? rotationX c)%float = true /\ (rotationX c <=? 89)%float = true) /\
  ((MIN_DISTANCE c <=? distance c)%float = true /\
   (distance c <=? MAX_DISTANCE c)%float = true).
Proof.
  intros Hops c.
  destruct (run_ok_from (take n ops) constructor) as [(?&?&?&?) _];
    [by apply Forall_take|apply camera_ok_constructor|done].
Qed.

Lemma camera_bounds_witness :
  let c := run (take 8 wild_drag) in
  ((-89 <=? rotationX c)%float = true /\ (rotationX c <=? 89)%float = true) /\
  ((MIN_DISTANCE c <=? distance c)%float = true /\
   (distance c <=? MAX_DISTANCE c)%float = true).
Proof.
  apply (camera_stays_within_bounds wild_drag 8).
  repeat constructor.
Defined.

Example wild_drag_ends_clamped :
  rotationX (run wild_drag) = (-89)%float /\ distance (run wild_drag) = 10000%float.
Proof. by vm_compute. Qed.

End CameraClaims.
(* ===================================================================== *)
(** ** Properties of the fragment shader *)
(* ===================================================================== *)

Module ShaderClaims.
Import Shader ShaderSpec Binary32Facts.

Section WithBuiltins.
Context `{B : Builtins}.

Lemma zero_component (t m : float32) :
  m = literal 1 0 -> number t ->
  zero32 (mul (sub (literal 1 0) t) (sub (literal 1 0) m)) = true.
Proof.
  intros -> [Hv Hf]. rewrite sub_one_one.
  apply mul_zero_r. by apply sub_one_finite.
Qed.


End WithBuiltins.


(** The fully metallic fragment, with stand-ins for the built-in
    functions: its diffuse factor is +0 in every component. *)
Example metal_fragment_kD :
  kD (@main plain_builtins metal_fragment) = splat (S754_zero false) /\
  kD (@main quotient_builtins metal_fragment) = splat (S754_zero false) /\
  finite3 (albedo (@main quotient_builtins metal_fragment)).
Proof. split_and!; by vm_compute. Qed.

(** The literals of the shader as binary32 values. *)
Example shader_literals :
  literal 1 0 = S754_finite false 8388608 (-23) /\
  literal 4 (-2) = S754_finite false 10737418 (-28) /\
  PI = S754_finite false 13176795 (-22) /\
  literal 1 (-4) = S754_finite false 13743895 (-37).
Proof. split_and!; reflexivity. Qed.

(** Where [normalize] is computed as a quotient, the fragment seen from
    where the light goes to has the halfway vector [normalize(0)], which
    is NaN, a Fresnel value that is NaN, and a diffuse factor that is
    NaN although the metallic value is 1. *)
Example backlit_fragment_has_no_number :
  metallic (@main quotient_builtins backlit_fragment) = literal 1 0 /\
  F (@main quotient_builtins backlit_fragment) = splat S754_nan /\
  kD (@main quotient_builtins backlit_fragment) = splat S754_nan.
Proof. split_and!; reflexivity. Qed.

End ShaderClaims.

(* ===================================================================== *)
(** ** Properties of the render loop *)
(* ===================================================================== *)

Module SceneClaims.
Import Scene SceneSpec.
Local Open Scope list_scope.

Section WithMV.
Context `{MV : MVlib}.

(** Reading a uniform store after writes. *)
Ltac read_uniforms :=
  repeat first
    [ rewrite lookup_insert_eq
    | rewrite lookup_insert_ne by discriminate ].

(** *** Single calls *)

Lemma uniform_draws loc v gl : draws (uniform loc v gl) = draws gl.
Proof. by destruct loc. Qed.

Lemma uniform_elements loc v gl :
  element_array_buffer (uniform loc v gl) = element_array_buffer gl.
Proof. by destruct loc. Qed.

Lemma uniform_other loc v gl k :
  loc <> Some k -> uniforms (uniform loc v gl) !! k = uniforms gl !! k.
Proof.
  destruct loc as [name|]; [|done]. intros Hne. simpl.
  apply lookup_insert_ne. congruence.
Qed.

Lemma uniform_same k v gl : uniforms (uniform (Some k) v gl) !! k = Some v.
Proof. simpl. apply lookup_insert_eq. Qed.

Lemma draws_drawElements c o gl :
  draws (drawElements c o gl)
  = draws gl ++ [{| count := c; offset := o;
                    draw_elements := element_array_buffer gl;
                    draw_uniforms := uniforms gl;
                    draw_textures := texture_units gl |}].
Proof. reflexivity. Qed.

Lemma agree_lighting us us' :
  agree us us' ->
  lighting_of us' = lighting_of us /\ use_specular us' = use_specular us.
Proof.
  intros H. unfold lighting_of, use_specular.
  rewrite !H by (unfold watched; auto 6). done.
Qed.

Lemma agree_uniform loc v gl :
  (forall k, watched k -> loc <> Some k) ->
  agree (uniforms gl) (uniforms (uniform loc v gl)).
Proof. intros H k Hk. apply uniform_other. auto. Qed.

Lemma not_watched (name : string) :
  (if decide (name = "uLightColor") then false
   else if decide (name = "uLightIntensity") then false
   else if decide (name = "uAmbientColor") then false
   else if decide (name = "uAmbientIntensity") then false
   else if decide (name = "uUseSpecular") then false else true) = true ->
  forall k, watched k -> Some name <> Some k.
Proof.
  intros H k Hk [= ->]. unfold watched in Hk.
  repeat case_decide; try done.
  destruct Hk as [?|[?|[?|[?|?]]]]; congruence.
Qed.

(** *** The stages of a frame *)

Lemma setupPlantMaterial_spec mesh gl :
  let gl' := setupPlantMaterial mesh gl in
  draws gl' = draws gl /\
  element_array_buffer gl' = element_array_buffer gl /\
  use_specular (uniforms gl') = use_specular (uniforms gl) /\
  lighting_of (uniforms gl') = plant_lighting.
Proof.
  unfold setupPlantMaterial, lighting_of, plant_lighting, use_specular.
  cbn. split_and!; [done|done|by read_uniforms|].
  f_equal; by read_uniforms.
Qed.

Lemma drawMesh_spec gl mesh :
  exists d,
    draws (drawMesh gl mesh) = draws gl ++ [d] /\
    element_array_buffer (drawMesh gl mesh) = element_array_buffer gl /\
    use_specular (uniforms (drawMesh gl mesh)) = use_specular (uniforms gl) /\
    draw_elements d = element_array_buffer gl /\
    count d = Loader.indexCount mesh /\
    offset d = Loader.startIndex mesh * 2 /\
    use_specular (draw_uniforms d) = use_specular (uniforms gl) /\
    lighting_of (draw_uniforms d) = plant_lighting.
Proof.
  destruct (setupPlantMaterial_spec mesh gl) as (Hd & He & Hs & Hl).
  unfold drawMesh. cbv zeta.
  generalize dependent (setupPlantMaterial mesh gl). intros g Hd He Hs Hl.
  eexists. rewrite draws_drawElements, Hd. split; [reflexivity|].
  split_and!; try reflexivity; assumption.
Qed.

(** The loop over the meshes issues one draw for each mesh, in the
    state that [setupPlantMaterial] leaves. *)
Lemma drawMeshes_spec ms gl :
  element_array_buffer gl = Some plant_indexBuffer ->
  use_specular (uniforms gl) = Some (Uniform1i 1) ->
  exists ds,
    draws (fold_left drawMesh ms gl) = draws gl ++ ds /\
    Forall2 plant_draw ds ms.
Proof.
  revert gl. induction ms as [|mesh ms IH]; intros gl He Hs; simpl.
  - exists []. by rewrite app_nil_r.
  - destruct (drawMesh_spec gl mesh) as (d & Hd & He' & Hs' & D1 & D2 & D3 & D4 & D5).
    generalize dependent (drawMesh gl mesh). intros g Hd He' Hs'.
    destruct (IH g) as (ds & Hds & Hall); [congruence..|].
    exists (d :: ds). rewrite Hds, Hd, <- app_assoc. split; [done|].
    constructor; [|done]. unfold plant_draw. split_and!; congruence.
Qed.

Lemma restoreLighting_spec gl :
  draws (restoreLighting gl) = draws gl /\
  lighting_of (uniforms (restoreLighting gl)) = scene_lighting.
Proof.
  unfold restoreLighting, lighting_of, scene_lighting. cbn.
  split; [done|]. f_equal; by read_uniforms.
Qed.

(** The state in which the loop over the meshes starts. *)
Lemma plant_setup_spec worldMatrix gl :
  let gl' :=
    bindElementArrayBuffer plant_indexBuffer
      (vertexAttribPointer aNormal 3
         (bindArrayBuffer plant_normalBuffer
            (vertexAttribPointer aTexCoord 2
               (bindArrayBuffer plant_texcoordBuffer
                  (vertexAttribPointer aPosition 3
                     (bindArrayBuffer plant_positionBuffer
                        (uniform (uniformLocations "world")
                           (UniformMatrix4fv (mult worldMatrix (translate 0 radius 0)))
                           (uniform (uniformLocations "useSpecular")
                                    (Uniform1i 1) gl)))))))) in
  draws gl' = draws gl /\
  element_array_buffer gl' = Some plant_indexBuffer /\
  use_specular (uniforms gl') = Some (Uniform1i 1).
Proof.
  cbn. unfold use_specular. split_and!; [done|done|by read_uniforms].
Qed.

Lemma drawPlant_spec plant worldMatrix gl :
  exists ds,
    draws (drawPlant plant worldMatrix gl) = draws gl ++ ds /\
    Forall2 plant_draw ds (meshes plant) /\
    lighting_of (uniforms (drawPlant plant worldMatrix gl)) = scene_lighting.
Proof.
  unfold drawPlant. cbv zeta.
  destruct (plant_setup_spec worldMatrix gl) as (Hd & He & Hs). cbv zeta in Hd, He, Hs.
  match type of He with
  | element_array_buffer ?g = _ => generalize dependent g
  end.
  intros g Hd He Hs.
  destruct (drawMeshes_spec (meshes plant) g He Hs) as (ds & Hds & Hall).
  destruct (restoreLighting_spec (fold_left drawMesh (meshes plant) g)) as [Hr Hl].
  exists ds. rewrite Hr, Hds, Hd. by split_and!.
Qed.

Lemma resize_spec w h gl :
  draws (resize w h gl) = draws gl /\ uniforms (resize w h gl) = uniforms gl.
Proof. unfold resize. by destruct (_ || _). Qed.

Lemma setupAttributes_spec gl :
  draws (setupAttributes gl) = draws gl /\
  uniforms (setupAttributes gl) = uniforms gl.
Proof. done. Qed.

Lemma updateUniforms_spec t cam p v w gl :
  draws (updateUniforms t cam p v w gl) = draws gl /\
  lighting_of (uniforms (updateUniforms t cam p v w gl)) = scene_lighting.
Proof.
  unfold updateUniforms, lighting_of, scene_lighting. cbn.
  split; [done|]. f_equal; by read_uniforms.
Qed.

Lemma bindSceneTexture_spec gl entry :
  (forall k, watched k -> uniformLocations (entry.1 +:+ "Map") <> Some k) ->
  draws (bindSceneTexture gl entry) = draws gl /\
  agree (uniforms gl) (uniforms (bindSceneTexture gl entry)).
Proof.
  destruct entry as [name texture]. intros Hn. unfold bindSceneTexture. cbv zeta.
  split; [by rewrite uniform_draws|].
  intros k Hk. by rewrite uniform_other by auto.
Qed.

Lemma bindTextures_spec gl :
  draws (bindTextures gl) = draws gl /\
  lighting_of (uniforms (bindTextures gl)) = lighting_of (uniforms gl).
Proof.
  unfold bindTextures.
  assert (H : forall ts gl,
    Forall (fun entry => forall k, watched k ->
              uniformLocations (entry.1 +:+ "Map") <> Some k) ts ->
    draws (fold_left bindSceneTexture ts gl) = draws gl /\
    agree (uniforms gl) (uniforms (fold_left bindSceneTexture ts gl))).
  { clear gl. induction ts as [|entry ts IH]; intros gl Hts; cbn [fold_left].
    - by split.
    - apply Forall_cons in Hts as [Hn Hts].
      destruct (bindSceneTexture_spec gl entry Hn) as [Hd1 Ha1].
      destruct (IH (bindSceneTexture gl entry) Hts) as [Hd Ha].
      split; [congruence|].
      intros k Hk. by rewrite (Ha k Hk), (Ha1 k Hk). }
  destruct (H textures gl) as [Hd Ha].
  - unfold textures. repeat constructor; by apply not_watched.
  - split; [done|]. by apply agree_lighting.
Qed.

Lemma drawSphere_spec gl :
  exists d,
    draws (drawSphere gl) = draws gl ++ [d] /\
    draw_elements d = Some indexBuffer /\
    use_specular (draw_uniforms d) = Some (Uniform1i 0) /\
    lighting_of (draw_uniforms d) = lighting_of (uniforms gl) /\
    lighting_of (uniforms (drawSphere gl)) = lighting_of (uniforms gl).
Proof.
  eexists. unfold drawSphere. cbv zeta. rewrite draws_drawElements.
  split; [reflexivity|].
  unfold lighting_of, use_specular. cbn.
  split_and!; [done|by read_uniforms|f_equal; by read_uniforms..].
Qed.

(** One frame, from any state. *)
Lemma render_spec (gl : GL) (f : Frame) :
  exists (sphere : DrawCall) (plant_draws : list DrawCall),
    draws (render gl f) = draws gl ++ sphere :: plant_draws /\
    sphere_draw sphere /\
    Forall2 plant_draw plant_draws (frame_meshes f) /\
    lighting_of (uniforms (render gl f)) = scene_lighting.
Proof.
  unfold render, frame_meshes. cbv zeta.
  destruct (resize_spec (clientWidth f) (clientHeight f) gl) as [Hd0 _].
  generalize dependent (resize (clientWidth f) (clientHeight f) gl).
  intros gl0 Hd0.
  destruct (setupAttributes_spec gl0) as [Hd1 _].
  generalize dependent (setupAttributes gl0). intros gl1 Hd1.
  match goal with
  | |- context [updateUniforms ?t ?c ?p ?v ?w gl1] =>
      destruct (updateUniforms_spec t c p v w gl1) as [Hd2 Hl2];
      generalize dependent (updateUniforms t c p v w gl1)
  end.
  intros gl2 Hd2 Hl2.
  destruct (bindTextures_spec gl2) as [Hd3 Hl3].
  generalize dependent (bindTextures gl2). intros gl3 Hd3 Hl3.
  destruct (drawSphere_spec gl3) as (d & Hd4 & D1 & D2 & D3 & Hl4).
  generalize dependent (drawSphere gl3). intros gl4 Hd4 Hl4.
  assert (Hsphere : sphere_draw d).
  { unfold sphere_draw. split_and!; [done|done|congruence]. }
  assert (Hdraws : draws gl4 = draws gl ++ [d]) by congruence.
  destruct (plantModel f) as [plant|].
  - match goal with
    | |- context [drawPlant plant ?w gl4] =>
        destruct (drawPlant_spec plant w gl4) as (ds & Hds & Hall & Hl')
    end.
    exists d, ds. rewrite Hds, Hdraws, <- app_assoc. by split_and!.
  - exists d, []. split_and!; [done|done|constructor|congruence].
Qed.

(** Over the frames that follow one another, every draw of the sphere
    has the lighting of the scene and every draw of the plant has the
    overriding lighting. *)
Lemma run_draws frames gl :
  exists ds,
    draws (run frames gl) = draws gl ++ ds /\
    Forall (fun d => sphere_draw d \/
                     exists mesh, plant_draw d mesh) ds.
Proof.
  revert gl. unfold run.
  induction frames as [|f frames IH]; intros gl; cbn [fold_left].
  - exists []. by rewrite app_nil_r.
  - destruct (render_spec gl f) as (d & ds & Hd & Hs & Hp & _).
    destruct (IH (render gl f)) as (ds' & Hds' & Hall).
    exists ((d :: ds) ++ ds'). rewrite Hds', Hd, <- app_assoc.
    split; [done|]. apply Forall_app. split; [|done].
    constructor; [by left|].
    clear -Hp. induction Hp; constructor; eauto.
Qed.

(** C9.  In every frame [f], after any earlier frames (with or without
    the plant), the sphere is drawn first, with the specular toggle off
    and the configured lighting of the scene; then, if the plant is
    loaded, each mesh of the plant is drawn with the toggle on and the
    overriding lighting; and at the end of the frame, right after the
    draws of the plant, the four lighting uniforms have the configured
    values of the scene again. *)
Theorem plant_lighting_does_not_leak (earlier : list Frame) (gl : GL) (f : Frame) :
  let before := run earlier gl in
  exists (sphere : DrawCall) (plant_draws : list DrawCall),
    draws (render before f) = draws before ++ sphere :: plant_draws /\
    sphere_draw sphere /\
    Forall2 plant_draw plant_draws (frame_meshes f) /\
    lighting_of (uniforms (render before f)) = scene_lighting.
Proof. apply render_spec. Qed.

End WithMV.
End SceneClaims.

(* ===================================================================== *)
(** ** Facts about lines and documents *)
(* ===================================================================== *)

Module LineFacts.
Import JS Lines ObjInv MeshSpec.
Local Open Scope list_scope.

Lemma split_on_nonempty sep s : split_on sep s <> [].
Proof.
  induction s as [|c s IH]; simpl; [done|].
  destruct (Ascii.eqb c sep); [done|]. by destruct (split_on sep s).
Qed.

Lemma split_on_app sep a b :
  split_on sep (a +:+ String sep b) = split_on sep a ++ split_on sep b.
Proof.
  induction a as [|c a IH]; simpl.
  - by rewrite Ascii.eqb_refl.
  - destruct (Ascii.eqb c sep); [by rewrite IH|].
    rewrite IH. pose proof (split_on_nonempty sep a).
    by destruct (split_on sep a).
Qed.

Lemma split_on_none sep s :
  all_chars (fun c => negb (Ascii.eqb c sep)) s = true -> split_on sep s = [s].
Proof.
  induction s as [|c s IH]; simpl; [done|].
  intros [Hc Hs]%andb_true_iff. apply negb_true_iff in Hc. rewrite Hc.
  by rewrite IH.
Qed.

Lemma join_cons sep l l' ls :
  join sep (l :: l' :: ls) = l +:+ sep +:+ join sep (l' :: ls).
Proof. done. Qed.

Lemma lines_of_document l ls :
  lines_of (document (l :: ls)) = flat_map lines_of (l :: ls).
Proof.
  revert l. induction ls as [|l' ls IH]; intros l.
  - simpl. by rewrite app_nil_r.
  - unfold document in *. rewrite join_cons.
    change (String newline "" +:+ join (String newline "") (l' :: ls))
      with (String newline (join (String newline "") (l' :: ls))).
    unfold lines_of in *. rewrite split_on_app, IH. done.
Qed.

Lemma lines_of_one_line line : one_line line -> lines_of line = [line].
Proof. apply split_on_none. Qed.

Lemma flat_map_one_line lines :
  Forall one_line lines -> flat_map lines_of lines = lines.
Proof.
  induction 1 as [|l ls Hl _ IH]; simpl; [done|].
  by rewrite lines_of_one_line, IH.
Qed.

(** *** White space at the end of a line *)

Lemma trimEnd_space s c :
  is_space c = true -> trimEnd (s +:+ String c "") = trimEnd s.
Proof.
  intros Hc. induction s as [|a s IH]; simpl; [by rewrite Hc|].
  by rewrite IH.
Qed.

Lemma trim_space s c : is_space c = true -> trim (s +:+ String c "") = trim s.
Proof.
  intros Hc. unfold trim. induction s as [|a s IH]; simpl.
  - by rewrite Hc.
  - destruct (is_space a); [done|].
    change (String a (s +:+ String c "")) with (String a s +:+ String c "").
    by apply trimEnd_space.
Qed.

Lemma record_words_space line c :
  is_space c = true -> record_words (line +:+ String c "") = record_words line.
Proof. intros Hc. unfold record_words. by rewrite trim_space. Qed.

Lemma append_assoc (a b c : string) : (a +:+ b) +:+ c = a +:+ (b +:+ c).
Proof.
  induction a as [|x a IH]; [done|].
  change (String x ((a +:+ b) +:+ c) = String x (a +:+ (b +:+ c))). by f_equal.
Qed.

Lemma lines_of_to_crlf text : lines_of (to_crlf text) = with_cr (lines_of text).
Proof.
  unfold lines_of. induction text as [|c s IH]; [done|].
  cbn [to_crlf split_on]. destruct (Ascii.eqb c newline) eqn:Ec.
  - cbn [split_on]. rewrite Ascii.eqb_refl, IH.
    change (Ascii.eqb carriage_return newline) with false. cbv iota.
    pose proof (split_on_nonempty newline s).
    by destruct (split_on newline s).
  - cbn [split_on]. rewrite Ec, IH.
    pose proof (split_on_nonempty newline s).
    destruct (split_on newline s) as [|t [|t' ts]]; done.
Qed.

Lemma with_cr_words lines :
  Forall2 (fun a b => record_words a = record_words b) (with_cr lines) lines.
Proof.
  induction lines as [|l [|l' ls] IH]; [constructor|by repeat constructor|].
  change (with_cr (l :: l' :: ls))
    with ((l +:+ String carriage_return "") :: with_cr (l' :: ls)).
  constructor; [by apply record_words_space|done].
Qed.

End LineFacts.

(* ===================================================================== *)
(** ** Facts about the vertex arrays of the mesh parser *)
(* ===================================================================== *)

Module MeshFacts.
Import JS OBJ ObjSpec ObjInv MeshSpec ObjFacts LineFacts.
Local Open Scope list_scope.

Lemma block_app_l w i (l l' : list float) :
  (w * i + w <= length l)%nat -> block w i (l ++ l') = block w i l.
Proof.
  unfold block. intros H. rewrite drop_app_le by lia.
  rewrite take_app_le; [done|]. rewrite length_drop. lia.
Qed.

Lemma block_app_r w i (l l' : list float) :
  length l = (w * i)%nat -> length l' = w -> block w i (l ++ l') = l'.
Proof.
  unfold block. intros Hl Hl'. rewrite <- Hl, drop_app_length.
  by rewrite take_ge by lia.
Qed.

Lemma obj_or_get (P : list float -> Prop) l i d :
  Forall P l -> P d -> P (obj_or (array_get l i) d).
Proof.
  intros Hl Hd. destruct i as [z|]; simpl; [|done].
  destruct (z <? 0); [done|].
  destruct (l !! Z.to_nat z) as [p|] eqn:E; simpl; [|done].
  by eapply Forall_lookup_1.
Qed.

(** The two outcomes of [addVertex]: the key is known, or a vertex is
    appended. *)
Lemma addVertex_cases c st :
  let r := addVertex (vert c) (tex c) (norm c) st in
  (vertexMap st !! key_of (resolved_triple st c) = Some r.2 /\ r.1 = st) \/
  (vertexMap st !! key_of (resolved_triple st c) = None /\
   r.2 = vertexCount st /\ vertexCount r.1 = S (vertexCount st) /\
   finalPositions r.1 = finalPositions st ++ att_position (denoted st c) /\
   finalTexcoords r.1 = finalTexcoords st ++ att_texcoord (denoted st c) /\
   finalNormals r.1 = finalNormals st ++ att_normal (denoted st c)).
Proof.
  unfold addVertex, resolved_triple, key_of.
  destruct (vertexMap st !! _) as [i|] eqn:E; simpl; [by left|by right].
Qed.

Lemma vertices_ok_ext st st' ix ds :
  vertexMap st' = vertexMap st -> vertexCount st' = vertexCount st ->
  positions st' = positions st -> texcoords st' = texcoords st ->
  normals st' = normals st ->
  finalPositions st' = finalPositions st ->
  finalTexcoords st' = finalTexcoords st ->
  finalNormals st' = finalNormals st ->
  vertices_ok st ix ds -> vertices_ok st' ix ds.
Proof.
  unfold vertices_ok, map_ok.
  by intros -> -> -> -> -> -> -> ->.
Qed.

Lemma addVertex_vertices c st ix ds :
  vertices_ok st ix ds ->
  let r := addVertex (vert c) (tex c) (norm c) st in
  vertices_ok r.1 (ix ++ [r.2]) (ds ++ [denoted st c]).
Proof.
  intros (Hok & Ht & Hn & Lt & Ln & Lp & Lz & Hlt & Huse & Hlen & Hdata) r.
  destruct (addVertex_spec c st) as ((Tp & Tt & Tn & _) & _ & _ & _ & Hok').
  destruct (addVertex_cases c st) as [[Hk Hst]|(Hk & Hi & Hvc & Fp & Ft & Fn)];
    fold r in Tp, Tt, Tn, Hok', Hk |- *.
  - (* the key is known *)
    fold r in Hst. rewrite Hst.
    assert (Hr : (r.2 < vertexCount st)%nat) by (eapply (proj1 Hok); exact Hk).
    split_and!; try done.
    + apply Forall_app. split; [done|by constructor].
    + intros i Hi. apply elem_of_app. left. by apply Huse.
    + rewrite !length_app. simpl. lia.
    + intros j i a Hj Ha Hnew.
      destruct (decide (j < length ix)%nat) as [Hlt'|Hge].
      * rewrite lookup_app_l in Hj by done.
        rewrite lookup_app_l in Ha by lia.
        rewrite take_app_le in Hnew by lia. eauto.
      * apply lookup_lt_Some in Hj as Hj'. rewrite length_app in Hj'. simpl in Hj'.
        assert (j = length ix) as -> by lia.
        rewrite lookup_app_r, Nat.sub_diag in Hj by lia. simplify_eq/=.
        rewrite take_app_length in Hnew. destruct Hnew. by apply Huse.
  - (* a vertex is appended *)
    fold r in Hi, Hvc, Fp, Ft, Fn.
    pose proof (obj_or_get pairs (texcoords st)
                  (resolve_index (length (texcoords st)) (tex c))
                  [0; 0]%float Ht eq_refl) as Dt.
    pose proof (obj_or_get triples (normals st)
                  (resolve_index (length (normals st)) (norm c))
                  [0; 1; 0]%float Hn eq_refl) as Dn.
    pose proof (fun H => obj_or_get triples (positions st)
                  (resolve_index (length (positions st)) (vert c))
                  [0; 0; 0]%float H eq_refl) as Dp.
    unfold pairs, triples in Dt, Dn, Dp.
    split_and!.
    + by apply Hok'.
    + by rewrite Tt.
    + by rewrite Tn.
    + rewrite Ft, Hvc, length_app. simpl in *. lia.
    + rewrite Fn, Hvc, length_app. simpl in *. lia.
    + rewrite Tp. intros Hp. rewrite Fp, Hvc, length_app, (Lp Hp).
      specialize (Dp Hp). simpl in *. lia.
    + by rewrite Hvc.
    + rewrite Hvc, Hi. apply Forall_app. split.
      * eapply Forall_impl; [exact Hlt|]. simpl. lia.
      * constructor; [lia|done].
    + rewrite Hvc, Hi. intros i Hlti. apply elem_of_app.
      destruct (decide (i = vertexCount st)) as [->|Hne].
      * right. by apply list_elem_of_singleton.
      * left. apply Huse. lia.
    + rewrite !length_app. simpl. lia.
    + intros j i a Hj Ha Hnew.
      destruct (decide (j < length ix)%nat) as [Hlt'|Hge].
      * rewrite lookup_app_l in Hj by done.
        rewrite lookup_app_l in Ha by lia.
        rewrite take_app_le in Hnew by lia.
        destruct (Hdata j i a Hj Ha Hnew) as (Bt & Bn & Bp).
        assert (Hiv : (i < vertexCount st)%nat)
          by (eapply Forall_lookup_1 in Hlt; [exact Hlt|exact Hj]).
        rewrite Ft, Fn, Fp, Tp.
        split_and!.
        -- rewrite block_app_l by lia. done.
        -- rewrite block_app_l by lia. done.
        -- intros Hp. rewrite block_app_l by (rewrite (Lp Hp); lia). auto.
      * apply lookup_lt_Some in Hj as Hj'. rewrite length_app in Hj'. simpl in Hj'.
        assert (j = length ix) as -> by lia.
        rewrite lookup_app_r, Nat.sub_diag in Hj by lia.
        rewrite lookup_app_r, Hlen, Nat.sub_diag in Ha by lia.
        simplify_eq/=. rewrite Hi, Ft, Fn, Fp, Tp.
        split_and!.
        -- by apply block_app_r.
        -- by apply block_app_r.
        -- intros Hp. apply block_app_r; [by apply Lp|by apply Dp].
Qed.

Lemma same_tables_denoted st st' c : same_tables st st' -> denoted st' c = denoted st c.
Proof. intros (Hp&Ht&Hn&_). unfold denoted. by rewrite Hp, Ht, Hn. Qed.

(** One triangle: three vertices are looked up or appended, and their
    indices pushed. *)
Lemma triangle_vertices vs st i v0 v1 v2 ds :
  vs !! 0%nat = Some v0 -> vs !! i = Some v1 -> vs !! (i + 1)%nat = Some v2 ->
  vertices_ok st (indices st) ds ->
  vertices_ok (triangle vs st i) (indices (triangle vs st i))
              (ds ++ map (denoted st) [v0; v1; v2]).
Proof.
  intros H0 H1 H2 Hv. unfold triangle. rewrite H0, H1, H2.
  pose proof (addVertex_spec v0 st) as Ha.
  pose proof (addVertex_vertices v0 st _ _ Hv) as Va.
  destruct (addVertex (vert v0) (tex v0) (norm v0) st) as [st1 a].
  cbv zeta in Va. cbn [fst snd] in Ha, Va. destruct Ha as (Ts1 & I1 & _).
  pose proof (addVertex_spec v1 st1) as Hb.
  pose proof (addVertex_vertices v1 st1 _ _ Va) as Vb.
  destruct (addVertex (vert v1) (tex v1) (norm v1) st1) as [st2 b].
  cbv zeta in Vb. cbn [fst snd] in Hb, Vb. destruct Hb as (Ts2 & I2 & _).
  pose proof (addVertex_spec v2 st2) as Hc.
  pose proof (addVertex_vertices v2 st2 _ _ Vb) as Vc.
  destruct (addVertex (vert v2) (tex v2) (norm v2) st2) as [st3 c].
  cbv zeta in Vc. cbn [fst snd] in Hc, Vc. destruct Hc as (Ts3 & I3 & _).
  pose proof (same_tables_trans _ _ _ Ts1 Ts2) as Ts12.
  rewrite (same_tables_denoted _ _ v1 Ts1) in Vc.
  rewrite (same_tables_denoted _ _ v2 Ts12) in Vc.
  rewrite <- !app_assoc in Vc.
  cbn [indices push_indices map]. rewrite I3, I2, I1.
  by apply (vertices_ok_ext st3).
Qed.

Lemma triangulate_vertices vs st rs ds :
  traced st rs ->
  vertices_ok st (indices st) ds ->
  vertices_ok (triangulate vs st) (indices (triangulate vs st))
              (ds ++ map (denoted st) (fan vs)).
Proof.
  unfold triangulate, fan.
  assert (H : forall l, (forall I, In I l -> In I (seq 1 (length vs - 2))) ->
    forall st' rs' ds', same_tables st st' -> traced st' rs' ->
    vertices_ok st' (indices st') ds' ->
    vertices_ok (fold_left (triangle vs) l st')
      (indices (fold_left (triangle vs) l st'))
      (ds' ++ map (denoted st)
         (flat_map (fun I => match vs !! 0%nat, vs !! I, vs !! (I + 1)%nat with
                             | Some c0, Some c1, Some c2 => [c0; c1; c2]
                             | _, _, _ => []
                             end) l))).
  { induction l as [|I l IH]; intros Hl st' rs' ds' Hs Ht Hv; cbn [fold_left flat_map].
    - by rewrite app_nil_r.
    - destruct (fan_lookups vs I) as (v0&v1&v2&E0&E1&E2); [apply Hl; by left|].
      destruct (triangle_spec vs st' I v0 v1 v2 rs' E0 E1 E2 Ht) as [Hs' Ht'].
      pose proof (triangle_vertices vs st' I v0 v1 v2 ds' E0 E1 E2 Hv) as Hv'.
      pose proof (IH (fun J HJ => Hl J (or_intror HJ)) _ _ _
                     (same_tables_trans _ _ _ Hs Hs') Ht' Hv') as Hfin.
      rewrite E0, E1, E2.
      rewrite map_app, app_assoc.
      replace (map (denoted st) [v0; v1; v2]) with (map (denoted st') [v0; v1; v2])
        by (simpl; by rewrite !(same_tables_denoted _ _ _ Hs)).
      by rewrite E0 in Hfin. }
  intros Ht Hv. by apply (H _ (fun _ HI => HI) st rs ds (same_tables_refl st)).
Qed.

Lemma vertices_ok_startGeometry m st ix ds :
  vertices_ok st ix ds -> vertices_ok (startGeometry m st) ix ds.
Proof. by apply vertices_ok_ext. Qed.

Lemma vertices_ok_face_state st ds :
  vertices_ok st (indices st) ds ->
  vertices_ok (face_state st) (indices (face_state st)) ds.
Proof.
  unfold face_state. destruct (geometry st); [done|apply vertices_ok_startGeometry].
Qed.

Lemma denoted_face_state st : denoted (face_state st) = denoted st.
Proof. unfold face_state. by destruct (geometry st). Qed.

Lemma vertices_ok_push_position p st ix ds :
  vertices_ok st ix ds -> vertices_ok (push_position p st) ix ds.
Proof.
  intros (Hok & Ht & Hn & Lt & Ln & Lp & Lz & Hlt & Huse & Hlen & Hdata).
  split_and!; try done; cbn [positions push_position finalPositions vertexCount].
  - intros [Hp _]%Forall_app. auto.
  - intros j i a Hj Ha Hnew. destruct (Hdata j i a Hj Ha Hnew) as (?&?&Bp).
    split_and!; [done..|]. intros [Hp _]%Forall_app. auto.
Qed.

Lemma vertices_ok_push_texcoord p st ix ds :
  pairs p -> vertices_ok st ix ds -> vertices_ok (push_texcoord p st) ix ds.
Proof.
  intros Hp (Hok & Ht & Hn & Lt & Ln & Lp & Lz & Hlt & Huse & Hlen & Hdata).
  split_and!; try done. cbn [texcoords push_texcoord].
  apply Forall_app. split; [done|by constructor].
Qed.

Lemma vertices_ok_push_normal p st ix ds :
  triples p -> vertices_ok st ix ds -> vertices_ok (push_normal p st) ix ds.
Proof.
  intros Hp (Hok & Ht & Hn & Lt & Ln & Lp & Lz & Hlt & Huse & Hlen & Hdata).
  split_and!; try done. cbn [normals push_normal].
  apply Forall_app. split; [done|by constructor].
Qed.

Lemma process_line_vertices st line rs ds :
  traced st rs ->
  vertices_ok st (indices st) ds ->
  vertices_ok (process_line st line) (indices (process_line st line))
              (ds ++ line_denoted st line).
Proof.
  intros Ht Hv. rewrite process_line_words. unfold line_denoted, face_record.
  destruct (record_words line) as [|cmd args]; [by rewrite app_nil_r|].
  by_command cmd; simpl; rewrite ?app_nil_r; try done.
  - by apply vertices_ok_push_position.
  - by apply vertices_ok_push_texcoord.
  - by apply vertices_ok_push_normal.
  - fold (face_state st). rewrite <- denoted_face_state.
    eapply triangulate_vertices; [by apply traced_face_state|].
    by apply vertices_ok_face_state.
Qed.

Lemma vertices_ok_init : vertices_ok init [] [].
Proof.
  split_and!; simpl; try done.
  all: try (by repeat constructor).
  all: try (intros *; by rewrite lookup_empty).
  intros i Hi. lia.
Qed.

Lemma process_lines_vertices lines st rs ds :
  traced st rs ->
  vertices_ok st (indices st) ds ->
  vertices_ok (process_lines lines st) (indices (process_lines lines st))
              (ds ++ denoted_from st lines).
Proof.
  revert st rs ds. induction lines as [|line lines IH]; intros st rs ds Ht Hv; simpl.
  - by rewrite app_nil_r.
  - rewrite app_assoc. eapply IH.
    + by apply process_line_traced.
    + by apply (process_line_vertices st line rs).
Qed.

(** The vertex arrays of a document. *)
Lemma parse_vertices text :
  vertices_ok (process_lines (lines_of text) init)
              (obj_indices (parseOBJ text)) (denotations text).
Proof.
  apply (process_lines_vertices (lines_of text) init [] [] traced_init vertices_ok_init).
Qed.

Lemma parse_vertex_count text :
  vertex_count (parseOBJ text) = vertexCount (process_lines (lines_of text) init).
Proof.
  destruct (parse_vertices text) as (_ & _ & _ & _ & Ln & _).
  unfold vertex_count. cbn [parseOBJ finish obj_normals].
  change (split_on "010" text) with (lines_of text).
  rewrite Ln, Nat.mul_comm. by apply Nat.div_mul.
Qed.

End MeshFacts.

(* ===================================================================== *)
(** ** Facts about the material parser *)
(* ===================================================================== *)

Module MaterialFacts.
Import JS MTL MaterialSpec LineFacts.
Local Open Scope list_scope.

Lemma mtl_line_words st line :
  MTL.process_line st line =
  match record_words line with
  | keyword :: args =>
      match keywords keyword with
      | Some handler => handler args (join " " args) st
      | None => Ok st
      end
  | [] => Ok st
  end.
Proof.
  unfold MTL.process_line, record_words.
  by destruct (String.eqb (trim line) "" || startsWith "#" (trim line)).
Qed.

(** The first word of a record, by cases. *)
Ltac by_keyword kw :=
  repeat match goal with
         | |- context [String.eqb kw ?s] =>
             destruct (String.eqb_spec kw s) as [->|?]
         end.

(** The comparisons of literals are evaluated. *)
Ltac compare_strings :=
  repeat match goal with
         | |- context [String.eqb ?a ?b] =>
             let v := eval vm_compute in (String.eqb a b) in
             change (String.eqb a b) with v
         end.

(** What a line does: it opens a material, it assigns to the open one,
    it throws, or it does nothing. *)
Lemma mtl_line_cases st line :
  (exists n, opens line = Some n /\ assigns line = false /\ throws line = false /\
     MTL.process_line st line
     = Ok {| materials := <[n := empty_material]> (materials st);
             material := Some n |}) \/
  (opens line = None /\ assigns line = true /\ throws line = false /\
     exists f, MTL.process_line st line = assign f st) \/
  (opens line = None /\ assigns line = false /\ throws line = true /\
     MTL.process_line st line = TypeError) \/
  (opens line = None /\ assigns line = false /\ throws line = false /\
     MTL.process_line st line = Ok st).
Proof.
  rewrite mtl_line_words. unfold opens, assigns, throws.
  destruct (record_words line) as [|kw args]; [by repeat right|].
  unfold keywords, among, property_keywords, inherited_harmless, inherited_throwing.
  cbn [existsb].
  by_keyword kw; compare_strings; cbv iota; cbn [orb];
    first [ left; eexists; split_and!; reflexivity
          | right; left; split_and!; [reflexivity..|eexists; reflexivity]
          | right; right; left; split_and!; reflexivity
          | right; right; right; split_and!; reflexivity ].
Qed.

Lemma mtl_lines_app st a b :
  MTL.process_lines st (a ++ b)
  = match MTL.process_lines st a with
    | Ok st' => MTL.process_lines st' b
    | TypeError => TypeError
    end.
Proof.
  revert st. induction a as [|l a IH]; intros st; simpl; [done|].
  destruct (MTL.process_line st l); [apply IH|done].
Qed.

Lemma assign_cases f st :
  (material st = None /\ assign f st = TypeError) \/
  (exists k, material st = Some k /\
     assign f st = Ok {| materials := alter f k (materials st); material := Some k |}).
Proof. unfold assign. destruct (material st); eauto. Qed.

Lemma opened_names_cons line lines :
  opened_names (line :: lines)
  = match opens line with
    | Some n => n :: opened_names lines
    | None => opened_names lines
    end.
Proof. done. Qed.

(** Where the parser throws. *)
Lemma mtl_lines_abort lines st :
  MTL.process_lines st lines = TypeError <->
  exists i line, lines !! i = Some line /\
    (throws line = true \/
     (assigns line = true /\ material st = None /\ opened_names (take i lines) = [])).
Proof.
  revert st. induction lines as [|line rest IH]; intros st.
  { split; [done|]. by intros (i & l & Hl & _). }
  cbn [MTL.process_lines].
  destruct (mtl_line_cases st line)
    as [(n & Ho & Ha & Ht & ->)|[(Ho & Ha & Ht & f & ->)|[(Ho & Ha & Ht & ->)|(Ho & Ha & Ht & ->)]]].
  - rewrite IH. split.
    + intros (i & l & Hl & [Hth|(_ & Hm & _)]); [|done].
      exists (S i), l. eauto.
    + intros ([|i] & l & Hl & H); simpl in Hl; simplify_eq.
      * destruct H as [H|(H & _)]; congruence.
      * exists i, l. split; [done|]. destruct H as [H|(_ & _ & H)]; [by left|].
        cbn [take] in H. rewrite opened_names_cons, Ho in H. done.
  - destruct (assign_cases f st) as [[Hm ->]|(k & Hm & ->)].
    + split; [|done]. intros _. exists 0%nat, line. eauto.
    + rewrite IH. split.
      * intros (i & l & Hl & [Hth|(_ & Hm' & _)]); [|done].
        exists (S i), l. eauto.
      * intros ([|i] & l & Hl & H); simpl in Hl; simplify_eq.
        -- destruct H as [H|(_ & H & _)]; congruence.
        -- exists i, l. split; [done|]. destruct H as [H|(_ & H & _)]; [by left|].
           congruence.
  - split; [|done]. intros _. exists 0%nat, line. eauto.
  - rewrite IH. split.
    + intros (i & l & Hl & H). exists (S i), l. split; [done|].
      destruct H as [H|(H1 & H2 & H3)]; [by left|right].
      split_and!; [done..|]. cbn [take]. by rewrite opened_names_cons, Ho.
    + intros ([|i] & l & Hl & H); simpl in Hl; simplify_eq.
      * destruct H as [H|(H & _)]; congruence.
      * exists i, l. split; [done|]. destruct H as [H|(H1 & H2 & H3)]; [by left|right].
        split_and!; [done..|]. cbn [take] in H3. by rewrite opened_names_cons, Ho in H3.
Qed.

(** The names of the dictionary are the ones that were opened. *)
Lemma mtl_lines_names lines st st' n :
  MTL.process_lines st lines = Ok st' ->
  is_Some (materials st' !! n) <-> is_Some (materials st !! n) \/ n ∈ opened_names lines.
Proof.
  revert st. induction lines as [|line rest IH]; intros st.
  { simpl. intros [= <-]. rewrite elem_of_nil. tauto. }
  cbn [MTL.process_lines]. rewrite opened_names_cons.
  destruct (mtl_line_cases st line)
    as [(n0 & Ho & _ & _ & ->)|[(Ho & _ & _ & f & ->)|[(Ho & _ & _ & ->)|(Ho & _ & _ & ->)]]];
    rewrite Ho.
  - intros H. rewrite (IH _ H). cbn [materials].
    rewrite lookup_insert_is_Some, elem_of_cons.
    destruct (decide (n0 = n)) as [->|Hne]; [tauto|]. intuition congruence.
  - destruct (assign_cases f st) as [[Hm ->]|(k & Hm & ->)]; [done|].
    intros H. rewrite (IH _ H). cbn [materials].
    rewrite lookup_alter_is_Some. done.
  - done.
  - apply IH.
Qed.

(** A material that is not open is changed only by opening it. *)
Lemma mtl_lines_closed lines st st' n :
  MTL.process_lines st lines = Ok st' ->
  n ∉ opened_names lines ->
  (material st <> Some n \/
   forall i l, lines !! i = Some l -> assigns l = true ->
               opened_names (take i lines) <> []) ->
  materials st' !! n = materials st !! n.
Proof.
  revert st. induction lines as [|line rest IH]; intros st.
  { simpl. by intros [= <-]. }
  cbn [MTL.process_lines]. rewrite opened_names_cons.
  destruct (mtl_line_cases st line)
    as [(n0 & Ho & Ha & _ & ->)|[(Ho & Ha & _ & f & ->)|[(Ho & Ha & _ & ->)|(Ho & Ha & _ & ->)]]];
    rewrite Ho.
  - intros H Hn _. apply not_elem_of_cons in Hn as [Hne Hn].
    rewrite (IH _ H Hn); cbn [materials material].
    + by rewrite lookup_insert_ne.
    + left. congruence.
  - destruct (assign_cases f st) as [[Hm ->]|(k & Hm & ->)]; [done|].
    intros H Hn [Hc|Hc].
    + rewrite (IH _ H Hn); cbn [materials material].
      * rewrite lookup_alter_ne; [done|congruence].
      * left. congruence.
    + by destruct (Hc 0%nat line eq_refl Ha).
  - done.
  - intros H Hn Hc. apply (IH _ H Hn).
    destruct Hc as [Hc|Hc]; [by left|right].
    intros i l Hl Hal. specialize (Hc (S i) l Hl Hal).
    cbn [take] in Hc. by rewrite opened_names_cons, Ho in Hc.
Qed.

Lemma mtl_line_same_words st a b :
  record_words a = record_words b -> MTL.process_line st a = MTL.process_line st b.
Proof. intros H. by rewrite !mtl_line_words, H. Qed.

Lemma mtl_lines_same_words ls ls' st :
  Forall2 (fun a b => record_words a = record_words b) ls ls' ->
  MTL.process_lines st ls = MTL.process_lines st ls'.
Proof.
  intros H. revert st.
  induction H as [|a b ls ls' Hab _ IH]; intros st; simpl; [done|].
  rewrite (mtl_line_same_words st a b Hab).
  destruct (MTL.process_line st b); [apply IH|done].
Qed.

(** *** Texture paths *)

Lemma replace_backslashes_clean s : no_backslash (replace_backslashes s).
Proof.
  unfold no_backslash. induction s as [|c s IH]; [done|].
  cbn [replace_backslashes ObjInv.all_chars]. rewrite IH, andb_true_r.
  fold backslash. by destruct (Ascii.eqb c backslash) eqn:E; [|rewrite E].
Qed.

Lemma replace_backslashes_length s :
  String.length (replace_backslashes s) = String.length s.
Proof. induction s as [|c s IH]; simpl; [done|]. by rewrite IH. Qed.

Lemma replace_backslashes_id s : no_backslash s -> replace_backslashes s = s.
Proof.
  unfold no_backslash. induction s as [|c s IH]; [done|].
  cbn [replace_backslashes ObjInv.all_chars]. fold backslash.
  intros [Hc Hs]%andb_true_iff. apply negb_true_iff in Hc. rewrite Hc.
  by rewrite IH.
Qed.

Lemma replace_backslashes_get s i :
  String.get i (replace_backslashes s) = slashed <$> String.get i s.
Proof.
  revert i. induction s as [|c s IH]; intros i; [done|].
  cbn [replace_backslashes]. destruct i as [|i]; [done|]. cbn [String.get]. apply IH.
Qed.

End MaterialFacts.
(* ===================================================================== *)
(** ** Lines with malformed numeric tokens *)
(* ===================================================================== *)

Module NumberClaims.
Import JS MTL MtlSpec MaterialSpec MaterialFacts.
Local Open Scope list_scope.

Lemma not_digit_val c : ObjInv.is_digit c = false -> digit_val 10 c = None.
Proof. destruct c as [[] [] [] [] [] [] [] []]; by vm_compute. Qed.

Lemma decimal_digits_none acc n s :
  match s with String c _ => ObjInv.is_digit c | EmptyString => false end = false ->
  decimal_digits acc n s = (acc, n, s).
Proof.
  destruct s as [|c r]; [done|]. intros H. cbn [decimal_digits].
  by rewrite (not_digit_val c H).
Qed.

(** [parseFloat] reads a token that does not begin with a number as
    NaN. *)
Lemma parseFloat_malformed tok : malformed tok -> is_nan (parseFloat tok) = true.
Proof.
  unfold malformed, begins_number, parseFloat.
  destruct (strip_sign (trimStart tok)) as [neg s].
  intros [Hinf H]%orb_false_iff. rewrite Hinf.
  destruct s as [|c r]; [done|].
  apply orb_false_iff in H as [Hc Hr].
  rewrite (decimal_digits_none 0 0 (String c r) Hc).
  destruct (Ascii.eqb_spec c ".") as [->|Hne].
  - rewrite (decimal_digits_none 0 0 r Hr). done.
  - assert (E : match String c r with
                | String "." r0 =>
                    let '(m, nf, s3) := decimal_digits 0 0 r0 in
                    if (0 =? 0) && (nf =? 0) then (0, 0, String c r) else (m, nf, s3)
                | _ => (0, 0, String c r)
                end = (0, 0, String c r)).
    { destruct c as [[] [] [] [] [] [] [] []]; done. }
    rewrite E. done.
Qed.

Lemma among_elem l s : among l s = true -> s ∈ l.
Proof.
  unfold among. intros (x & Hx & ->%String.eqb_eq)%existsb_exists.
  by apply list_elem_of_In.
Qed.

(** A property record with a material open: the handler assigns to the
    open material, which then has the property of the directive. *)
Lemma property_line_assigns st line keyword args k :
  record_words line = keyword :: args ->
  among property_keywords keyword = true ->
  material st = Some k ->
  exists f, process_line st line
            = Ok {| materials := alter f k (materials st); material := Some k |} /\
            forall m, has_property keyword (f m).
Proof.
  intros Hline Hkw Hk. rewrite mtl_line_words, Hline.
  apply among_elem in Hkw. unfold property_keywords in Hkw.
  repeat (apply elem_of_cons in Hkw as [->|Hkw]);
    [..|by apply elem_of_nil in Hkw];
    unfold keywords, has_property; compare_strings; cbv iota;
    unfold assign; rewrite Hk; eexists; (split; [reflexivity|]);
    intros m; simpl; eauto.
Qed.

(** C4, as amended.  A line with a malformed numeric token is processed
    like every line of its directive.  [parseFloat] reads a token that
    does not begin with a number as NaN (and [1abc], [1.2.3] and [0x10]
    as the numbers 1, 1.2 and 0 that they begin with).  A position,
    texcoord or normal line appends its record to its array whatever
    its tokens are, and such a token of a position line is a NaN
    component of the record.  With a material open, a record of a
    property directive assigns to the open material, whatever its tokens
    are; an [Ns] record assigns what [parseFloat] reads, NaN for such a
    token; and the material parser completes on every rest of the
    document whose lines are blank, comments, records of the twelve
    directives or records with an unknown first word (one that names no
    inherited method of the handler table). *)
Theorem malformed_token_is_read_as_NaN
    (pre : list string) (line : string) (a : ObjSpec.array_kind) (record : list float)
    (st : State) (mline keyword : string) (margs : list string) (k : string) :
  record_of a line = Some record ->
  record_words mline = keyword :: margs ->
  among property_keywords keyword = true ->
  material st = Some k ->
  (forall tok, malformed tok -> is_nan (parseFloat tok) = true) /\
  (parseFloat "1abc" = 1%float /\ parseFloat "1.2.3" = 1.2%float /\
   parseFloat "0x10" = 0%float) /\
  ObjSpec.array_of a (OBJ.process_lines (pre ++ [line]) OBJ.init)
    = ObjSpec.array_of a (OBJ.process_lines pre OBJ.init) ++ [record] /\
  (forall args i tok,
     a = ObjSpec.Positions -> record_words line = "v" :: args ->
     (i < 3)%nat -> args !! i = Some tok -> malformed tok ->
     exists x, record !! i = Some x /\ is_nan x = true) /\
  (exists f, process_line st mline
             = Ok {| materials := alter f k (materials st); material := Some k |} /\
             forall m, has_property keyword (f m)) /\
  (keyword = "Ns" ->
   process_line st mline
     = Ok {| materials := alter (set_shininess (parseFloat_opt (margs !! 0%nat))) k
                                (materials st);
             material := Some k |} /\
   forall tok, margs !! 0%nat = Some tok -> malformed tok ->
               is_nan (parseFloat_opt (margs !! 0%nat)) = true) /\
  (forall rest, Forall plain rest ->
     exists st', process_lines st (mline :: rest) = Ok st').
Proof.
  intros Hrec Hmline Hkw Hk. split_and!.
  - apply parseFloat_malformed.
  - by vm_compute.
  - by vm_compute.
  - by vm_compute.
  - unfold OBJ.process_lines. rewrite fold_left_app. cbn [fold_left].
    destruct (ObjFacts.process_line_arrays
                (fold_left OBJ.process_line pre OBJ.init) line _
                (ObjFacts.process_lines_traced pre OBJ.init [] ObjFacts.traced_init))
      as (Hp & Ht & Hn).
    destruct a; cbn [ObjSpec.array_of record_of] in *;
      rewrite ?Hp, ?Ht, ?Hn, Hrec; done.
  - intros args i tok -> Hline Hi Htok Hbad. exists (parseFloat tok).
    cbn [record_of] in Hrec. unfold ObjSpec.position_record in Hrec.
    rewrite Hline in Hrec. cbn in Hrec. injection Hrec as <-.
    split; [|by apply parseFloat_malformed].
    unfold OBJ.parse_floats3. by rewrite list_lookup_fmap, lookup_take_lt, Htok.
  - by eapply property_line_assigns.
  - intros ->. split.
    + rewrite mtl_line_words, Hmline. cbn. unfold assign. by rewrite Hk.
    + intros tok -> Hbad. by apply parseFloat_malformed.
  - intros rest Hrest. apply MtlClaims.process_lines_complete; [|by rewrite Hk].
    constructor; [|done]. unfold plain. rewrite Hmline.
    apply among_elem in Hkw. unfold property_keywords in Hkw.
    repeat (apply elem_of_cons in Hkw as [->|Hkw]); [..|by apply elem_of_nil in Hkw];
      reflexivity.
Qed.

Lemma malformed_token_witness :
  (forall tok, malformed tok -> is_nan (parseFloat tok) = true) /\
  (parseFloat "1abc" = 1%float /\ parseFloat "1.2.3" = 1.2%float /\
   parseFloat "0x10" = 0%float) /\
  ObjSpec.array_of ObjSpec.Positions (OBJ.process_lines (["v 1 1 1"] ++ ["v a 0 0"]) OBJ.init)
    = ObjSpec.array_of ObjSpec.Positions (OBJ.process_lines ["v 1 1 1"] OBJ.init)
      ++ [map parseFloat ["a"; "0"; "0"]] /\
  (forall args i tok,
     ObjSpec.Positions = ObjSpec.Positions -> record_words "v a 0 0" = "v" :: args ->
     (i < 3)%nat -> args !! i = Some tok -> malformed tok ->
     exists x, map parseFloat ["a"; "0"; "0"] !! i = Some x /\ is_nan x = true) /\
  (exists f, process_line mtl_leaf_open "Ns abc"
             = Ok {| materials := alter f "leaf" (materials mtl_leaf_open);
                     material := Some "leaf" |} /\
             forall m, has_property "Ns" (f m)) /\
  ("Ns" = "Ns" ->
   process_line mtl_leaf_open "Ns abc"
     = Ok {| materials := alter (set_shininess (parseFloat_opt (["abc"] !! 0%nat))) "leaf"
                                (materials mtl_leaf_open);
             material := Some "leaf" |} /\
   forall tok, ["abc"] !! 0%nat = Some tok -> malformed tok ->
               is_nan (parseFloat_opt (["abc"] !! 0%nat)) = true) /\
  (forall rest, Forall plain rest ->
     exists st', process_lines mtl_leaf_open ("Ns abc" :: rest) = Ok st').
Proof.
  apply (malformed_token_is_read_as_NaN
           ["v 1 1 1"] "v a 0 0" ObjSpec.Positions (map parseFloat ["a"; "0"; "0"])
           mtl_leaf_open "Ns abc" "Ns" ["abc"] "leaf");
    reflexivity.
Defined.

(** C4, as stated, fails: the position line with the malformed token
    still declares a position (with a NaN), the [Ns] line with the
    malformed token still overwrites the shininess (with NaN), and a
    document whose [Ns] line comes before any [newmtl] aborts. *)
Lemma malformed_line_is_not_skipped :
  malformed "a" /\ malformed "abc" /\
  ~ obj_skips "v a 0 0" /\ ~ mtl_skips "Ns abc" /\
  ~ mtl_completes (document ["Ns abc"]).
Proof.
  split_and!; [done|done|..].
  - intros H.
    specialize (H [] ["v 1 0 0"; "v 0 1 0"; "v 0 0 1"; "f 1 2 3"]).
    apply (f_equal (fun d => map is_nan (OBJ.obj_positions d))) in H.
    vm_compute in H. discriminate H.
  - intros H. specialize (H ["newmtl leaf"; "Ns 10"] []).
    apply (f_equal (fun r => match r with
                             | Ok m => is_nan <$> (m !! "leaf" ≫= shininess)
                             | TypeError => None
                             end)) in H.
    vm_compute in H. discriminate H.
  - intros H. by apply H.
Qed.

(** A token that begins with a number is read as that number, whatever
    follows it. *)
Example partial_numbers :
  parseFloat "1abc" = 1%float /\ parseFloat "1.2.3" = 1.2%float /\
  parseFloat "1,5" = 1%float /\ parseFloat "0x10" = 0%float /\
  parseFloat "-.5e1x" = (-5)%float /\
  begins_number "1abc" = true /\ begins_number "0x10" = true /\
  begins_number "-.5e1x" = true /\ begins_number ".e1" = false /\
  begins_number "e5" = false /\ begins_number "-" = false.
Proof. split_and!; by vm_compute. Qed.

End NumberClaims.
(* ===================================================================== *)
(** ** References with negative indices *)
(* ===================================================================== *)

Module RelativeClaims.
Import JS OBJ ObjSpec ObjInv MeshSpec CornerSpec KeyFacts ObjFacts MeshFacts.
Local Open Scope list_scope.

Lemma process_lines_snoc seen line :
  process_lines (seen ++ [line]) init = process_line (process_lines seen init) line.
Proof. unfold process_lines. by rewrite fold_left_app. Qed.

Lemma line_refs_corners st line : line_refs st line = map (mkref st) (line_corners line).
Proof. unfold line_refs, line_corners. by destruct (face_record line). Qed.

Lemma line_denoted_corners st line :
  line_denoted st line = map (denoted st) (line_corners line).
Proof. unfold line_denoted, line_corners. by destruct (face_record line). Qed.

(** The references and what they denote, from the corners and the lines
    before them. *)
Lemma refs_from_corners seen lines :
  refs_from (process_lines seen init) lines
  = map (fun sc => mkref (process_lines sc.1 init) sc.2) (corners_from seen lines).
Proof.
  revert seen. induction lines as [|line rest IH]; intros seen; [done|].
  cbn [refs_from corners_from]. rewrite map_app, map_map, line_refs_corners.
  by rewrite <- process_lines_snoc, IH.
Qed.

Lemma denoted_from_corners seen lines :
  denoted_from (process_lines seen init) lines
  = map (fun sc => denoted (process_lines sc.1 init) sc.2) (corners_from seen lines).
Proof.
  revert seen. induction lines as [|line rest IH]; intros seen; [done|].
  cbn [denoted_from corners_from]. rewrite map_app, map_map, line_denoted_corners.
  by rewrite <- process_lines_snoc, IH.
Qed.

Lemma refs_corners text :
  refs text = map (fun sc => mkref (process_lines sc.1 init) sc.2) (corners text).
Proof. apply (refs_from_corners [] (lines_of text)). Qed.

Lemma denotations_corners text :
  denotations text
  = map (fun sc => denoted (process_lines sc.1 init) sc.2) (corners text).
Proof. apply (denoted_from_corners [] (lines_of text)). Qed.

Lemma corners_from_seen seen lines j s c :
  corners_from seen lines !! j = Some (s, c) -> seen `prefix_of` s.
Proof.
  revert seen j. induction lines as [|line rest IH]; intros seen j; [done|].
  cbn [corners_from]. intros H. apply lookup_app_Some in H as [H|[_ H]].
  - rewrite list_lookup_fmap in H.
    destruct (line_corners line !! j); simplify_eq/=. done.
  - apply IH in H. etrans; [|exact H]. by apply prefix_app_r.
Qed.

(** The lines before an earlier reference are lines before a later
    one. *)
Lemma corners_from_order seen lines j0 j s0 c0 s c :
  (j0 <= j)%nat ->
  corners_from seen lines !! j0 = Some (s0, c0) ->
  corners_from seen lines !! j = Some (s, c) ->
  s0 `prefix_of` s.
Proof.
  revert seen j0 j. induction lines as [|line rest IH]; intros seen j0 j Hle; [done|].
  cbn [corners_from].
  intros H0 H. apply lookup_app_Some in H0 as [H0|[Hl0 H0]];
    apply lookup_app_Some in H as [H|[Hl H]].
  - rewrite list_lookup_fmap in H0, H.
    destruct (line_corners line !! j0), (line_corners line !! j); simplify_eq/=. done.
  - rewrite list_lookup_fmap in H0.
    destruct (line_corners line !! j0); simplify_eq/=.
    apply corners_from_seen in H. etrans; [|exact H]. by apply prefix_app_r.
  - apply lookup_lt_Some in H. lia.
  - eapply (IH _ _ _ _ H0 H). Unshelve. lia.
Qed.

Lemma first_occurrence {A} `{EqDecision A} (l : list A) (j : nat) (x : A) :
  l !! j = Some x ->
  exists j0, (j0 <= j)%nat /\ l !! j0 = Some x /\ (x ∉ take j0 l) /\
             (x ∉ take j l -> j0 = j).
Proof.
  revert l. induction j as [j IH] using lt_wf_ind. intros l Hj.
  destruct (decide (x ∈ take j l)) as [Hin|Hnin].
  - apply list_elem_of_lookup in Hin as [j' Hj'].
    assert (Hlt : (j' < j)%nat).
    { apply lookup_lt_Some in Hj'. rewrite length_take in Hj'. lia. }
    rewrite lookup_take_lt in Hj' by done.
    destruct (IH j' Hlt l Hj') as (j0 & Hle & H0 & Hn & _).
    exists j0. split_and!; [lia|done|done|].
    intros Hc. destruct Hc. apply list_elem_of_lookup. exists j'.
    by rewrite lookup_take_lt.
  - exists j. by split_and!.
Qed.

Lemma declared_prefix a s0 s : s0 `prefix_of` s -> declared a s0 `prefix_of` declared a s.
Proof.
  intros [t ->]. destruct a; cbn [declared];
    unfold declared_positions, declared_texcoords, declared_normals;
    rewrite omap_app; by apply prefix_app_r.
Qed.

Lemma arrays_seen seen a :
  exists sentinel, array_of a (process_lines seen init) = sentinel :: declared a seen.
Proof.
  destruct (process_lines_arrays seen init [] traced_init) as (Hp&Ht&Hn).
  destruct a; simpl; rewrite ?Hp, ?Ht, ?Hn; eauto.
Qed.

Lemma component_resolved a st c :
  component_of a (resolved_triple st c)
  = resolve_index (length (array_of a st)) (index_of a c).
Proof. by destruct a. Qed.

Lemma att_of_denoted a st c :
  att_of a (denoted st c)
  = obj_or (array_get (array_of a st)
                      (resolve_index (length (array_of a st)) (index_of a c)))
           (default_of a).
Proof. by destruct a. Qed.

Lemma kth_most_recent_lookup {A} (l : list A) (k : nat) :
  (1 <= k <= length l)%nat -> kth_most_recent l k = l !! (length l - k)%nat.
Proof.
  intros Hk. unfold kth_most_recent. rewrite reverse_lookup by lia. f_equal. lia.
Qed.

(** The attribute of a vertex is what its first reference denoted. *)
Lemma first_reference_attribute text a j0 i seen0 c0 :
  corners text !! j0 = Some (seen0, c0) ->
  obj_indices (parseOBJ text) !! j0 = Some i ->
  i ∉ take j0 (obj_indices (parseOBJ text)) ->
  well_sized a text ->
  attribute a (parseOBJ text) i = att_of a (denoted (process_lines seen0 init) c0).
Proof.
  intros Hc Hi Hnew Hsize.
  destruct (parse_vertices text) as (_ & _ & _ & _ & _ & _ & _ & _ & _ & _ & Hdata).
  assert (Hd : denotations text !! j0 = Some (denoted (process_lines seen0 init) c0)).
  { by rewrite denotations_corners, list_lookup_fmap, Hc. }
  destruct (Hdata j0 i _ Hi Hd Hnew) as (Bt & Bn & Bp).
  destruct a; cbn [attribute att_of]; [|done|done].
  apply Bp.
  destruct (process_lines_arrays (lines_of text) init [] traced_init) as (-> & _).
  apply Forall_app. split; [by repeat constructor|done].
Qed.




(** The three cases on instances: a new vertex at the record declared
    last, a known vertex at that record, and the vertex that was made
    before the record was declared. *)
Example relative_references :
  obj_positions (parseOBJ (document ["v 1 1 1"; "v 5 5 5"; "f -1 -1 -1"]))
    = [5; 5; 5]%float /\
  obj_indices (parseOBJ doc_quad) = [0; 1; 2; 0; 2; 3; 3; 2; 1]%nat /\
  vertex_position (parseOBJ doc_quad) 3 = [0; 1; 0]%float /\
  obj_indices (parseOBJ doc_dangling) = [0; 1; 1; 0; 1; 1]%nat /\
  vertex_position (parseOBJ doc_dangling) 0 = [0; 0; 0]%float.
Proof. split_and!; by vm_compute. Qed.

End RelativeClaims.

(* ===================================================================== *)
(** ** Further properties of the mesh parser *)
(* ===================================================================== *)

Module MeshExtras.
Import JS OBJ ObjSpec ObjInv MeshSpec ObjFacts LineFacts MeshFacts.
Local Open Scope list_scope.

Lemma indices_below_vertex_count (text : string) :
  Forall (fun i => (i < vertex_count (parseOBJ text))%nat) (obj_indices (parseOBJ text)) /\
  (forall i, (i < vertex_count (parseOBJ text))%nat -> i ∈ obj_indices (parseOBJ text)).
Proof.
  rewrite parse_vertex_count.
  by destruct (parse_vertices text) as (_ & _ & _ & _ & _ & _ & _ & Hlt & Huse & _).
Qed.

(** X1.  For every document, the vertex arrays that [parseOBJ] returns
    hold one texcoord pair and one normal triple per vertex; every index
    is the index of a vertex, every vertex is used by an index, and
    there are at most as many vertices as indices (one per face-corner
    reference). *)
Theorem indices_address_the_vertex_arrays (text : string) :
  let d := parseOBJ text in
  length (obj_texcoords d) = (2 * vertex_count d)%nat /\
  length (obj_normals d) = (3 * vertex_count d)%nat /\
  Forall (fun i => (i < vertex_count d)%nat) (obj_indices d) /\
  (forall i, (i < vertex_count d)%nat -> i ∈ obj_indices d) /\
  (vertex_count d <= length (obj_indices d))%nat.
Proof.
  intros d. subst d. rewrite parse_vertex_count.
  destruct (parse_vertices text) as (_ & _ & _ & Lt & Ln & _ & _ & Hlt & Huse & _).
  split_and!; try done.
  assert (Hsub : seq 0 (vertexCount (process_lines (lines_of text) init))
                   ⊆+ obj_indices (parseOBJ text)).
  { apply NoDup_submseteq; [apply NoDup_seq|].
    intros i Hi. apply Huse. apply elem_of_seq in Hi. lia. }
  apply submseteq_length in Hsub. by rewrite length_seq in Hsub.
Qed.

(** X2.  When an index occurs for the first time in the indices of a
    document, the vertex it names holds the attributes that the
    reference denotes where it stands: the texcoord and normal records at
    its resolved indices, or the defaults [0, 0] and [0, 1, 0]; and the
    position record or [0, 0, 0], provided every position record of
    the document has three coordinates. *)
Theorem new_vertex_stores_denoted_attributes
    (text : string) (j i : nat) (a : Attributes) :
  obj_indices (parseOBJ text) !! j = Some i ->
  denotations text !! j = Some a ->
  i ∉ take j (obj_indices (parseOBJ text)) ->
  vertex_texcoord (parseOBJ text) i = att_texcoord a /\
  vertex_normal (parseOBJ text) i = att_normal a /\
  (Forall triples (declared_positions (lines_of text)) ->
   vertex_position (parseOBJ text) i = att_position a).
Proof.
  intros Hj Ha Hnew.
  destruct (parse_vertices text) as (_ & _ & _ & _ & _ & _ & _ & _ & _ & _ & Hdata).
  destruct (Hdata j i a Hj Ha Hnew) as (Bt & Bn & Bp).
  split_and!; [done..|]. intros Hp. apply Bp.
  destruct (process_lines_arrays (lines_of text) init [] traced_init) as (-> & _).
  apply Forall_app. split; [by repeat constructor|done].
Qed.

Lemma new_vertex_witness :
  vertex_texcoord (parseOBJ doc_shared_edge) 3 = [0; 0]%float /\
  vertex_normal (parseOBJ doc_shared_edge) 3 = [0; 1; 0]%float /\
  (Forall triples (declared_positions (lines_of doc_shared_edge)) ->
   vertex_position (parseOBJ doc_shared_edge) 3 = [0; 1; 0]%float).
Proof.
  apply (new_vertex_stores_denoted_attributes doc_shared_edge 5 3
           {| att_position := [0; 1; 0]%float; att_texcoord := [0; 0]%float;
              att_normal := [0; 1; 0]%float |}).
  - by vm_compute.
  - by vm_compute.
  - vm_compute. intros H.
    repeat (apply elem_of_cons in H as [H|H]; [discriminate H|]).
    by apply elem_of_nil in H.
Defined.

(** The quad of two triangles that share an edge has four vertices. *)
Example shared_edge_vertices :
  obj_indices (parseOBJ doc_shared_edge) = [0; 1; 2; 0; 2; 3]%nat /\
  vertex_count (parseOBJ doc_shared_edge) = 4%nat /\
  vertex_normal (parseOBJ doc_shared_edge) 0 = [0; 0; 1]%float.
Proof. by vm_compute. Qed.

(** A position record with two coordinates shifts the positions of the
    vertices after it. *)
Example short_position_shifts :
  obj_positions (parseOBJ (document ["v 1 2"; "v 3 4 5"; "f 1 2 2"]))
    = [1; 2; 3; 4; 5]%float.
Proof. by vm_compute. Qed.

(** X3.  Indices count from 1: in each of the three arrays the index
    [k] from 1 to the number [n] of records declared so far names the
    [k]-th declared record; 0, an index above [n] and an index below
    [-n-1] name nothing, and so does an absent index; the index [-n-1]
    names the placeholder that the array starts with. *)
Theorem index_resolution_is_one_based
    (lines : list string) (a : array_kind) (k : Z) :
  let st := process_lines lines init in
  let n := Z.of_nat (length (declared a lines)) in
  let found :=
    array_get (array_of a st) (resolve_index (length (array_of a st)) (Some k)) in
  (1 <= k <= n -> found = declared a lines !! Z.to_nat (k - 1)) /\
  (k = 0 \/ n < k \/ k < - n - 1 -> found = None) /\
  (k = - n - 1 -> found = array_of a init !! 0%nat) /\
  array_get (array_of a st) (resolve_index (length (array_of a st)) None) = None.
Proof.
  intros st n found. subst st n found.
  assert (exists sentinel,
            array_of a init = [sentinel] /\
            array_of a (process_lines lines init) = sentinel :: declared a lines)
    as (sentinel & Hinit & ->).
  { destruct (process_lines_arrays lines init [] traced_init) as (Hp&Ht&Hn).
    destruct a; simpl; rewrite ?Hp, ?Ht, ?Hn; eauto. }
  rewrite Hinit. unfold array_get, resolve_index. cbn [length].
  split_and!; [| | |done].
  - intros Hk. destruct (0 <? k) eqn:E; [|lia].
    destruct (k <? 0) eqn:E'; [lia|].
    replace (Z.to_nat k) with (S (Z.to_nat (k - 1))) by lia. done.
  - intros Hk. destruct (0 <? k) eqn:E.
    + destruct (k <? 0) eqn:E'; [done|].
      apply lookup_ge_None_2. cbn [length]. lia.
    + destruct (Z.of_nat (S (length (declared a lines))) + k <? 0) eqn:E'; [done|].
      apply lookup_ge_None_2. cbn [length].
      apply Z.ltb_ge in E, E'. destruct Hk as [->|[Hk|Hk]]; lia.
  - intros ->. destruct (0 <? _) eqn:E; [apply Z.ltb_lt in E; lia|].
    replace (Z.of_nat (S (length (declared a lines)))
             + (- Z.of_nat (length (declared a lines)) - 1)) with 0 by lia.
    done.
Qed.

Lemma partitions_le a gs b : partitions a gs b -> a <= b.
Proof.
  revert a. induction gs as [|g gs IH]; simpl; intros a; [lia|].
  intros (_ & Hpos & H). apply IH in H. lia.
Qed.

Lemma partitions_empty a gs : partitions a gs a -> gs = [].
Proof.
  destruct gs as [|g gs]; [done|]. simpl.
  intros (_ & Hpos & H). apply partitions_le in H. lia.
Qed.

(** X4.  A face record with fewer than three corners makes no triangle
    and no vertex: a document whose face records all have fewer than
    three corners (or that has none) is parsed to the empty mesh, with
    no span, whatever else it declares. *)
Theorem faces_below_three_corners_emit_nothing (text : string) :
  Forall (fun k => k < 3) (corner_counts text) -> parseOBJ text = empty_mesh.
Proof.
  intros Hk.
  pose proof (parse_traced text) as Ht.
  set (st := process_lines (lines_of text) init) in *.
  assert (Hi : indices st = []).
  { apply length_zero_iff_nil.
    rewrite (traced_length _ _ Ht). unfold refs. rewrite refs_from_length.
    unfold corner_counts in Hk. rewrite Forall_map in Hk.
    induction Hk as [|args fs Ha _ IH]; simpl in *; lia. }
  destruct (parse_vertices text)
    as (_ & _ & _ & Lt & Ln & _ & Lz & _ & Huse & _).
  fold st in Lt, Ln, Lz, Huse.
  change (obj_indices (parseOBJ text)) with (indices st) in Huse.
  rewrite Hi in Huse.
  assert (Hvc : vertexCount st = 0%nat).
  { destruct (vertexCount st) as [|vc] eqn:E; [done|].
    assert (H0 : (0 < S vc)%nat) by lia. apply Huse in H0. by apply elem_of_nil in H0. }
  rewrite Hvc in Lt, Ln. apply length_zero_iff_nil in Lt, Ln.
  assert (Hg : close_geometry st = []).
  { apply (partitions_empty 0).
    pose proof (close_geometry_partitions _
                  (process_lines_spans (lines_of text) init [] traced_init spans_ok_init))
      as Hp.
    fold st in Hp. by rewrite Hi in Hp. }
  unfold empty_mesh, parseOBJ, finish.
  change (split_on "010" text) with (lines_of text). fold st.
  by rewrite (Lz Hvc), Lt, Ln, Hi, Hg.
Qed.

Lemma degenerate_faces_witness : parseOBJ doc_degenerate = empty_mesh.
Proof.
  apply (faces_below_three_corners_emit_nothing doc_degenerate).
  vm_compute. repeat constructor.
Defined.

(** *** Lines that are no records *)

Lemma process_line_same_words st a b :
  record_words a = record_words b -> process_line st a = process_line st b.
Proof. intros H. by rewrite !process_line_words, H. Qed.

Lemma process_lines_same_words ls ls' st :
  Forall2 (fun a b => record_words a = record_words b) ls ls' ->
  process_lines ls st = process_lines ls' st.
Proof.
  intros H. revert st. unfold process_lines.
  induction H as [|a b ls ls' Hab _ IH]; intros st; simpl; [done|].
  by rewrite (process_line_same_words st a b Hab), IH.
Qed.

Lemma process_lines_document ls st :
  process_lines (lines_of (document ls)) st = process_lines (flat_map lines_of ls) st.
Proof. destruct ls as [|l ls]; [done|]. by rewrite lines_of_document. Qed.

Lemma process_line_ignorable st line :
  obj_ignorable line -> process_line st line = st.
Proof.
  unfold obj_ignorable. rewrite process_line_words.
  destruct (record_words line) as [|cmd args]; [done|].
  unfold MTL.among, obj_commands, command. simpl.
  intros H. repeat (apply orb_false_elim in H as [-> H]). done.
Qed.

(** X5.  A line (without a line break) that is blank, a comment, or
    starts with a word other than [v], [vt], [vn], [usemtl] and [f] is
    skipped: the document parses to the same mesh with the line and
    without it. *)
Theorem lines_that_are_no_records_are_skipped (line : string) :
  one_line line -> obj_ignorable line -> MtlSpec.obj_skips line.
Proof.
  intros H1 Hi pre post. unfold parseOBJ.
  change (split_on "010") with lines_of.
  rewrite !process_lines_document, !flat_map_app. cbn [flat_map].
  rewrite (lines_of_one_line line H1). unfold process_lines.
  rewrite !fold_left_app. cbn [app fold_left].
  by rewrite process_line_ignorable.
Qed.

Lemma group_line_is_skipped : MtlSpec.obj_skips "g leaves # of the plant".
Proof.
  apply (lines_that_are_no_records_are_skipped "g leaves # of the plant");
    by vm_compute.
Defined.

End MeshExtras.

(* ===================================================================== *)
(** ** Further properties of the material parser *)
(* ===================================================================== *)

Module MaterialExtras.
Import JS MTL MaterialSpec LineFacts MaterialFacts.
Local Open Scope list_scope.

Lemma parseMTL_lines text :
  parseMTL text
  = match MTL.process_lines start (lines_of text) with
    | Ok st => Ok (materials st)
    | TypeError => TypeError
    end.
Proof. done. Qed.

(** X6.  [parseMTL] throws exactly when the document has a line whose
    first word names a throwing inherited property of the handler table,
    or a record of a property directive that no [newmtl] line precedes;
    otherwise it returns its dictionary. *)
Theorem parseMTL_throws_exactly_when (text : string) :
  parseMTL text = TypeError <->
  exists i line, lines_of text !! i = Some line /\
    (throws line = true \/
     (assigns line = true /\ opened_names (take i (lines_of text)) = [])).
Proof.
  rewrite parseMTL_lines.
  pose proof (mtl_lines_abort (lines_of text) start) as H.
  destruct (MTL.process_lines start (lines_of text)) as [st|].
  - split; [done|]. intros (i & l & Hl & Hc).
    assert (@Ok State st = TypeError); [|done]. apply H. exists i, l. split; [done|].
    destruct Hc as [?|[??]]; [by left|by right].
  - split; [|done]. intros _. destruct (proj1 H eq_refl) as (i & l & Hl & Hc).
    exists i, l. split; [done|]. destruct Hc as [?|(?&?&?)]; [by left|by right].
Qed.

Example property_before_newmtl_throws :
  parseMTL (document ["# a comment"; "Kd 1 0 0"; "newmtl leaf"]) = TypeError /\
  parseMTL (document ["newmtl leaf"; "valueOf"]) = TypeError /\
  parseMTL (document ["newmtl leaf"; "toString"; "Tr 0"]) = Ok {[ "leaf" := empty_material ]}.
Proof. split_and!; by vm_compute. Qed.

(** X7.  When [parseMTL] returns, the own properties of its dictionary
    have exactly the names that the [newmtl] lines of the document give
    (the words after the directive joined by single spaces, the empty
    name if there is none), but for the name [__proto__]: a [newmtl]
    line with that name gives the dictionary no own property and
    installs the material as its prototype instead. *)
Theorem material_names_are_the_opened_names
    (text : string) (mats : gmap string Material) (n : string) :
  parseMTL text = Ok mats ->
  (n ∈ own_names mats <-> n ∈ opened_names (lines_of text) /\ n <> proto_name) /\
  (is_Some (prototype mats) <-> proto_name ∈ opened_names (lines_of text)).
Proof.
  rewrite parseMTL_lines.
  destruct (MTL.process_lines start (lines_of text)) as [st|] eqn:E; [|done].
  intros [= <-].
  assert (Hn : forall k, is_Some (materials st !! k) <-> k ∈ opened_names (lines_of text)).
  { intros k. rewrite (mtl_lines_names _ _ _ k E). cbn [materials start].
    rewrite lookup_empty. split; [intros [[? [=]]|?]; done|by right]. }
  split.
  - unfold own_names. rewrite elem_of_dom.
    destruct (decide (n = proto_name)) as [->|Hne].
    + rewrite lookup_delete_eq. split; [by intros [? [=]]|by intros [_ ?]].
    + rewrite lookup_delete_ne by done. rewrite Hn. intuition.
  - apply Hn.
Qed.

Lemma material_names_witness :
  ("leaf" ∈ own_names ({[ "__proto__" := MtlSpec.only_Ns 5; "leaf" := empty_material ]}
                       : gmap string Material)
   <-> "leaf" ∈ opened_names (lines_of mtl_proto) /\ "leaf" <> proto_name) /\
  (is_Some (prototype ({[ "__proto__" := MtlSpec.only_Ns 5; "leaf" := empty_material ]}
                       : gmap string Material))
   <-> proto_name ∈ opened_names (lines_of mtl_proto)).
Proof.
  apply (material_names_are_the_opened_names mtl_proto). by vm_compute.
Defined.

(** The material named [__proto__] is no own property of the
    dictionary. *)
Example proto_is_no_own_name :
  let mats : gmap string Material :=
    {[ "__proto__" := MtlSpec.only_Ns 5; "leaf" := empty_material ]} in
  parseMTL mtl_proto = Ok mats /\
  prototype mats = Some (MtlSpec.only_Ns 5) /\
  "leaf" ∈ own_names mats /\ "__proto__" ∉ own_names mats.
Proof.
  cbv zeta. split_and!.
  - by vm_compute.
  - by vm_compute.
  - unfold own_names. apply elem_of_dom. vm_compute. by eexists.
  - unfold own_names. rewrite elem_of_dom, lookup_delete_eq. by intros [? [=]].
Qed.

(** X8.  Text that is appended to a material document does not change
    a material of the document, unless it opens a material of that name
    or has a property record before its first [newmtl] line. *)
Theorem appended_blocks_leave_a_material_unchanged
    (pre post : string) (n : string) (mats mats' : gmap string Material) :
  parseMTL pre = Ok mats ->
  parseMTL (pre +:+ String newline post) = Ok mats' ->
  n ∉ opened_names (lines_of post) ->
  (forall i l, lines_of post !! i = Some l -> assigns l = true ->
               opened_names (take i (lines_of post)) <> []) ->
  mats' !! n = mats !! n.
Proof.
  rewrite !parseMTL_lines. unfold lines_of at 2. rewrite split_on_app.
  fold (lines_of pre) (lines_of post). rewrite mtl_lines_app.
  destruct (MTL.process_lines start (lines_of pre)) as [st|]; [|done].
  intros [= <-].
  destruct (MTL.process_lines st (lines_of post)) as [st'|] eqn:E; [|done].
  intros [= <-] Hn Ha. apply (mtl_lines_closed _ _ _ n E Hn). by right.
Qed.

Lemma appended_blocks_witness :
  ({[ "leaf" := MtlSpec.only_Ns 10; "old bark" := bark ]} : gmap string Material) !! "leaf"
  = MtlSpec.mats_leaf !! "leaf".
Proof.
  apply (appended_blocks_leave_a_material_unchanged mtl_leaf mtl_bark "leaf").
  - by vm_compute.
  - by vm_compute.
  - vm_compute. intros H.
    repeat (apply elem_of_cons in H as [H|H]; [discriminate H|]).
    by apply elem_of_nil in H.
  - intros i l Hl Ha.
    do 5 (destruct i as [|i]; [vm_compute in Hl; simplify_eq; by vm_compute in Ha|]).
    by vm_compute in Hl.
Defined.

(** X9.  The path of a texture is [js/] followed by the words of the
    directive joined by single spaces, with every backslash replaced by a
    slash and every other character kept: the part after [js/] has the
    length of the joined words, at every place it has a slash where they
    have a backslash and their character elsewhere; so it holds no
    backslash, and it is the joined words when they hold none. *)
Theorem texture_path_replaces_every_backslash (parts : list string) :
  exists p,
    loadTextureFromPath parts = "js/" +:+ p /\
    String.length p = String.length (join " " parts) /\
    (forall i, String.get i p = slashed <$> String.get i (join " " parts)) /\
    no_backslash p /\
    (no_backslash (join " " parts) -> p = join " " parts).
Proof.
  exists (replace_backslashes (join " " parts)). split_and!.
  - done.
  - apply replace_backslashes_length.
  - apply replace_backslashes_get.
  - apply replace_backslashes_clean.
  - apply replace_backslashes_id.
Qed.

Example texture_path_of_bark :
  parseMTL mtl_bark = Ok {[ "old bark" := bark ]}.
Proof. by vm_compute. Qed.

(** *** Line ends and lines that are no records *)

Lemma with_cr_obj lines st :
  OBJ.process_lines (MeshSpec.with_cr lines) st = OBJ.process_lines lines st.
Proof. apply MeshExtras.process_lines_same_words, with_cr_words. Qed.

(** X10.  Both parsers read a document with the line ends CR LF as they
    read it with the line ends LF. *)
Theorem crlf_line_ends_are_ignored (text : string) :
  OBJ.parseOBJ (MeshSpec.to_crlf text) = OBJ.parseOBJ text /\
  parseMTL (MeshSpec.to_crlf text) = parseMTL text.
Proof.
  split.
  - unfold OBJ.parseOBJ. change (split_on "010") with lines_of.
    by rewrite lines_of_to_crlf, with_cr_obj.
  - rewrite !parseMTL_lines, lines_of_to_crlf.
    by rewrite (mtl_lines_same_words _ _ _ (with_cr_words (lines_of text))).
Qed.

Lemma mtl_lines_document ls st :
  MTL.process_lines st (lines_of (document ls))
  = MTL.process_lines st (flat_map lines_of ls).
Proof. destruct ls as [|l ls]; [done|]. by rewrite lines_of_document. Qed.

(** X11.  The material parser skips a line (without a line break) that
    is blank, a comment, or starts with a word that is no directive of
    its table and no throwing inherited property; [constructor] and
    [toString] are such words. *)
Theorem material_lines_that_are_no_records_are_skipped (line : string) :
  MeshSpec.one_line line ->
  opens line = None -> assigns line = false -> throws line = false ->
  MtlSpec.mtl_skips line.
Proof.
  intros H1 Ho Ha Ht pre post. rewrite !parseMTL_lines, !mtl_lines_document.
  rewrite !flat_map_app. cbn [flat_map]. rewrite (lines_of_one_line line H1).
  rewrite !mtl_lines_app.
  destruct (MTL.process_lines start (flat_map lines_of pre)) as [st|]; [|done].
  cbn [app MTL.process_lines].
  destruct (mtl_line_cases st line)
    as [(n & ? & _)|[(_ & ? & _)|[(_ & _ & ? & _)|(_ & _ & _ & ->)]]]; congruence.
Qed.

Lemma constructor_line_is_skipped : MtlSpec.mtl_skips "constructor 1 2 3".
Proof.
  apply (material_lines_that_are_no_records_are_skipped "constructor 1 2 3");
    by vm_compute.
Defined.

End MaterialExtras.

(* ===================================================================== *)
(** ** Properties of the loaded model *)
(* ===================================================================== *)

Module LoadExtras.
Import JS Load LoadSpec.
Local Open Scope list_scope.

Lemma partitions_tiles a gs b :
  ObjSpec.partitions a gs b -> tiles a (map geometry_span gs) b.
Proof.
  revert a. induction gs as [|g gs IH]; intros a; simpl; [done|].
  intros (? & ? & ?). eauto.
Qed.

Lemma truthy_num_or x d : truthy d = true -> truthy (num_or x d) = true.
Proof.
  intros Hd. unfold num_or. destruct x as [v|]; [|done].
  by destruct (truthy v) eqn:E.
Qed.

Lemma num_or_truthy v d : truthy v = true -> num_or (Some v) d = v.
Proof. intros H. unfold num_or. by rewrite H. Qed.

Lemma illum_or_nonzero x d : d <> 0 -> Loader.illum_or x d <> 0.
Proof.
  intros Hd. unfold Loader.illum_or. destruct x as [[z|]|]; [|done..].
  destruct (z =? 0) eqn:E; [done|]. by apply Z.eqb_neq.
Qed.

Lemma resolve_material_complete m : complete (Loader.resolve_material m).
Proof.
  unfold complete, Loader.resolve_material. cbn. split_and!; eauto.
  - eexists. split; [done|]. by apply truthy_num_or.
  - eexists. split; [done|]. by apply truthy_num_or.
  - eexists. split; [done|]. by apply illum_or_nonzero.
Qed.

(** X12.  Resolving a resolved material changes nothing, and the
    material of a resolved mesh has its six defaulted properties, with
    numbers that are not falsy: the fallback [|| 32.0] of
    [setupPlantMaterial] is never taken for a loaded mesh. *)
Theorem material_resolution_is_idempotent (m : option MTL.Material) :
  let r := Loader.resolve_material m in
  Loader.resolve_material (Some r) = r /\
  complete r /\
  MTL.shininess r = Some (num_or (MTL.shininess r) 32).
Proof.
  intros r. pose proof (resolve_material_complete m) as Hc. fold r in Hc.
  destruct Hc as ((s & Hs & Ts) & (a & Ha) & (d & Hd) & (sp & Hsp) & (o & Ho & To)
                  & (i & Hi & Ni)).
  split_and!.
  - unfold Loader.resolve_material at 1. cbn [obj_or mbind option_bind].
    rewrite Hs, Ha, Hd, Hsp, Ho, Hi. cbn [obj_or Loader.illum_or].
    rewrite (num_or_truthy _ _ Ts), (num_or_truthy _ _ To).
    apply Z.eqb_neq in Ni. rewrite Ni.
    destruct r; simpl in *; by simplify_eq.
  - unfold complete. rewrite Hs, Ha, Hd, Hsp, Ho, Hi. split_and!; eauto.
  - by rewrite Hs, (num_or_truthy _ _ Ts).
Qed.

Lemma createGeometry_spans d mats :
  map mesh_span (Loader.meshes (Loader.createGeometryWithMaterials d mats))
  = map geometry_span (OBJ.obj_geometries d).
Proof.
  unfold Loader.createGeometryWithMaterials. cbn [Loader.meshes].
  rewrite map_map. done.
Qed.

Lemma loaded_model fetch objUrl mtlUrl model urls :
  loadOBJWithMTL fetch objUrl mtlUrl = (Resolved model, urls) ->
  exists mtl obj mats,
    fetch mtlUrl = Some mtl /\ fetch objUrl = Some obj /\
    MTL.parseMTL mtl = MTL.Ok mats /\
    model = Loader.createGeometryWithMaterials (OBJ.parseOBJ obj) mats /\
    urls = [mtlUrl; objUrl].
Proof.
  unfold loadOBJWithMTL.
  destruct (fetch mtlUrl) as [mtl|] eqn:E1; [|done].
  destruct (MTL.parseMTL mtl) as [mats|] eqn:E2; [|done].
  destruct (fetch objUrl) as [obj|] eqn:E3; [|done].
  intros [= <- <-]. exists mtl, obj, mats. by split_and!.
Qed.

Lemma parsed_meshes_tile text mats :
  tiles 0 (map mesh_span
             (Loader.meshes (Loader.createGeometryWithMaterials (OBJ.parseOBJ text) mats)))
        (Z.of_nat (length (Loader.indices
                             (Loader.createGeometryWithMaterials (OBJ.parseOBJ text) mats)))).
Proof.
  rewrite createGeometry_spans.
  cbn [Loader.createGeometryWithMaterials Loader.indices]. rewrite length_map.
  apply partitions_tiles.
  apply (ObjFacts.close_geometry_partitions
           (OBJ.process_lines (Lines.lines_of text) OBJ.init)).
  eapply ObjFacts.process_lines_spans;
    [apply ObjFacts.traced_init|apply ObjFacts.spans_ok_init].
Qed.

(** X13.  When the promise of [loadOBJWithMTL] resolves, whatever the
    two documents are, the meshes of the model are contiguous ranges
    that tile its index array in order, none of them empty; its
    texcoords and normals hold two and three numbers per vertex; and
    the material of every mesh is complete. *)
Theorem loaded_model_is_tiled_by_its_meshes
    (fetch : string -> option string) (objUrl mtlUrl : string)
    (model : Loader.Model) (urls : list string) :
  loadOBJWithMTL fetch objUrl mtlUrl = (Resolved model, urls) ->
  tiles 0 (map mesh_span (Loader.meshes model))
        (Z.of_nat (length (Loader.indices model))) /\
  length (Loader.texcoords model) = (2 * model_vertices model)%nat /\
  length (Loader.normals model) = (3 * model_vertices model)%nat /\
  Forall (fun mesh => complete (Loader.material mesh)) (Loader.meshes model).
Proof.
  intros (mtl & obj & mats & _ & _ & _ & -> & _)%loaded_model.
  destruct (MeshFacts.parse_vertices obj) as (_ & _ & _ & Lt & Ln & _).
  pose proof (MeshFacts.parse_vertex_count obj) as Hvc.
  unfold MeshSpec.vertex_count in Hvc.
  split_and!.
  - apply parsed_meshes_tile.
  - unfold model_vertices.
    cbn [Loader.createGeometryWithMaterials Loader.texcoords Loader.normals].
    rewrite !length_map, Hvc. exact Lt.
  - unfold model_vertices.
    cbn [Loader.createGeometryWithMaterials Loader.normals].
    rewrite !length_map, Hvc. exact Ln.
  - cbn [Loader.createGeometryWithMaterials Loader.meshes].
    apply Forall_map, Forall_forall. intros g _. apply resolve_material_complete.
Qed.

Lemma loaded_model_witness :
  let model := Loader.createGeometryWithMaterials
                 (OBJ.parseOBJ ObjSpec.doc_quad) MtlSpec.mats_leaf in
  tiles 0 (map mesh_span (Loader.meshes model))
        (Z.of_nat (length (Loader.indices model))) /\
  length (Loader.texcoords model) = (2 * model_vertices model)%nat /\
  length (Loader.normals model) = (3 * model_vertices model)%nat /\
  Forall (fun mesh => complete (Loader.material mesh)) (Loader.meshes model).
Proof.
  apply (loaded_model_is_tiled_by_its_meshes
           (serve "plant.obj" ObjSpec.doc_quad "plant.mtl" MaterialSpec.mtl_leaf)
           "plant.obj" "plant.mtl" _ ["plant.mtl"; "plant.obj"]).
  by vm_compute.
Defined.

(** X14.  The indices of a model are the indices of the parsed mesh
    reduced modulo 65536 by the conversion to [Uint16Array]: they are
    the same numbers, each below the number of vertices, when the mesh
    has at most 65536 vertices. *)
Theorem small_meshes_keep_their_indices
    (text : string) (mats : gmap string MTL.Material) :
  let d := OBJ.parseOBJ text in
  let model := Loader.createGeometryWithMaterials d mats in
  Forall (fun i => 0 <= i < 65536) (Loader.indices model) /\
  (Z.of_nat (MeshSpec.vertex_count d) <= 65536 ->
   Loader.indices model = map Z.of_nat (OBJ.obj_indices d) /\
   Forall (fun i => 0 <= i < Z.of_nat (model_vertices model)) (Loader.indices model)).
Proof.
  intros d model. subst model.
  cbn [Loader.createGeometryWithMaterials Loader.indices].
  split.
  - apply Forall_map, Forall_forall. intros i _. unfold Loader.to_uint16.
    apply Z.mod_pos_bound. lia.
  - intros Hn.
    destruct (MeshExtras.indices_below_vertex_count text) as (Hlt & _).
    assert (Heq : map Loader.to_uint16 (OBJ.obj_indices d)
                  = map Z.of_nat (OBJ.obj_indices d)).
    { apply map_ext_Forall. eapply Forall_impl; [exact Hlt|].
      intros i Hi. unfold Loader.to_uint16. apply Z.mod_small.
      fold d in Hi. simpl in Hi. lia. }
    rewrite Heq. split; [done|].
    apply Forall_map. eapply Forall_impl; [exact Hlt|].
    intros i Hi. unfold model_vertices.
    cbn [Loader.createGeometryWithMaterials Loader.normals]. rewrite length_map.
    fold d in Hi. unfold MeshSpec.vertex_count in Hi. simpl in Hi |- *. lia.
Qed.

Lemma small_mesh_witness :
  Loader.indices (Loader.createGeometryWithMaterials
                    (OBJ.parseOBJ ObjSpec.doc_quad) MtlSpec.mats_leaf)
  = map Z.of_nat (OBJ.obj_indices (OBJ.parseOBJ ObjSpec.doc_quad)).
Proof.
  apply (small_meshes_keep_their_indices ObjSpec.doc_quad MtlSpec.mats_leaf).
  by vm_compute.
Defined.

End LoadExtras.

(* ===================================================================== *)
(** ** Further properties of the render loop *)
(* ===================================================================== *)

Module SceneExtras.
Import JS Scene SceneSpec DrawSpec.
Local Open Scope list_scope.

Section WithMV.
Context `{MV : MVlib}.

Ltac read_store :=
  repeat first
    [ rewrite lookup_insert_eq
    | rewrite lookup_insert_ne by discriminate ].

(** The names of the sampler properties are evaluated. *)
Ltac join_strings :=
  repeat match goal with
         | |- context [String.append ?a ?b] =>
             let v := eval vm_compute in (String.append a b) in
             change (String.append a b) with v
         end.

(** *** Textures *)

Lemma bindTextures_textures gl :
  let gl' := bindTextures gl in
  draws gl' = draws gl /\
  texture_units gl' !! 0 = Some (Some albedo_png) /\
  texture_units gl' !! 1 = Some (Some normal_png) /\
  uniforms gl' !! "uAlbedoMap" = Some (Uniform1i 0) /\
  uniforms gl' !! "uNormalMap" = Some (Uniform1i 1) /\
  shared_maps (texture_units gl') (uniforms gl').
Proof.
  unfold bindTextures, textures, shared_maps. cbn [fold_left bindSceneTexture].
  join_strings. cbn.
  split_and!; by read_store.
Qed.

Lemma drawSphere_textures gl :
  exists d,
    draws (drawSphere gl) = draws gl ++ [d] /\
    draw_textures d = texture_units gl /\
    (forall k, k <> "uUseSpecular" -> draw_uniforms d !! k = uniforms gl !! k) /\
    texture_units (drawSphere gl) = texture_units gl /\
    (forall k, k <> "uUseSpecular" ->
               uniforms (drawSphere gl) !! k = uniforms gl !! k).
Proof.
  eexists. unfold drawSphere. cbv zeta.
  rewrite SceneClaims.draws_drawElements. split; [reflexivity|]. cbn.
  split_and!; [done| |done|]; intros k Hk; by rewrite lookup_insert_ne.
Qed.

Lemma setupPlantMaterial_textures mesh gl :
  shared_maps (texture_units gl) (uniforms gl) ->
  let gl' := setupPlantMaterial mesh gl in
  let m := Loader.material mesh in
  draws gl' = draws gl /\
  texture_units gl' !! 0 = Some (MTL.map_Kd m) /\
  texture_units gl' !! 1 = Some (MTL.map_Bump m) /\
  texture_units gl' !! 5 = Some (specular_map m) /\
  uniforms gl' !! "uAlbedoMap" = Some (Uniform1i 0) /\
  uniforms gl' !! "uNormalMap" = Some (Uniform1i 1) /\
  uniforms gl' !! "uSpecularMap" = Some (Uniform1i 5) /\
  uniforms gl' !! "uShininess" = Some (Uniform1f (num_or (MTL.shininess m) 32)) /\
  shared_maps (texture_units gl') (uniforms gl').
Proof.
  intros (U2 & U3 & U4 & S2 & S3 & S4).
  unfold setupPlantMaterial, shared_maps, specular_map. cbn.
  split_and!; by read_store.
Qed.

Lemma drawMesh_textures gl mesh :
  shared_maps (texture_units gl) (uniforms gl) ->
  exists d,
    draws (drawMesh gl mesh) = draws gl ++ [d] /\
    plant_textures d mesh /\
    shared_maps (texture_units (drawMesh gl mesh)) (uniforms (drawMesh gl mesh)).
Proof.
  intros Hs.
  destruct (setupPlantMaterial_textures mesh gl Hs)
    as (Hd & T0 & T1 & T5 & A & N & S & Sh & Hs').
  unfold drawMesh. cbv zeta.
  generalize dependent (setupPlantMaterial mesh gl). intros g Hd T0 T1 T5 A N S Sh Hs'.
  eexists. rewrite SceneClaims.draws_drawElements, Hd. split; [reflexivity|].
  split; [|exact Hs']. unfold plant_textures. cbn. by split_and!.
Qed.

Lemma drawMeshes_textures ms gl :
  shared_maps (texture_units gl) (uniforms gl) ->
  exists ds,
    draws (fold_left drawMesh ms gl) = draws gl ++ ds /\
    Forall2 plant_textures ds ms.
Proof.
  revert gl. induction ms as [|mesh ms IH]; intros gl Hs; simpl.
  - exists []. by rewrite app_nil_r.
  - destruct (drawMesh_textures gl mesh Hs) as (d & Hd & Hp & Hs').
    generalize dependent (drawMesh gl mesh). intros g Hd Hs'.
    destruct (IH g Hs') as (ds & Hds & Hall).
    exists (d :: ds). rewrite Hds, Hd, <- app_assoc. split; [done|].
    by constructor.
Qed.

Lemma plant_prelude_textures worldMatrix gl :
  shared_maps (texture_units gl) (uniforms gl) ->
  let gl' :=
    bindElementArrayBuffer plant_indexBuffer
      (vertexAttribPointer aNormal 3
         (bindArrayBuffer plant_normalBuffer
            (vertexAttribPointer aTexCoord 2
               (bindArrayBuffer plant_texcoordBuffer
                  (vertexAttribPointer aPosition 3
                     (bindArrayBuffer plant_positionBuffer
                        (uniform (uniformLocations "world")
                           (UniformMatrix4fv (mult worldMatrix (translate 0 radius 0)))
                           (uniform (uniformLocations "useSpecular")
                                    (Uniform1i 1) gl)))))))) in
  draws gl' = draws gl /\
  shared_maps (texture_units gl') (uniforms gl').
Proof.
  intros (U2 & U3 & U4 & S2 & S3 & S4). unfold shared_maps. cbn.
  split_and!; by read_store.
Qed.

Lemma drawPlant_textures plant worldMatrix gl :
  shared_maps (texture_units gl) (uniforms gl) ->
  exists ds,
    draws (drawPlant plant worldMatrix gl) = draws gl ++ ds /\
    Forall2 plant_textures ds (meshes plant).
Proof.
  intros Hs. unfold drawPlant. cbv zeta.
  destruct (plant_prelude_textures worldMatrix gl Hs) as (Hd & Hs'). cbv zeta in Hd, Hs'.
  match type of Hd with
  | draws ?g = _ => generalize dependent g
  end.
  intros g Hd Hs'.
  destruct (drawMeshes_textures (meshes plant) g Hs') as (ds & Hds & Hall).
  destruct (SceneClaims.restoreLighting_spec (fold_left drawMesh (meshes plant) g))
    as [Hr _].
  exists ds. rewrite Hr, Hds, Hd. by split.
Qed.

Lemma render_textures (gl : GL) (f : Frame) :
  exists (sphere : DrawCall) (plant_draws : list DrawCall),
    draws (render gl f) = draws gl ++ sphere :: plant_draws /\
    scene_textures sphere /\
    Forall2 plant_textures plant_draws (frame_meshes f).
Proof.
  unfold render, frame_meshes. cbv zeta.
  destruct (SceneClaims.resize_spec (clientWidth f) (clientHeight f) gl) as [Hd0 _].
  generalize dependent (resize (clientWidth f) (clientHeight f) gl).
  intros gl0 Hd0.
  destruct (SceneClaims.setupAttributes_spec gl0) as [Hd1 _].
  generalize dependent (setupAttributes gl0). intros gl1 Hd1.
  match goal with
  | |- context [updateUniforms ?t ?c ?p ?v ?w gl1] =>
      destruct (SceneClaims.updateUniforms_spec t c p v w gl1) as [Hd2 _];
      generalize dependent (updateUniforms t c p v w gl1)
  end.
  intros gl2 Hd2.
  destruct (bindTextures_textures gl2) as (Hd3 & T0 & T1 & A & N & Hs).
  cbv zeta in Hd3, T0, T1, A, N, Hs.
  generalize dependent (bindTextures gl2). intros gl3 Hd3 T0 T1 A N Hs.
  destruct (drawSphere_textures gl3) as (d & Hd4 & Dt & Du & Ht & Hu).
  generalize dependent (drawSphere gl3). intros gl4 Hd4 Ht Hu.
  assert (Hsphere : scene_textures d).
  { destruct Hs as (U2 & U3 & U4 & S2 & S3 & S4).
    unfold scene_textures, shared_maps. rewrite Dt, !Du by discriminate.
    by split_and!. }
  assert (Hs4 : shared_maps (texture_units gl4) (uniforms gl4)).
  { destruct Hs as (U2 & U3 & U4 & S2 & S3 & S4).
    unfold shared_maps. rewrite Ht, !Hu by discriminate. by split_and!. }
  assert (Hdraws : draws gl4 = draws gl ++ [d]) by congruence.
  destruct (plantModel f) as [plant|].
  - match goal with
    | |- context [drawPlant plant ?w gl4] =>
        destruct (drawPlant_textures plant w gl4 Hs4) as (ds & Hds & Hall)
    end.
    exists d, ds. rewrite Hds, Hdraws, <- app_assoc. by split_and!.
  - exists d, []. split_and!; [done|done|constructor].
Qed.

(** X15.  In every frame, from any state of the context, the sphere is
    drawn with the five maps of the scene on the texture units 0 to 4
    and its samplers reading them; each mesh of the plant is drawn
    with its own maps on the units 0, 1 and 5 (the specular map being
    [map_Ks], or [map_Kd] without one) and its shininess, and with the
    metallic, roughness and ambient-occlusion maps of the scene still
    on the units 2, 3 and 4. *)
Theorem draws_bind_their_textures (gl : GL) (f : Frame) :
  exists (sphere : DrawCall) (plant_draws : list DrawCall),
    draws (render gl f) = draws gl ++ sphere :: plant_draws /\
    scene_textures sphere /\
    Forall2 plant_textures plant_draws (frame_meshes f).
Proof. apply render_textures. Qed.

(** *** The drawing buffer *)

Lemma uniform_canvas loc v gl : canvas_of (uniform loc v gl) = canvas_of gl.
Proof. by destruct loc. Qed.

Lemma drawMeshes_canvas ms gl :
  canvas_of (fold_left drawMesh ms gl) = canvas_of gl.
Proof.
  revert gl. induction ms as [|mesh ms IH]; intros gl; [done|].
  cbn [fold_left]. rewrite IH. done.
Qed.

Lemma drawPlant_canvas plant worldMatrix gl :
  canvas_of (drawPlant plant worldMatrix gl) = canvas_of gl.
Proof.
  unfold drawPlant. cbv zeta.
  unfold restoreLighting, uniform3f_spread. cbv zeta.
  rewrite !uniform_canvas, drawMeshes_canvas. done.
Qed.

Lemma after_resize_canvas (gl : GL) (f : Frame) :
  canvas_of (render gl f) = canvas_of (resize (clientWidth f) (clientHeight f) gl).
Proof.
  unfold render. cbv zeta.
  generalize (resize (clientWidth f) (clientHeight f) gl). intros gl0.
  match goal with
  | |- canvas_of match _ with
                 | Some plant => drawPlant plant ?w ?g
                 | None => _
                 end = _ =>
      transitivity (canvas_of g);
      [destruct (plantModel f); [apply drawPlant_canvas|done]|]
  end.
  done.
Qed.

(** X16.  After every frame the drawing buffer has the displayed size
    of the canvas; the viewport covers it when the frame changed the
    size or when the viewport covered the buffer before, and a frame
    that finds the sizes equal leaves the viewport as it is. *)
Theorem canvas_follows_the_displayed_size (gl : GL) (f : Frame) :
  let gl' := render gl f in
  canvas_width gl' = clientWidth f /\
  canvas_height gl' = clientHeight f /\
  ((canvas_width gl, canvas_height gl) <> (clientWidth f, clientHeight f) \/
   viewport gl = (0, 0, canvas_width gl, canvas_height gl) ->
   viewport gl' = (0, 0, clientWidth f, clientHeight f)) /\
  ((canvas_width gl, canvas_height gl) = (clientWidth f, clientHeight f) ->
   viewport gl' = viewport gl).
Proof.
  intros gl'. pose proof (after_resize_canvas gl f) as H. fold gl' in H.
  clearbody gl'. unfold canvas_of in H. injection H as Hw Hh Hv.
  unfold resize in Hw, Hh, Hv.
  destruct (Z.eqb_spec (canvas_width gl) (clientWidth f)) as [Ew|Ew];
    destruct (Z.eqb_spec (canvas_height gl) (clientHeight f)) as [Eh|Eh];
    cbn in Hw, Hh, Hv; rewrite Hw, Hh, Hv.
  - split_and!; [done..| |done].
    intros [Hne|Hx]; [congruence|]. by rewrite Hx, Ew, Eh.
  - split_and!; [done..| |congruence]. done.
  - split_and!; [done..| |congruence]. done.
  - split_and!; [done..| |congruence]. done.
Qed.

(** *** The element ranges of the plant *)

Lemma plant_draws_tile ds ms a b :
  Forall2 plant_draw ds ms ->
  LoadSpec.tiles a (map LoadSpec.mesh_span ms) b ->
  LoadSpec.tiles (2 * a) (map byte_span ds) (2 * b).
Proof.
  intros H. revert a. induction H as [|d m ds ms Hd _ IH]; intros a; simpl.
  - lia.
  - destruct Hd as (_ & Hc & Ho & _). intros (Hs & Hpos & Ht).
    rewrite Hc, Ho, Hs. split_and!; [lia|lia|].
    replace (2 * a + 2 * Loader.indexCount m)
      with (2 * (a + Loader.indexCount m)) by lia.
    by apply IH.
Qed.

(** X17.  In a frame whose plant is a model that [loadOBJWithMTL]
    resolved with, the draws of the plant read the element array of
    the plant, and the ranges of bytes they read tile it in order: every
    index of the model is drawn once. *)
Theorem plant_draws_tile_the_index_buffer
    (fetch : string -> option string) (objUrl mtlUrl : string)
    (model : Loader.Model) (urls : list string) (gl : GL) (f : Frame) :
  Load.loadOBJWithMTL fetch objUrl mtlUrl = (Load.Resolved model, urls) ->
  plantModel f = Some (initPlantBuffers model) ->
  exists (sphere : DrawCall) (plant_draws : list DrawCall),
    draws (render gl f) = draws gl ++ sphere :: plant_draws /\
    Forall (fun d => draw_elements d = Some plant_indexBuffer) plant_draws /\
    LoadSpec.tiles 0 (map byte_span plant_draws)
                   (2 * Z.of_nat (length (Loader.indices model))).
Proof.
  intros (mtl & obj & mats & _ & _ & _ & -> & _)%LoadExtras.loaded_model Hf.
  destruct (SceneClaims.render_spec gl f) as (d & ds & Hd & _ & Hp & _).
  unfold frame_meshes in Hp. rewrite Hf in Hp. cbn [meshes initPlantBuffers] in Hp.
  exists d, ds. split_and!; [done| |].
  - clear -Hp. induction Hp as [|? ? ? ? (? & _) _ IH]; by constructor.
  - apply (plant_draws_tile _ _ 0 _ Hp), LoadExtras.parsed_meshes_tile.
Qed.

End WithMV.

Lemma plant_draws_witness :
  let model := Loader.createGeometryWithMaterials
                 (OBJ.parseOBJ ObjSpec.doc_quad) MtlSpec.mats_leaf in
  exists (sphere : @DrawCall plain_library) (plant_draws : list DrawCall),
    draws (render fresh_context (frame_with model))
      = draws fresh_context ++ sphere :: plant_draws /\
    Forall (fun d => draw_elements d = Some plant_indexBuffer) plant_draws /\
    LoadSpec.tiles 0 (map byte_span plant_draws)
                   (2 * Z.of_nat (length (Loader.indices model))).
Proof.
  apply (@plant_draws_tile_the_index_buffer plain_library
           (LoadSpec.serve "plant.obj" ObjSpec.doc_quad "plant.mtl" MaterialSpec.mtl_leaf)
           "plant.obj" "plant.mtl" _ ["plant.mtl"; "plant.obj"]).
  - by vm_compute.
  - reflexivity.
Defined.

End SceneExtras.

(* ===================================================================== *)
(** ** Properties of the sphere *)
(* ===================================================================== *)

Module SphereExtras.
Import JS Sphere.
Local Open Scope list_scope.
Local Open Scope nat_scope.

Lemma length_flat_map_const {A B} (f : A -> list B) (l : list A) (k : nat) :
  (forall x, length (f x) = k) -> length (flat_map f l) = k * length l.
Proof.
  intros Hf. induction l as [|x l IH]; simpl; [lia|].
  rewrite length_app, Hf, IH. lia.
Qed.

Lemma map_flat_map {A B C} (g : B -> C) (f : A -> list B) (l : list A) :
  map g (flat_map f l) = flat_map (fun x => map g (f x)) l.
Proof. induction l as [|x l IH]; simpl; [done|]. by rewrite map_app, IH. Qed.

Section WithMV.
Context `{MV : MVlib}.
Variables (radius : float) (latitudeBands longitudeBands : nat).

Lemma length_vertices {A} (body : nat -> nat -> list A) (k : nat) :
  (forall lat long, length (body lat long) = k) ->
  length (vertices latitudeBands longitudeBands body)
  = k * vertex_total latitudeBands longitudeBands.
Proof.
  intros Hb. unfold vertices, vertex_total.
  rewrite (length_flat_map_const _ _ (k * S longitudeBands)).
  - rewrite length_seq. lia.
  - intros lat. rewrite (length_flat_map_const _ _ k) by apply Hb.
    by rewrite length_seq.
Qed.

(** X18.  For every number of bands, [createSphereGeometry] makes
    [(latitudeBands + 1) * (longitudeBands + 1)] vertices, with three
    numbers per position and normal and two per texture coordinate,
    and six indices per band cell, each of them the index of a
    vertex. *)
Theorem sphere_indices_address_its_vertices :
  let g := createSphereGeometry radius latitudeBands longitudeBands in
  let n := vertex_total latitudeBands longitudeBands in
  length (positions g) = 3 * n /\
  length (texCoords g) = 2 * n /\
  length (normals g) = 3 * n /\
  length (indices g) = 6 * (latitudeBands * longitudeBands) /\
  Forall (fun i => i < n) (indices g).
Proof.
  intros g n. subst g n. cbn [createSphereGeometry positions texCoords normals indices].
  split_and!.
  - by apply length_vertices.
  - by apply length_vertices.
  - by apply length_vertices.
  - unfold quads.
    rewrite (length_flat_map_const _ _ (6 * longitudeBands)).
    + rewrite length_seq. lia.
    + intros lat. rewrite (length_flat_map_const _ _ 6) by done.
      by rewrite length_seq.
  - unfold quads, vertex_total. apply Forall_forall. intros i Hi.
    apply list_elem_of_In, in_flat_map in Hi as (lat & Hlat & Hi).
    apply in_flat_map in Hi as (long & Hlong & Hi).
    apply in_seq in Hlat, Hlong. unfold quad in Hi. simpl in Hi.
    assert (S lat * S longitudeBands <= latitudeBands * S longitudeBands)
      by (apply Nat.mul_le_mono_r; lia).
    repeat destruct Hi as [<-|Hi]; lia.
Qed.

(** Every position of the sphere is its normal scaled by the
    radius, coordinate by coordinate. *)
Lemma sphere_positions_are_scaled_normals :
  let g := createSphereGeometry radius latitudeBands longitudeBands in
  positions g = map (fun c => (radius * c)%float) (normals g).
Proof.
  cbn [createSphereGeometry positions normals]. unfold vertices.
  rewrite map_flat_map. apply flat_map_ext. intros lat.
  by rewrite map_flat_map.
Qed.

End WithMV.

(** The sphere of the scene: the indices that [render] draws are the
    ones of 30 by 30 bands. *)
Example scene_sphere :
  indices (@createSphereGeometry DrawSpec.plain_library Scene.radius
             Scene.latitudeBands Scene.longitudeBands)
  = Scene.sphere_indices.
Proof. reflexivity. Qed.

End SphereExtras.

(* ===================================================================== *)
(** ** Properties of the texture helpers *)
(* ===================================================================== *)

Module HelperExtras.
Import Helpers HelperSpec.
Local Open Scope list_scope.

(** *** Powers of two *)

Lemma land_double_odd (a b : Z) : Z.land (2 * a) (2 * b + 1) = 2 * Z.land a b.
Proof.
  apply Z.bits_inj'. intros n Hn. rewrite Z.land_spec.
  destruct (Z.eq_dec n 0) as [->|Hne].
  - rewrite Z.testbit_even_0, Z.testbit_odd_0, Z.testbit_even_0. done.
  - replace n with (Z.succ (n - 1)) by lia.
    rewrite Z.testbit_even_succ, Z.testbit_odd_succ, Z.testbit_even_succ by lia.
    by rewrite Z.land_spec.
Qed.

Lemma positive_power_of_two (p : positive) :
  Z.land (Z.pos p) (Z.pos p - 1) = 0 <-> power_of_two (Z.pos p).
Proof.
  unfold power_of_two. induction p as [p IH|p IH|].
  - split.
    + intros H. exfalso.
      replace (Z.pos p~1 - 1) with (2 * Z.pos p) in H by lia.
      replace (Z.pos p~1) with (2 * Z.pos p + 1) in H by lia.
      rewrite Z.land_comm, land_double_odd, Z.land_diag in H. lia.
    + intros (k & Hk & H). exfalso.
      destruct (Z.eq_dec k 0) as [->|Hne]; [simpl in H; lia|].
      replace k with (Z.succ (k - 1)) in H by lia.
      rewrite Z.pow_succ_r in H by lia. lia.
  - replace (Z.pos p~0 - 1) with (2 * (Z.pos p - 1) + 1) by lia.
    replace (Z.pos p~0) with (2 * Z.pos p) by lia.
    rewrite land_double_odd. split.
    + intros H. assert (H' : Z.land (Z.pos p) (Z.pos p - 1) = 0) by lia.
      apply IH in H' as (k & Hk & ->). exists (Z.succ k).
      split; [lia|]. by rewrite Z.pow_succ_r.
    + intros (k & Hk & H).
      destruct (Z.eq_dec k 0) as [->|Hne]; [simpl in H; lia|].
      replace k with (Z.succ (k - 1)) in H by lia.
      rewrite Z.pow_succ_r in H by lia.
      assert (Hp : Z.pos p = 2 ^ (k - 1)) by lia.
      assert (H' : Z.land (Z.pos p) (Z.pos p - 1) = 0)
        by (apply IH; exists (k - 1); split; [lia|done]).
      lia.
  - split; [|done]. intros _. exists 0. by split.
Qed.

Lemma ToInt32_small n : - 2 ^ 31 <= n < 2 ^ 31 -> ToInt32 n = n.
Proof.
  intros H. unfold ToInt32. change (2 ^ 31) with 2147483648 in *.
  change (2 ^ 32) with 4294967296. rewrite Z.mod_small by lia. lia.
Qed.

Lemma ToInt32_large n : 2 ^ 31 <= n < 2 ^ 32 -> ToInt32 n = n - 2 ^ 32.
Proof.
  intros H. unfold ToInt32. change (2 ^ 31) with 2147483648 in *.
  change (2 ^ 32) with 4294967296 in *.
  replace (n + 2147483648) with ((n - 2147483648) + 1 * 4294967296) by lia.
  rewrite Z.mod_add by lia. rewrite Z.mod_small by lia. lia.
Qed.

Lemma no_power_between n k : 2 ^ 31 < n < 2 ^ 32 -> 0 <= k -> n <> 2 ^ k.
Proof.
  intros Hn Hk ->. destruct (Z.le_gt_cases k 31) as [Hle|Hgt].
  - pose proof (Z.pow_le_mono_r 2 k 31 ltac:(lia) Hle). lia.
  - pose proof (Z.pow_le_mono_r 2 32 k ltac:(lia) ltac:(lia)). lia.
Qed.

(** X19.  For a size from 0 to 2^32 - 1, [isPowerOf2] answers true
    exactly when the size is a power of two, or 0. *)
Theorem isPowerOf2_holds_of_powers_and_zero (n : Z) :
  0 <= n < 2 ^ 32 ->
  isPowerOf2 n = true <-> n = 0 \/ power_of_two n.
Proof.
  intros Hn. unfold isPowerOf2, bitand. rewrite Z.eqb_eq.
  destruct (Z.eq_dec n 0) as [->|Hne]; [split; [by left|done]|].
  destruct (Z.lt_ge_cases n (2 ^ 31)) as [Hlt|Hge].
  - rewrite !ToInt32_small by lia.
    destruct n as [|p|p]; [done| |lia].
    rewrite positive_power_of_two. split; [by right|]. by intros [?|?].
  - destruct (Z.eq_dec n (2 ^ 31)) as [->|Hne'].
    + split; [|done]. intros _. right. exists 31. by split.
    + rewrite !ToInt32_large by lia. split.
      * intros H.
        assert (Hneg : Z.land (n - 2 ^ 32) (n - 1 - 2 ^ 32) < 0)
          by (apply Z.land_neg; lia).
        lia.
      * intros [->|(k & Hk & Hp)]; [done|].
        by destruct (no_power_between n k ltac:(lia) Hk).
Qed.

Lemma isPowerOf2_witness :
  isPowerOf2 256 = true <-> 256 = 0 \/ power_of_two 256.
Proof. apply (isPowerOf2_holds_of_powers_and_zero 256). by vm_compute. Defined.

Example isPowerOf2_values :
  isPowerOf2 0 = true /\ isPowerOf2 1 = true /\ isPowerOf2 640 = false /\
  isPowerOf2 2147483648 = true /\ isPowerOf2 4294967295 = false.
Proof. by vm_compute. Qed.

(** *** Textures and their images *)

Lemma on_bound_textures f c t :
  bound c = Some t ->
  on_bound f c = {| textures := alter f t (textures c); bound := Some t;
                    images := images c |}.
Proof. unfold on_bound. by intros ->. Qed.

Lemma load_textures i width height c texture url :
  images c !! i = Some (texture, url) ->
  textures (load i width height c) = alter (loaded url width height) texture (textures c) /\
  images (load i width height c) = images c.
Proof.
  intros Hi. unfold load, setupTextureFiltering, texImage2D_image, loaded. rewrite Hi.
  cbv zeta. destruct (isPowerOf2 width && isPowerOf2 height);
    repeat (rewrite (on_bound_textures _ _ texture) by done; cbn [textures bound images]);
    cbn [bindTexture textures images];
    by rewrite !list_alter_alter_eq.
Qed.

Lemma loaded_shows url width height o :
  image (loaded url width height o) = Some (Picture url width height) /\
  filtered width height (loaded url width height o).
Proof.
  unfold loaded, filtered. by destruct (isPowerOf2 width && isPowerOf2 height).
Qed.

Lemma images_ok_fresh : images_ok fresh.
Proof. split; [constructor|]. by intros i t u. Qed.

Lemma images_below c i texture url :
  images_ok c -> images c !! i = Some (texture, url) ->
  (texture < length (textures c))%nat.
Proof.
  intros [_ H] Hi. destruct (H i texture url Hi) as (o & Ho & _).
  by apply lookup_lt_Some in Ho.
Qed.

Lemma images_ok_step c e : images_ok c -> images_ok (step c e).
Proof.
  intros Hok. pose proof Hok as [Hnd Hsh]. destruct e as [[url|bytes]|i w h|t].
  - (* an image is requested *)
    cbn [step loadImageTexture createTexture fst].
    unfold createTemporaryTexture, texImage2D_pixels, loadImageFromURL.
    cbn [length Nat.leb bindTexture textures bound images].
    rewrite (on_bound_textures _ _ (length (textures c))) by done.
    unfold images_ok. cbn [bindTexture textures bound images]. split.
    + rewrite map_app. apply NoDup_app. split_and!; [done| |by apply NoDup_singleton].
      intros t Ht Ht'. apply list_elem_of_singleton in Ht'. subst t.
      apply list_elem_of_fmap in Ht as ([t u] & Heq & Hin). simpl in Heq.
      apply list_elem_of_lookup in Hin as [j Hj].
      pose proof (images_below c j t u Hok Hj). lia.
    + intros j t u Hj. apply lookup_app_Some in Hj as [Hj|[_ Hj]].
      * destruct (Hsh j t u Hj) as (o & Ho & Hs). exists o. split; [|done].
        pose proof (lookup_lt_Some _ _ _ Ho).
        rewrite list_lookup_alter_ne by lia. by rewrite lookup_app_l.
      * apply list_lookup_singleton_Some in Hj as [_ [= <- <-]].
        eexists. split.
        { rewrite list_lookup_alter_eq, lookup_app_r, Nat.sub_diag by lia. done. }
        by left.
  - (* pixel data *)
    cbn [step loadImageTexture createTexture fst].
    unfold createTextureFromPixels, texImage2D_pixels.
    destruct (4 <=? length bytes)%nat.
    + rewrite (on_bound_textures _ _ (length (textures c))) by done.
      unfold images_ok. cbn [bindTexture textures bound images]. split; [done|].
      intros j t u Hj. destruct (Hsh j t u Hj) as (o & Ho & Hs). exists o.
      split; [|done]. pose proof (lookup_lt_Some _ _ _ Ho).
      rewrite list_lookup_alter_ne by lia. by rewrite lookup_app_l.
    + unfold images_ok. cbn [bindTexture textures bound images]. split; [done|].
      intros j t u Hj. destruct (Hsh j t u Hj) as (o & Ho & Hs). exists o.
      split; [|done]. pose proof (lookup_lt_Some _ _ _ Ho). by rewrite lookup_app_l.
  - (* an image is loaded *)
    cbn [step]. destruct (images c !! i) as [[texture url]|] eqn:Hi;
      [|by unfold load; rewrite Hi].
    unfold images_ok.
    destruct (load_textures i w h c texture url Hi) as [-> ->].
    split; [done|]. intros j t u Hj.
    destruct (Hsh j t u Hj) as (o & Ho & Hs).
    destruct (decide (t = texture)) as [->|Hne].
    + assert (j = i) as ->.
      { eapply (NoDup_lookup (map fst (images c))); [done| |];
          rewrite list_lookup_fmap; [by rewrite Hj|by rewrite Hi]. }
      simplify_eq. exists (loaded url w h o).
      rewrite list_lookup_alter_eq, Ho. split; [done|].
      right. exists w, h. apply loaded_shows.
    + exists o. by rewrite list_lookup_alter_ne.
  - done.
Qed.

Lemma images_ok_run events : images_ok (run events).
Proof.
  unfold run. generalize images_ok_fresh. generalize fresh.
  induction events as [|e events IH]; intros c Hc; [done|].
  cbn [fold_left]. by apply IH, images_ok_step.
Qed.

(** X20.  Whatever calls of [loadImageTexture], [load] events and
    other bindings of textures happen in whatever order, each requested
    image has a texture of its own, which shows the blue pixel or the
    picture of its own URL with the filtering for its size; and right
    after the [load] event of the image it shows the picture. *)
Theorem texture_shows_placeholder_or_its_picture
    (events : list event) (i texture : nat) (url : string) :
  images (run events) !! i = Some (texture, url) ->
  (exists o, textures (run events) !! texture = Some o /\ shows url o) /\
  (forall j t u, images (run events) !! j = Some (t, u) -> t = texture -> j = i) /\
  (forall width height,
     exists o, textures (run (events ++ [Loaded i width height])) !! texture = Some o /\
               image o = Some (Picture url width height) /\
               filtered width height o).
Proof.
  intros Hi. destruct (images_ok_run events) as [Hnd Hsh].
  destruct (Hsh i texture url Hi) as (o & Ho & Hs).
  split_and!.
  - eauto.
  - intros j t u Hj ->.
    eapply (NoDup_lookup (map fst (images (run events)))); [done| |];
      rewrite list_lookup_fmap; [by rewrite Hj|by rewrite Hi].
  - intros w h. unfold run. rewrite fold_left_app. fold (run events).
    cbn [fold_left step].
    destruct (load_textures i w h (run events) texture url Hi) as [-> _].
    exists (loaded url w h o). rewrite list_lookup_alter_eq, Ho.
    split; [done|]. apply loaded_shows.
Qed.

Lemma texture_witness :
  (exists o, textures (run two_loads) !! 0%nat = Some o /\ shows "a.png" o) /\
  (forall j t u, images (run two_loads) !! j = Some (t, u) -> t = 0%nat -> j = 0%nat) /\
  (forall width height,
     exists o, textures (run (two_loads ++ [Loaded 0 width height])) !! 0%nat = Some o /\
               image o = Some (Picture "a.png" width height) /\
               filtered width height o).
Proof.
  apply (texture_shows_placeholder_or_its_picture two_loads 0 0 "a.png").
  by vm_compute.
Defined.

Example two_loads_textures :
  image <$> textures (run two_loads)
  = [Some (Picture "a.png" 256 256); Some (Picture "b.png" 640 480); None] /\
  min_filter <$> textures (run two_loads)
  = [NEAREST_MIPMAP_LINEAR; LINEAR; NEAREST_MIPMAP_LINEAR].
Proof. by vm_compute. Qed.

End HelperExtras.

(* ===================================================================== *)
(** ** Further properties of the camera *)
(* ===================================================================== *)

Module CameraExtras.
Import JS Camera CameraSpec PointerSpec FloatFacts.
Local Open Scope list_scope.

Lemma step_unlocked c o :
  isPointerLocked c = false -> no_lock o -> step c o = c.
Proof.
  intros Hc Ho. destruct o as [|[]|e| | |]; cbn [step]; try done.
  - destruct c. simpl in Hc. by subst.
  - unfold mousemove. by rewrite Hc.
Qed.

Lemma steps_unlocked ops c :
  isPointerLocked c = false -> Forall no_lock ops -> fold_left step ops c = c.
Proof.
  intros Hc Hops. induction Hops as [|o ops Ho _ IH]; [done|].
  cbn [fold_left]. by rewrite (step_unlocked c o Hc Ho).
Qed.

(** X21.  While the pointer is not locked to the canvas, no operation
    changes the camera: after any operations that leave the pointer
    unlocked, every field has the value it had. *)
Theorem unlocked_camera_does_not_move (before after : list operation) :
  isPointerLocked (run before) = false ->
  Forall no_lock after ->
  run (before ++ after) = run before.
Proof.
  intros Hc Hops. unfold run. rewrite fold_left_app.
  by apply steps_unlocked.
Qed.

Lemma unlocked_camera_witness :
  run ([Mousedown; Pointerlockchange true; Pointerlockchange false]
       ++ [Mousemove {| buttons := 1; movementX := 10; movementY := 10 |};
           Mousedown; Pointerlockchange false;
           Mousemove {| buttons := 4; movementX := 0; movementY := -30 |}])
  = run [Mousedown; Pointerlockchange true; Pointerlockchange false].
Proof.
  apply (unlocked_camera_does_not_move
           [Mousedown; Pointerlockchange true; Pointerlockchange false]).
  - reflexivity.
  - repeat constructor; discriminate.
Defined.

(** *** Deltas that are no numbers *)

Lemma add_nan_l x y : is_nan x = true -> is_nan (x + y)%float = true.
Proof.
  intros H%Prim2SF_nan. apply Prim2SF_nan.
  rewrite FloatAxioms.add_spec, H. done.
Qed.

Lemma add_nan_r x y : is_nan y = true -> is_nan (x + y)%float = true.
Proof.
  intros H%Prim2SF_nan. apply Prim2SF_nan.
  rewrite FloatAxioms.add_spec, H. by destruct (Prim2SF x) as [[]|[]| |[] ? ?].
Qed.

Lemma mul_nan_l x y : is_nan x = true -> is_nan (x * y)%float = true.
Proof.
  intros H%Prim2SF_nan. apply Prim2SF_nan.
  rewrite FloatAxioms.mul_spec, H. done.
Qed.

Lemma compare_nan_r x y : is_nan y = true -> (x ?= y)%float = FNotComparable.
Proof.
  intros H%Prim2SF_nan. rewrite FloatAxioms.compare_spec, H.
  by destruct (Prim2SF x) as [[]|[]| |[] ? ?].
Qed.

Lemma clamp_nan lo hi x :
  is_nan x = true -> is_nan (Math_max lo (Math_min hi x)) = true.
Proof.
  intros H. unfold Math_min. rewrite (compare_nan_r hi x H).
  unfold Math_max. by rewrite (compare_nan_r lo nan eq_refl).
Qed.

Lemma step_keeps_nan c o :
  is_nan (rotationX c) = true -> is_nan (rotationX (step c o)) = true.
Proof.
  intros H. destruct o as [|b|e| | |]; cbn [step]; try done.
  unfold mousemove. destruct (isPointerLocked c); cbn [negb]; [|done].
  destruct (buttons e =? 1); [|destruct (buttons e =? 4); [done|]].
  - cbn [rotationX]. by apply clamp_nan, add_nan_l.
  - by destruct (buttons e =? 2).
Qed.

(** X22.  A drag whose vertical delta is no number makes the pitch NaN,
    which the clamp lets through, and no later operation makes it a
    number again: from then on the pitch is outside its bounds. *)
Theorem nan_delta_spoils_the_pitch
    (before after : list operation) (e : MouseEvent) :
  isPointerLocked (run before) = true ->
  buttons e = 1 ->
  is_nan (movementY e) = true ->
  let c := run (before ++ Mousemove e :: after) in
  is_nan (rotationX c) = true /\
  ~ fle (-89) (rotationX c) /\ ~ fle (rotationX c) 89.
Proof.
  intros Hl Hb Hn c.
  assert (Hc : is_nan (rotationX c) = true).
  { subst c. unfold run. rewrite fold_left_app. fold (run before).
    cbn [fold_left].
    assert (H1 : is_nan (rotationX (step (run before) (Mousemove e))) = true).
    { cbn [step]. unfold mousemove. rewrite Hl, Hb. cbn [negb Z.eqb Pos.eqb rotationX].
      by apply clamp_nan, add_nan_r, mul_nan_l. }
    generalize dependent (step (run before) (Mousemove e)). intros c1 H1.
    revert c1 H1. induction after as [|o after IH]; intros c1 H1; [done|].
    cbn [fold_left]. by apply IH, step_keeps_nan. }
  split_and!; [done| |]; intros H%fle_not_nan; destruct H; congruence.
Qed.

Lemma nan_delta_witness :
  let c := run ([Mousedown; Pointerlockchange true]
                ++ Mousemove broken_drag
                :: [Mousemove {| buttons := 1; movementX := 0; movementY := 5 |}]) in
  is_nan (rotationX c) = true /\
  ~ fle (-89) (rotationX c) /\ ~ fle (rotationX c) 89.
Proof.
  apply (nan_delta_spoils_the_pitch [Mousedown; Pointerlockchange true]
           [Mousemove {| buttons := 1; movementX := 0; movementY := 5 |}] broken_drag);
    reflexivity.
Defined.

End CameraExtras.
